(** * package-info-cache: a shallow embedding of the cache and resolver

    The development follows the layout of the TypeScript sources:
    - [utils.ts]                         : [split], [getObjectProperty],
                                           [pushUnique], [lexicographically];
    - [objects/errors.ts], [error-list.ts] : the error ledger;
    - [objects/node-modules-list.ts]     : module [NodeModulesList];
    - [objects/package-info.ts]          : module [PackageInfo] and the
                                           dependency helpers;
    - [objects/package-info-factory.ts]  : [PackageInfoFactory_create];
    - [objects/package-info-cache.ts]    : [readPackage],
                                           [readNodeModulesList],
                                           [findPackage], [loadApp].

    JavaScript objects have identity and are mutated in place, so the
    embedding keeps an explicit store of objects addressed by references;
    the file system and Node's [path] module are external collaborators and
    enter as records of functions. *)

From Stdlib Require Import ZArith Lia Bool Ascii String DecimalString.
From Stdlib Require Import Permutation Sorted OrdersEx.
From stdpp Require Import base list strings.

Open Scope string_scope.
Open Scope list_scope.

(* ===================================================================== *)
(** ** JavaScript values used by the sources *)
(* ===================================================================== *)

(** Parsed JSON documents.  [JObj] lists the own properties in the order
    in which [Object.keys] enumerates them. *)
#[local] Unset Elimination Schemes.
Inductive Json : Type :=
| JNull
| JBool (b : bool)
| JNum (n : Z)
| JStr (s : string)
| JArr (items : list Json)
| JObj (props : list (string * Json)).
#[local] Set Elimination Schemes.

(** A value of type [unknown]: [None] is [undefined]. *)
Definition JsValue : Type := option Json.

(** [String.prototype.startsWith] *)
Definition startsWith (s pre : string) : bool := String.prefix pre s.

(** [String.prototype.split] with a one-character separator: the result
    always has at least one part. *)
Fixpoint split (sep : ascii) (s : string) : list string :=
  match s with
  | EmptyString => [EmptyString]
  | String c rest =>
      if Ascii.eqb c sep then EmptyString :: split sep rest
      else match split sep rest with
           | [] => [String c EmptyString]
           | hd :: tl => String c hd :: tl
           end
  end.

(** A JavaScript [Map<string, V>]: iteration follows insertion order and
    [set] on a key that is present replaces the value in place. *)
Module JsMap.
Definition t (V : Type) : Type := list (string * V).

Definition empty {V} : t V := [].

Fixpoint get {V} (m : t V) (k : string) : option V :=
  match m with
  | [] => None
  | (k', v) :: m' => if String.eqb k' k then Some v else get m' k
  end.

Fixpoint set {V} (m : t V) (k : string) (v : V) : t V :=
  match m with
  | [] => [(k, v)]
  | (k', v') :: m' =>
      if String.eqb k' k then (k', v) :: m' else (k', v') :: set m' k v
  end.

Definition keys {V} (m : t V) : list string := map fst m.
Definition values {V} (m : t V) : list V := map snd m.
End JsMap.

(* ===================================================================== *)
(** ** utils.ts *)
(* ===================================================================== *)

Definition isObject (v : JsValue) : bool :=
  match v with
  | Some (JObj _) | Some (JArr _) => true
  | _ => false
  end.

(** [record[innerProp]] on a JSON value.  Only the named properties of
    objects are modelled; the index and [length] properties of arrays are
    never asked for by the sources. *)
Definition getProperty (v : Json) (k : string) : JsValue :=
  match v with
  | JObj props => JsMap.get props k
  | _ => None
  end.

(** The [for] loop of [getObjectProperty], over the remaining property
    names. *)
Fixpoint getObjectProperty_loop (currVal : Json) (props : list string) : JsValue :=
  match props with
  | [] => Some currVal
  | innerProp :: rest =>
      let val := getProperty currVal innerProp in
      match rest with
      | [] => val
      | _ :: _ =>
          match val with
          | Some v => if isObject val then getObjectProperty_loop v rest else None
          | None => None
          end
      end
  end.

Definition getObjectProperty (obj : JsValue) (prop : string) : JsValue :=
  match obj with
  | Some o =>
      if isObject obj then getObjectProperty_loop o (split "." prop) else None
  | None => None
  end.

Definition isString (v : JsValue) : bool :=
  match v with Some (JStr _) => true | _ => false end.

(** [isStringArray]: an array all of whose items are strings.  ([find]
    returns the first non-string item, and the test is on its truthiness;
    for the items of a parsed JSON array this differs from "some item is not
    a string" only on falsy items, which are handled below.) *)
Definition truthy (v : Json) : bool :=
  match v with
  | JNull => false
  | JBool b => b
  | JNum n => negb (Z.eqb n 0)
  | JStr s => negb (String.eqb s EmptyString)
  | JArr _ | JObj _ => true
  end.

Definition isStringArray (obj : JsValue) : option (list Json) :=
  match obj with
  | Some (JArr items) =>
      match List.find (fun item => negb (isString (Some item))) items with
      | Some item => if truthy item then None else Some items
      | None => Some items
      end
  | _ => None
  end.

Definition hasItemInList (list : JsValue) (propName : string) : bool :=
  match getObjectProperty list propName with Some _ => true | None => false end.

Definition hasDependency (obj : JsValue) (dependency : string) : bool :=
  hasItemInList obj ("dependencies." ++ dependency).

Definition hasDevDependency (obj : JsValue) (dependency : string) : bool :=
  hasItemInList obj ("devDependencies." ++ dependency).

(** [Array.prototype.indexOf]: the first index holding [entry], or [-1]. *)
Fixpoint indexOf {T} `{EqDecision T} (array : list T) (entry : T) : Z :=
  match array with
  | [] => (-1)%Z
  | x :: rest =>
      if decide (x = entry) then 0%Z
      else let i := indexOf rest entry in
           if (i <? 0)%Z then (-1)%Z else (i + 1)%Z
  end.

(** [array.splice(index, 1)] *)
Definition splice1 {T} (array : list T) (index : Z) : list T :=
  take (Z.to_nat index) array ++ drop (S (Z.to_nat index)) array.

Definition pushUnique {T} `{EqDecision T} (array : list T) (entry : T) : list T :=
  let index := indexOf array entry in
  let array := if (index >? -1)%Z then splice1 array index else array in
  array ++ [entry].

(** [NamedObj]: [name] is [None] when the property is missing or is not a
    string ([typeof a.name === 'string'] fails in both cases). *)
Record NamedObj : Type := { name : option string }.

Section Lexicographically.
(** [String.prototype.localeCompare] belongs to the host; it is a
    parameter of the comparison. *)
Variable localeCompare : string -> string -> Z.

Definition lexicographically (a b : NamedObj) : Z :=
  match name a, name b with
  | Some an, Some bn =>
      if negb (String.eqb an EmptyString) && negb (String.eqb bn EmptyString)
      then localeCompare an bn
      else (-1)%Z
  | Some _, None => (-1)%Z
  | None, Some _ => 1%Z
  | None, None => 0%Z
  end.
End Lexicographically.

(** [Array.prototype.sort] with a comparison function.  The sort is stable;
    it is modelled as a stable insertion sort. *)
Section ArraySort.
Context {T : Type} (compareFn : T -> T -> Z).

Fixpoint sort_insert (x : T) (sorted : list T) : list T :=
  match sorted with
  | [] => [x]
  | y :: rest =>
      if (compareFn x y >? 0)%Z then y :: sort_insert x rest
      else x :: sorted
  end.

Definition array_sort (array : list T) : list T :=
  fold_right sort_insert [] array.
End ArraySort.

(* ===================================================================== *)
(** ** objects/errors.ts and objects/error-list.ts *)
(* ===================================================================== *)

Module ERRORS.
Definition ERROR_PACKAGE_DIR_MISSING := "packageDirectoryMissing".
Definition ERROR_PACKAGE_JSON_MISSING := "packageJsonMissing".
Definition ERROR_PACKAGE_JSON_PARSE := "packageJsonParse".
Definition ERROR_EMBER_ADDON_MAIN_MISSING := "emberAddonMainMissing".
Definition ERROR_DEPENDENCIES_MISSING := "dependenciesMissing".
Definition ERROR_DEVDEPENDENCIES_MISSING := "devDependenciesMissing".
Definition ERROR_NODEMODULES_ENTRY_MISSING := "modulesEntryMissing".
End ERRORS.

(** The payload of an error entry ([unknown] in the source): a path or an
    entry name, a list of dependency names, or [undefined]. *)
Inductive ErrorData : Type :=
| DataString (s : string)
| DataNames (names : list string)
| DataUndefined.

(** Modelled from the spec: the class [ErrorEntry] of
    [objects/error-entry.ts], which is not among the sources.  The spec has
    an entry as a kind and an opaque payload; [ErrorList.addError] builds it
    from the two, and [#showObjErrors] reads them back as [type] and
    [data]. *)
Module ErrorEntry.
Record t : Type := mk { type : string; data : ErrorData }.
End ErrorEntry.

Module ErrorList.
Record t : Type := mk { errors : list ErrorEntry.t }.

Definition new : t := mk [].

Definition addError (this : t) (errorType : string) (errorData : ErrorData) : t :=
  mk (errors this ++ [ErrorEntry.mk errorType errorData]).

Definition getErrors (this : t) : list ErrorEntry.t := errors this.

Definition hasErrors (this : t) : bool := (0 <? length (errors this))%nat.
End ErrorList.

(* ===================================================================== *)
(** ** Object references *)
(* ===================================================================== *)

(** A [PackageInfo] object (of any subclass) is named by its index in the
    store of package objects. *)
Abbreviation PkgRef := nat (only parsing).

(** A [NodeModulesList] object: the frozen, shared [nullInstance], or an
    index in the store of listing objects. *)
Inductive ListRef : Type :=
| NullInstance
| ListAt (n : nat).

(** [PackageInfoCacheEntry = PackageInfo | NodeModulesList] *)
Inductive Entry : Type :=
| EPackage (r : PkgRef)
| EList (l : ListRef).

#[global] Instance ListRef_eq_dec : EqDecision ListRef.
Proof. solve_decision. Defined.

#[global] Instance Entry_eq_dec : EqDecision Entry.
Proof. solve_decision. Defined.

(** The completion of a call that does not change the store: a value, a
    thrown error, or (for recursive definitions) exhausted fuel. *)
Inductive Completion (A : Type) : Type :=
| Return (a : A)
| Throws (error : string)
| NoFuel.
Arguments Return {A} a.
Arguments Throws {A} error.
Arguments NoFuel {A}.

(** Reading a reference that names no object.  No JavaScript execution
    does this; it keeps the store functions total. *)
Definition INVALID_REFERENCE := "invalid reference".

(* ===================================================================== *)
(** ** objects/node-modules-list.ts *)
(* ===================================================================== *)

Module NodeModulesList.
Record t : Type := mk {
  realPath : string;
  hasEntries : bool;
  entries : JsMap.t Entry;
  errors : ErrorList.t
}.

Definition new (realPath : string) : t :=
  mk realPath false JsMap.empty ErrorList.new.

(** [static get nullInstance]: a frozen, empty listing at [/dev/null]. *)
Definition nullInstance : t := new "/dev/null".

Definition addError (this : t) (errorType : string) (errorData : ErrorData) : t :=
  mk (realPath this) (hasEntries this) (entries this)
     (ErrorList.addError (errors this) errorType errorData).

Definition hasErrors (this : t) : bool := ErrorList.hasErrors (errors this).

Definition addEntry (this : t) (entryName : string) (entryVal : Entry) : t :=
  mk (realPath this) true (JsMap.set (entries this) entryName entryVal)
     (errors this).

(** The listing object a reference names, in a store of listings. *)
Definition deref (heap : list t) (r : ListRef) : option t :=
  match r with
  | NullInstance => Some nullInstance
  | ListAt n => heap !! n
  end.

Definition TYPE_ERROR_STARTSWITH :=
  "TypeError: Cannot read properties of undefined (reading 'startsWith')".

(** [findPackage(packageName)].  The argument is [None] when the caller
    passes [parts[1]] of a name that has a single part.  The recursion
    descends into the listing of the scope; [fuel] bounds its depth. *)
Fixpoint findPackage (fuel : nat) (heap : list t) (this : ListRef)
    (packageName : option string) : Completion (option Entry) :=
  match fuel with
  | O => NoFuel
  | S fuel =>
      match deref heap this with
      | None => Throws INVALID_REFERENCE
      | Some self =>
          if negb (hasEntries self) then Return None
          else
            match packageName with
            | None => Throws TYPE_ERROR_STARTSWITH
            | Some packageName =>
                if startsWith packageName "@" then
                  let parts := split "/" packageName in
                  let entry :=
                    match parts !! 0%nat with
                    | Some scope => JsMap.get (entries self) scope
                    | None => None
                    end in
                  match entry with
                  | Some (EList nested) =>
                      findPackage fuel heap nested (parts !! 1%nat)
                  | _ => Return None
                  end
                else Return (JsMap.get (entries self) packageName)
            end
      end
  end.

(** The recursion is at most three calls deep: the second call receives a
    part without ['/'], so a third call can only receive [undefined]. *)
Definition FIND_DEPTH : nat := 3.
End NodeModulesList.

(* ===================================================================== *)
(** ** objects/package-info.ts: the object *)
(* ===================================================================== *)

(** The class of a [PackageInfo] object. [EmberEnginePackageInfo] extends
    [EmberAddonPackageInfo]; that one, and [EmberAppPackageInfo], extend
    [EmberPackageInfo], which extends [PackageInfo]. *)
Inductive PackageClass : Type :=
| ClassPackageInfo
| ClassEmberPackageInfo
| ClassEmberAddonPackageInfo
| ClassEmberEnginePackageInfo
| ClassEmberAppPackageInfo.

(** [x instanceof EmberAddonPackageInfo] *)
Definition instanceofEmberAddonPackageInfo (k : PackageClass) : bool :=
  match k with
  | ClassEmberAddonPackageInfo | ClassEmberEnginePackageInfo => true
  | _ => false
  end.

(** [x instanceof EmberAppPackageInfo] *)
Definition instanceofEmberAppPackageInfo (k : PackageClass) : bool :=
  match k with
  | ClassEmberAppPackageInfo => true
  | _ => false
  end.

Module PackageInfo.
Record t : Type := mk {
  class : PackageClass;
  packageJson : JsMap.t Json;
  realPath : string;
  isRoot : bool;
  errors : ErrorList.t;
  dependenciesPackages : option (JsMap.t Entry);
  devDependenciesPackages : option (JsMap.t Entry);
  nodeModules : option ListRef;
  processed : bool;
  valid : bool;
  addonMainPath : option string;
  inRepoAddons : option (list PkgRef)
}.

(** The constructor of the base class. *)
Definition new (class : PackageClass) (pkgObj : JsMap.t Json)
    (realPath : string) (isRoot : bool) : t :=
  mk class pkgObj realPath isRoot ErrorList.new None None None false true
     None None.

Definition set_packageJson (v : JsMap.t Json) (p : t) : t :=
  mk (class p) v (realPath p) (isRoot p) (errors p)
     (dependenciesPackages p) (devDependenciesPackages p) (nodeModules p)
     (processed p) (valid p) (addonMainPath p) (inRepoAddons p).

Definition set_errors (v : ErrorList.t) (p : t) : t :=
  mk (class p) (packageJson p) (realPath p) (isRoot p) v
     (dependenciesPackages p) (devDependenciesPackages p) (nodeModules p)
     (processed p) (valid p) (addonMainPath p) (inRepoAddons p).

Definition set_dependenciesPackages (v : option (JsMap.t Entry)) (p : t) : t :=
  mk (class p) (packageJson p) (realPath p) (isRoot p) (errors p)
     v (devDependenciesPackages p) (nodeModules p)
     (processed p) (valid p) (addonMainPath p) (inRepoAddons p).

Definition set_devDependenciesPackages (v : option (JsMap.t Entry)) (p : t) : t :=
  mk (class p) (packageJson p) (realPath p) (isRoot p) (errors p)
     (dependenciesPackages p) v (nodeModules p)
     (processed p) (valid p) (addonMainPath p) (inRepoAddons p).

Definition set_nodeModules (v : option ListRef) (p : t) : t :=
  mk (class p) (packageJson p) (realPath p) (isRoot p) (errors p)
     (dependenciesPackages p) (devDependenciesPackages p) v
     (processed p) (valid p) (addonMainPath p) (inRepoAddons p).

Definition set_processed (v : bool) (p : t) : t :=
  mk (class p) (packageJson p) (realPath p) (isRoot p) (errors p)
     (dependenciesPackages p) (devDependenciesPackages p) (nodeModules p)
     v (valid p) (addonMainPath p) (inRepoAddons p).

Definition set_valid (v : bool) (p : t) : t :=
  mk (class p) (packageJson p) (realPath p) (isRoot p) (errors p)
     (dependenciesPackages p) (devDependenciesPackages p) (nodeModules p)
     (processed p) v (addonMainPath p) (inRepoAddons p).

Definition set_addonMainPath (v : option string) (p : t) : t :=
  mk (class p) (packageJson p) (realPath p) (isRoot p) (errors p)
     (dependenciesPackages p) (devDependenciesPackages p) (nodeModules p)
     (processed p) (valid p) v (inRepoAddons p).

Definition set_inRepoAddons (v : option (list PkgRef)) (p : t) : t :=
  mk (class p) (packageJson p) (realPath p) (isRoot p) (errors p)
     (dependenciesPackages p) (devDependenciesPackages p) (nodeModules p)
     (processed p) (valid p) (addonMainPath p) v.

(** [get name()]: [packageJson.name], kept only when it is a string. *)
Definition name (p : t) : option string :=
  match JsMap.get (packageJson p) "name" with
  | Some (JStr s) => Some s
  | _ => None
  end.

Definition addError (this : t) (errorType : string) (errorData : ErrorData) : t :=
  set_errors (ErrorList.addError (errors this) errorType errorData) this.

Definition hasErrors (this : t) : bool := ErrorList.hasErrors (errors this).

(** [addInRepoAddon], a method of the addon and app classes. *)
Definition addInRepoAddon (this : t) (inRepoAddonPkg : PkgRef) : t :=
  set_inRepoAddons
    (Some (match inRepoAddons this with
           | Some l => l ++ [inRepoAddonPkg]
           | None => [inRepoAddonPkg]
           end)) this.

Definition getValidPackages (valid_of : PkgRef -> bool) (packageList : list PkgRef) : list PkgRef :=
  filter (fun pkgInfo => valid_of pkgInfo = true) packageList.

Definition getInvalidPackages (valid_of : PkgRef -> bool) (packageList : list PkgRef) : list PkgRef :=
  filter (fun pkgInfo => valid_of pkgInfo = false) packageList.
End PackageInfo.

(* ===================================================================== *)
(** ** External collaborators *)
(* ===================================================================== *)

(** The file system as the sources see it, through [fs-extra] and
    [resolve-package-path].  A [null] result is [None].  The file system is
    not changed by the cache, so each primitive is a function. *)
Record FileSystem : Type := {
  (** [getRealDirectoryPath]: the canonical path of a directory, or [null]
      when nothing is there or it is not a directory. *)
  getRealDirectoryPath : string -> option string;
  (** [getRealFilePath]: the same for a regular file. *)
  getRealFilePath : string -> option string;
  (** [fs.readJsonSync(path, {throws: false})]: the parsed descriptor, an
      object as its TypeScript type [Record<string, unknown>] says, or
      [null]. *)
  readJsonSync : string -> option (JsMap.t Json);
  (** [fs.readdirSync] *)
  readdirSync : string -> list string;
  (** [fs.existsSync] *)
  existsSync : string -> bool
}.

(** The functions of [node:path] that the sources call. *)
Record PathModule : Type := {
  sep : string;
  normalize : string -> string;
  join : string -> string -> string;
  dirname : string -> string;
  basename : string -> string;
  extname : string -> string;
  (** [path.parse(p).root] *)
  parse_root : string -> string
}.

(** Truthiness of a [string | null] result. *)
Definition truthyPath (p : option string) : bool :=
  match p with
  | Some s => negb (String.eqb s EmptyString)
  | None => false
  end.

(* ===================================================================== *)
(** ** The cache instance and the objects it owns *)
(* ===================================================================== *)

Module PackageInfoCache.
Record t : Type := mk {
  (** the [PackageInfo] objects created so far, by reference *)
  packageInfos : list PackageInfo.t;
  (** the [NodeModulesList] objects created so far, by reference *)
  nodeModulesLists : list NodeModulesList.t;
  (** [entries: Map<string, PackageInfoCacheEntry>] *)
  entries : JsMap.t Entry;
  projectRootDir : option string;
  rootPackage : option PkgRef
}.

(** [constructor()] *)
Definition new : t := mk [] [] JsMap.empty None None.

Definition set_packageInfos (v : list PackageInfo.t) (c : t) : t :=
  mk v (nodeModulesLists c) (entries c) (projectRootDir c) (rootPackage c).

Definition set_nodeModulesLists (v : list NodeModulesList.t) (c : t) : t :=
  mk (packageInfos c) v (entries c) (projectRootDir c) (rootPackage c).

Definition set_entries (v : JsMap.t Entry) (c : t) : t :=
  mk (packageInfos c) (nodeModulesLists c) v (projectRootDir c) (rootPackage c).

Definition set_rootPackage (v : option PkgRef) (c : t) : t :=
  mk (packageInfos c) (nodeModulesLists c) (entries c) (projectRootDir c) v.

(** [getEntry(absolutePath)] *)
Definition getEntry (c : t) (absolutePath : string) : option Entry :=
  JsMap.get (entries c) absolutePath.

(** [contains(absolutePath)] *)
Definition contains (c : t) (absolutePath : string) : bool :=
  match getEntry c absolutePath with Some _ => true | None => false end.

(** [#addEntry(absolutePath, entry)] *)
Definition addEntry (absolutePath : string) (entry : Entry) (c : t) : t :=
  set_entries (JsMap.set (entries c) absolutePath entry) c.

(** [#getPackageInfos()]: the package objects among the entries, in the
    order of the table. *)
Definition getPackageInfos (c : t) : list PkgRef :=
  omap (fun e => match e with EPackage r => Some r | EList _ => None end)
       (JsMap.values (entries c)).

(** [hasErrors()] of an entry of either kind. *)
Definition entryHasErrors (c : t) (e : Entry) : bool :=
  match e with
  | EPackage r =>
      match packageInfos c !! r with
      | Some p => PackageInfo.hasErrors p
      | None => false
      end
  | EList l =>
      match NodeModulesList.deref (nodeModulesLists c) l with
      | Some nl => NodeModulesList.hasErrors nl
      | None => false
      end
  end.

(** [findErrors()] *)
Definition findErrors (c : t) : list Entry :=
  List.filter (entryHasErrors c) (JsMap.values (entries c)).

(** [hasErrors()] *)
Definition hasErrors (c : t) : bool :=
  existsb (entryHasErrors c) (JsMap.values (entries c)).
End PackageInfoCache.

(* ===================================================================== *)
(** ** Computations over the cache *)
(* ===================================================================== *)

(** The result of running a method: a value and the cache after it, a
    thrown error and the cache as the throw leaves it, or exhausted fuel. *)
Inductive Result (A : Type) : Type :=
| Ok (a : A) (c : PackageInfoCache.t)
| Throw (error : string) (c : PackageInfoCache.t)
| OutOfFuel.
Arguments Ok {A} a c.
Arguments Throw {A} error c.
Arguments OutOfFuel {A}.

Definition M (A : Type) : Type := PackageInfoCache.t -> Result A.

Definition ret {A} (a : A) : M A := fun c => Ok a c.

Definition bind {A B} (m : M A) (k : A -> M B) : M B :=
  fun c =>
    match m c with
    | Ok a c' => k a c'
    | Throw e c' => Throw e c'
    | OutOfFuel => OutOfFuel
    end.

Definition throw {A} (error : string) : M A := fun c => Throw error c.

Definition outOfFuel {A} : M A := fun _ => OutOfFuel.

Declare Scope cache_scope.
Delimit Scope cache_scope with cache.
Notation "x <- m ;; k" := (bind m (fun x => k))
  (at level 100, m at next level, right associativity) : cache_scope.
Notation "m ;;; k" := (bind m (fun _ => k))
  (at level 100, right associativity) : cache_scope.
Open Scope cache_scope.

(** A call that only reads the store. *)
Definition liftCompletion {A} (r : PackageInfoCache.t -> Completion A) : M A :=
  fun c =>
    match r c with
    | Return a => Ok a c
    | Throws e => Throw e c
    | NoFuel => OutOfFuel
    end.

(** [array.forEach(callback)] *)
Fixpoint forEach {A} (array : list A) (callback : A -> M unit) : M unit :=
  match array with
  | [] => ret tt
  | x :: rest => callback x ;;; forEach rest callback
  end.

(** [new] of a package class: the object gets a fresh reference. *)
Definition allocatePackageInfo (p : PackageInfo.t) : M PkgRef :=
  fun c =>
    Ok (length (PackageInfoCache.packageInfos c))
       (PackageInfoCache.set_packageInfos
          (PackageInfoCache.packageInfos c ++ [p]) c).

(** Reading the fields of a package object. *)
Definition readPackageInfo (r : PkgRef) : M PackageInfo.t :=
  fun c =>
    match PackageInfoCache.packageInfos c !! r with
    | Some p => Ok p c
    | None => Throw INVALID_REFERENCE c
    end.

(** Assigning to fields of a package object. *)
Definition updatePackageInfo (r : PkgRef) (f : PackageInfo.t -> PackageInfo.t) : M unit :=
  fun c =>
    match PackageInfoCache.packageInfos c !! r with
    | Some p =>
        Ok tt (PackageInfoCache.set_packageInfos
                 (<[r := f p]> (PackageInfoCache.packageInfos c)) c)
    | None => Throw INVALID_REFERENCE c
    end.

(** [new NodeModulesList(realPath, this)] *)
Definition allocateNodeModulesList (l : NodeModulesList.t) : M ListRef :=
  fun c =>
    Ok (ListAt (length (PackageInfoCache.nodeModulesLists c)))
       (PackageInfoCache.set_nodeModulesLists
          (PackageInfoCache.nodeModulesLists c ++ [l]) c).

Definition TYPE_ERROR_FROZEN :=
  "TypeError: Cannot assign to read only property of a frozen object".

(** Mutating a listing object; [nullInstance] is frozen. *)
Definition updateNodeModulesList (r : ListRef)
    (f : NodeModulesList.t -> NodeModulesList.t) : M unit :=
  fun c =>
    match r with
    | NullInstance => Throw TYPE_ERROR_FROZEN c
    | ListAt n =>
        match PackageInfoCache.nodeModulesLists c !! n with
        | Some l =>
            Ok tt (PackageInfoCache.set_nodeModulesLists
                     (<[n := f l]> (PackageInfoCache.nodeModulesLists c)) c)
        | None => Throw INVALID_REFERENCE c
        end
    end.

(** [nodeModulesList.findPackage(packageName)] on a listing of the store. *)
Definition NodeModulesList_findPackage (this : ListRef) (packageName : string)
    : M (option Entry) :=
  liftCompletion (fun c =>
    NodeModulesList.findPackage NodeModulesList.FIND_DEPTH
      (PackageInfoCache.nodeModulesLists c) this (Some packageName)).

(* ===================================================================== *)
(** ** types/*.ts: the type guards behind the factory *)
(* ===================================================================== *)

(** [Array.isArray(v) && v.includes(s)] for a string [s] *)
Definition arrayIncludes (v : JsValue) (s : string) : bool :=
  match v with
  | Some (JArr items) =>
      existsb (fun item => match item with
                           | JStr s' => String.eqb s' s
                           | _ => false
                           end) items
  | _ => false
  end.

Definition isEmberPackageJson (obj : JsValue) : bool :=
  match getObjectProperty obj "ember.edition" with
  | Some (JStr edition) =>
      String.eqb edition "classic" || String.eqb edition "octane"
  | _ => false
  end.

Definition isEmberAddonPackageJson (obj : JsValue) : bool :=
  if negb (isEmberPackageJson obj) then false
  else
    let keywords := getObjectProperty obj "keywords" in
    if negb (arrayIncludes keywords "ember-addon") then false
    else
      match getObjectProperty obj "ember-addon" with
      | None => true
      | Some JNull | Some (JObj _) | Some (JArr _) => true
      | Some _ => false
      end.

Definition isEmberEnginePackageJson (obj : JsValue) : bool :=
  if negb (isEmberAddonPackageJson obj) then false
  else
    match obj with
    | Some record => arrayIncludes (getProperty record "keywords") "ember-engine"
    | None => false
    end.

Definition isEmberAppPackageJson (obj : JsValue) : bool :=
  if negb (isEmberPackageJson obj) then false
  else
    let keywords := getObjectProperty obj "keywords" in
    if arrayIncludes keywords "ember-addon" then false
    else hasDependency obj "ember-cli" || hasDevDependency obj "ember-cli".

(** [Object.keys] of a truthy JSON value: the property names of an object,
    the indices of an array or of a string, nothing for the rest. *)
Definition indexKeys (n : nat) : list string :=
  map (fun i => DecimalString.NilEmpty.string_of_uint (Nat.to_uint i)) (seq 0 n).

Definition Object_keys (v : Json) : list string :=
  match v with
  | JObj props => JsMap.keys props
  | JArr items => indexKeys (length items)
  | JStr s => indexKeys (String.length s)
  | _ => []
  end.

Definition PACKAGE_JSON := "package.json".

Definition TYPE_ERROR_NOT_A_FUNCTION :=
  "TypeError: newPackageInfo.addInRepoAddon is not a function".

Definition TYPE_ERROR_PATH_ARGUMENT :=
  "TypeError [ERR_INVALID_ARG_TYPE]: The path argument must be of type string".

Section Cache.
Variable fs : FileSystem.
Variable path : PathModule.

(* ===================================================================== *)
(** ** objects/package-info-factory.ts and the subclass constructors *)
(* ===================================================================== *)

(** [mainFile] as computed by the constructor of [EmberAddonPackageInfo]:
    [ember-addon.main] takes precedence over [main]. *)
Definition addonMainFile (packageJson : JsMap.t Json) : string :=
  let emberAddonMain := getObjectProperty (Some (JObj packageJson)) "ember-addon.main" in
  let main :=
    match emberAddonMain with
    | Some v => if truthy v then emberAddonMain else JsMap.get packageJson "main"
    | None => JsMap.get packageJson "main"
    end in
  match main with
  | Some (JStr m) =>
      if String.eqb m EmptyString || String.eqb m "." || String.eqb m "./"
      then "index.js"
      else if String.eqb (extname path m) EmptyString then m ++ ".js"
      else m
  | _ => "index.js"
  end.

(** [new EmberAddonPackageInfo(packageJson, realPath, cache, isRoot)] for
    the class [class] (the addon class or the engine class). *)
Definition newEmberAddonPackageInfo (class : PackageClass)
    (packageJson : JsMap.t Json) (realPath : string) (isRoot : bool)
    : PackageInfo.t :=
  let mainFile := addonMainFile packageJson in
  let packageJson := JsMap.set packageJson "main" (JStr mainFile) in
  let this := PackageInfo.new class packageJson realPath isRoot in
  let mainPath := join path realPath mainFile in
  let mainRealPath := getRealFilePath fs mainPath in
  if truthyPath mainRealPath then PackageInfo.set_addonMainPath mainRealPath this
  else
    PackageInfo.set_valid false
      (PackageInfo.addError this ERRORS.ERROR_EMBER_ADDON_MAIN_MISSING
         (DataString mainPath)).

(** [PackageInfoFactory.create]: from the most specific class up. *)
Definition PackageInfoFactory_create (pkgJson : JsMap.t Json)
    (realPath : string) (isRoot : bool) : PackageInfo.t :=
  let obj := Some (JObj pkgJson) in
  if isEmberEnginePackageJson obj then
    newEmberAddonPackageInfo ClassEmberEnginePackageInfo pkgJson realPath isRoot
  else if isEmberAddonPackageJson obj then
    newEmberAddonPackageInfo ClassEmberAddonPackageInfo pkgJson realPath isRoot
  else if isEmberAppPackageJson obj then
    PackageInfo.new ClassEmberAppPackageInfo pkgJson realPath isRoot
  else if isEmberPackageJson obj then
    PackageInfo.new ClassEmberPackageInfo pkgJson realPath isRoot
  else PackageInfo.new ClassPackageInfo pkgJson realPath isRoot.

(* ===================================================================== *)
(** ** objects/package-info.ts: dependency resolution helpers *)
(* ===================================================================== *)

Section DependencyHelpers.
(** [this.cache.findPackage], the upward search of the cache. *)
Variable cache_findPackage : string -> string -> M (option Entry).

(** The lookup the callback of [doAddDependencies] makes for one name:
    the own listing first, the cache only when that finds nothing. *)
Definition lookupDependency (this : PkgRef) (dependencyName : string)
    : M (option Entry) :=
  self <- readPackageInfo this ;;
  dependencyPackage <-
    match PackageInfo.nodeModules self with
    | Some nodeModules => NodeModulesList_findPackage nodeModules dependencyName
    | None => ret None
    end ;;
  match dependencyPackage with
  | Some found => ret (Some found)
  | None =>
      cache_findPackage dependencyName (dirname path (PackageInfo.realPath self))
  end.

(** The callback of [dependencyNames.forEach], on the pair of [packages]
    and [missingDependencies]. *)
Definition addDependency (this : PkgRef)
    (acc : JsMap.t Entry * list string) (dependencyName : string)
    : M (JsMap.t Entry * list string) :=
  dependencyPackage <- lookupDependency this dependencyName ;;
  match dependencyPackage with
  | Some found => ret (JsMap.set (fst acc) dependencyName found, snd acc)
  | None => ret (fst acc, snd acc ++ [dependencyName])
  end.

Fixpoint addEachDependency (this : PkgRef) (dependencyNames : list string)
    (acc : JsMap.t Entry * list string) : M (JsMap.t Entry * list string) :=
  match dependencyNames with
  | [] => ret acc
  | dependencyName :: rest =>
      acc' <- addDependency this acc dependencyName ;;
      addEachDependency this rest acc'
  end.

Definition doAddDependencies (this : PkgRef) (dependenciesObj : JsValue)
    (errorType : string) (listName : string) : M (option (JsMap.t Entry)) :=
  match dependenciesObj with
  | None => ret None
  | Some obj =>
      if negb (truthy obj) then ret None
      else
        let dependencyNames := Object_keys obj in
        if (length dependencyNames =? 0)%nat then ret None
        else
          acc <- addEachDependency this dependencyNames (JsMap.empty, []) ;;
          let '(packages, missingDependencies) := acc in
          (if (0 <? length missingDependencies)%nat
           then updatePackageInfo this (fun p =>
                  PackageInfo.addError p errorType (DataNames missingDependencies))
           else ret tt) ;;;
          ret (Some packages)
  end.

Definition addDependencies (this : PkgRef) (dependencies : JsValue)
    : M (option (JsMap.t Entry)) :=
  doAddDependencies this dependencies ERRORS.ERROR_DEPENDENCIES_MISSING
    "dependencies".

Definition addDevDependencies (this : PkgRef) (dependencies : JsValue)
    : M (option (JsMap.t Entry)) :=
  doAddDependencies this dependencies ERRORS.ERROR_DEVDEPENDENCIES_MISSING
    "devDependencies".

(** The callback of [packageInfos.forEach] in [#resolveDependencies]. *)
Definition resolvePackageDependencies (packageInfo : PkgRef) : M unit :=
  p <- readPackageInfo packageInfo ;;
  if negb (PackageInfo.processed p) then
    pkgs <- addDependencies packageInfo
              (JsMap.get (PackageInfo.packageJson p) "dependencies") ;;
    updatePackageInfo packageInfo (PackageInfo.set_dependenciesPackages pkgs) ;;;
    p <- readPackageInfo packageInfo ;;
    (if PackageInfo.isRoot p then
       pkgs <- addDevDependencies packageInfo
                 (JsMap.get (PackageInfo.packageJson p) "devDependencies") ;;
       updatePackageInfo packageInfo (PackageInfo.set_devDependenciesPackages pkgs)
     else ret tt) ;;;
    updatePackageInfo packageInfo (PackageInfo.set_processed true)
  else ret tt.
End DependencyHelpers.

(** [addPackages(packageList, packageInfos, excludeFn)]: the objects are
    compared by reference; their names are read from the store.  The
    method mutates [packageList] and returns [result]; the model returns
    both, the list first. *)
Section AddPackages.
Variable localeCompare : string -> string -> Z.
Variable c : PackageInfoCache.t.

Definition namedObj (r : PkgRef) : NamedObj :=
  {| name := match PackageInfoCache.packageInfos c !! r with
             | Some p => PackageInfo.name p
             | None => None
             end |}.

Definition addPackages (packageList : list PkgRef)
    (packageInfos : list PkgRef + JsMap.t PkgRef)
    (excludeFn : option (PkgRef -> bool)) : list PkgRef * list PkgRef :=
  let candidates :=
    match packageInfos with
    | inl array => array
    | inr map => JsMap.values map
    end in
  let result :=
    List.filter (fun value => match excludeFn with
                              | None => true
                              | Some excluded => negb (excluded value)
                              end) candidates in
  let result :=
    array_sort (fun a b => lexicographically localeCompare (namedObj a) (namedObj b))
               result in
  (fold_left pushUnique result packageList, result).
End AddPackages.

(* ===================================================================== *)
(** ** objects/package-info-cache.ts *)
(* ===================================================================== *)

Definition ERROR_PACKAGE_AT_LIST_PATH :=
  "Attempted to read a PackageInfo from path, but the path points to a directory".

Definition ERROR_PACKAGE_AT_LIST_REAL_PATH :=
  "Attempted to read a PackageInfo from real path, but the path points to a directory".

Definition ERROR_LIST_AT_OTHER_PATH :=
  "Attempted to read a NodeModulesList from path, but there is already another object there".

Definition ERROR_LIST_AT_PACKAGE_PATH :=
  "Attempted to read a NodeModulesList from path, but there is already a PackageInfo there".

Section ReadBodies.
(** The two readers call each other; their bodies take the callees as
    arguments, and the knot is tied on fuel below. *)
Variable readPackage : string -> bool -> M PkgRef.
Variable readNodeModulesList : string -> M (option ListRef).

(** The descriptor of [#readPackage] and the setup errors collected while
    reading it. *)
Definition readPackageJson (realPath : string) (pathFailed : bool)
    (setupErrors : ErrorList.t) : option (JsMap.t Json) * ErrorList.t :=
  if negb pathFailed then
    let packageJsonPath := join path realPath PACKAGE_JSON in
    let packageDataPath := getRealFilePath fs packageJsonPath in
    if truthyPath packageDataPath then
      match readJsonSync fs (default EmptyString packageDataPath) with
      | None =>
          (None, ErrorList.addError setupErrors ERRORS.ERROR_PACKAGE_JSON_PARSE
                   (DataString (default EmptyString packageDataPath)))
      | Some pkgObj => (Some pkgObj, setupErrors)
      end
    else
      (None, ErrorList.addError setupErrors ERRORS.ERROR_PACKAGE_JSON_MISSING
               (DataString packageJsonPath))
  else (None, setupErrors).

(** The callback of [paths.forEach]: one in-repo addon path. *)
Definition addInRepoAddonPath (newPackageInfo : PkgRef) (realPathStr : string)
    (p : Json) : M unit :=
  match p with
  | JStr p =>
      let addonPath := join path realPathStr p in
      addonPkgInfo <- readPackage addonPath false ;;
      addon <- readPackageInfo addonPkgInfo ;;
      if instanceofEmberAddonPackageInfo (PackageInfo.class addon) then
        self <- readPackageInfo newPackageInfo ;;
        if instanceofEmberAddonPackageInfo (PackageInfo.class self)
           || instanceofEmberAppPackageInfo (PackageInfo.class self)
        then updatePackageInfo newPackageInfo
               (fun self => PackageInfo.addInRepoAddon self addonPkgInfo)
        else throw TYPE_ERROR_NOT_A_FUNCTION
      else
        updatePackageInfo newPackageInfo (fun self =>
          PackageInfo.set_valid false
            (PackageInfo.addError self
               ("The addon's 'paths' entry '" ++ p ++ "' is not an addon!")
               DataUndefined))
  | _ => throw TYPE_ERROR_PATH_ARGUMENT
  end.

(** [#readPackage] from the point where no entry was found for the path:
    read the descriptor, create the object, register it, then read its
    in-repo addons and its [node_modules]. *)
Definition createPackage (realPath : string) (pathFailed : bool)
    (setupErrors : ErrorList.t) (isRoot : bool) : M PkgRef :=
  let '(packageJson, setupErrors) := readPackageJson realPath pathFailed setupErrors in
  let packageJson :=
    match packageJson with
    | Some pkgObj => pkgObj
    | None => [("name", JStr "invalid package.json")]
    end in
  let packageJson := JsMap.set packageJson "root" (JStr realPath) in
  newPackageInfo <- allocatePackageInfo (PackageInfoFactory_create packageJson realPath isRoot) ;;
  (if ErrorList.hasErrors setupErrors then
     updatePackageInfo newPackageInfo (fun self =>
       PackageInfo.set_valid false (PackageInfo.set_errors setupErrors self))
   else ret tt) ;;;
  (fun c => Ok tt (PackageInfoCache.addEntry realPath (EPackage newPackageInfo) c)) ;;;
  self <- readPackageInfo newPackageInfo ;;
  let paths :=
    getObjectProperty
      (Some (JObj [("packageJson", JObj (PackageInfo.packageJson self))]))
      "packageJson.ember-addon.paths" in
  (match isStringArray paths with
   | Some paths => forEach paths (addInRepoAddonPath newPackageInfo realPath)
   | None => ret tt
   end) ;;;
  self <- readPackageInfo newPackageInfo ;;
  (if instanceofEmberAddonPackageInfo (PackageInfo.class self)
      || instanceofEmberAppPackageInfo (PackageInfo.class self)
   then
     nodeModules <- readNodeModulesList (join path realPath "node_modules") ;;
     match nodeModules with
     | Some l => updatePackageInfo newPackageInfo (PackageInfo.set_nodeModules (Some l))
     | None => ret tt
     end
   else
     updatePackageInfo newPackageInfo (PackageInfo.set_nodeModules (Some NullInstance))) ;;;
  ret newPackageInfo.

Definition readPackage_body (packageDir : string) (isRoot : bool) : M PkgRef :=
  fun c =>
    let normalizedPackageDir := normalize path packageDir in
    match PackageInfoCache.getEntry c normalizedPackageDir with
    | Some (EPackage packageInfo) => Ok packageInfo c
    | Some (EList _) => Throw ERROR_PACKAGE_AT_LIST_PATH c
    | None =>
        let setupErrors := ErrorList.new in
        match getRealDirectoryPath fs normalizedPackageDir with
        | None =>
            createPackage normalizedPackageDir true
              (ErrorList.addError setupErrors ERRORS.ERROR_PACKAGE_DIR_MISSING
                 (DataString normalizedPackageDir))
              isRoot c
        | Some realPath =>
            if negb (String.eqb realPath normalizedPackageDir) then
              match PackageInfoCache.getEntry c realPath with
              | Some (EPackage packageInfo) => Ok packageInfo c
              | Some (EList _) => Throw ERROR_PACKAGE_AT_LIST_REAL_PATH c
              | None => createPackage realPath false setupErrors isRoot c
              end
            else createPackage realPath false setupErrors isRoot c
        end
    end.

(** The filter applied to [fs.readdirSync(realPath)]. *)
Definition isNodeModulesEntry (realPath : string) (fileName : string) : bool :=
  if startsWith fileName "." || startsWith fileName "_" then false
  else if startsWith fileName "@" then true
  else if negb (existsSync fs (realPath ++ "/" ++ fileName ++ "/package.json"))
  then false
  else true.

(** The callback of [entries.forEach]: one entry of a [node_modules]
    directory. *)
Definition readNodeModulesEntry (newNodeModulesList : ListRef)
    (realPath : string) (entryName : string) : M unit :=
  let entryPath := join path realPath entryName in
  if truthyPath (getRealFilePath fs entryPath) then ret tt
  else if startsWith entryName "@" then
    entryVal <- readNodeModulesList entryPath ;;
    match entryVal with
    | Some l =>
        updateNodeModulesList newNodeModulesList (fun self =>
          NodeModulesList.addEntry self entryName (EList l))
    | None =>
        updateNodeModulesList newNodeModulesList (fun self =>
          NodeModulesList.addError self ERRORS.ERROR_NODEMODULES_ENTRY_MISSING
            (DataString entryName))
    end
  else
    entryVal <- readPackage entryPath false ;;
    updateNodeModulesList newNodeModulesList (fun self =>
      NodeModulesList.addEntry self entryName (EPackage entryVal)).

(** [#readNodeModulesList] from the point where the directory is known to
    exist and has no entry: build the listing, then register it. *)
Definition createNodeModulesList (realPath : string) : M (option ListRef) :=
  newNodeModulesList <- allocateNodeModulesList (NodeModulesList.new realPath) ;;
  let entries := List.filter (isNodeModulesEntry realPath) (readdirSync fs realPath) in
  forEach entries (readNodeModulesEntry newNodeModulesList realPath) ;;;
  (fun c => Ok tt (PackageInfoCache.addEntry realPath (EList newNodeModulesList) c)) ;;;
  ret (Some newNodeModulesList).

Definition readNodeModulesList_body (nodeModulesDir : string) : M (option ListRef) :=
  fun c =>
    let normalizedNodeModulesDir := normalize path nodeModulesDir in
    match PackageInfoCache.getEntry c normalizedNodeModulesDir with
    | Some (EList nodeModulesEntry) => Ok (Some nodeModulesEntry) c
    | Some (EPackage _) => Throw ERROR_LIST_AT_OTHER_PATH c
    | None =>
        match getRealDirectoryPath fs normalizedNodeModulesDir with
        | None => Ok None c
        | Some realPath =>
            if negb (String.eqb realPath normalizedNodeModulesDir) then
              match PackageInfoCache.getEntry c realPath with
              | Some (EList nodeModulesEntry) => Ok (Some nodeModulesEntry) c
              | Some (EPackage _) => Throw ERROR_LIST_AT_PACKAGE_PATH c
              | None => createNodeModulesList realPath c
              end
            else createNodeModulesList realPath c
        end
    end.
End ReadBodies.

(** [#readPackage] and [#readNodeModulesList].  The recursion follows the
    directory structure, which the file system need not bound; [fuel]
    bounds the depth of the calls. *)
Fixpoint readPackage (fuel : nat) (packageDir : string) (isRoot : bool)
    {struct fuel} : M PkgRef :=
  match fuel with
  | O => outOfFuel
  | S fuel =>
      readPackage_body (readPackage fuel) (readNodeModulesList fuel)
        packageDir isRoot
  end
with readNodeModulesList (fuel : nat) (nodeModulesDir : string)
    {struct fuel} : M (option ListRef) :=
  match fuel with
  | O => outOfFuel
  | S fuel =>
      readNodeModulesList_body (readPackage fuel) (readNodeModulesList fuel)
        nodeModulesDir
  end.

(** The [while (currPath !== root)] loop of [findPackage]; [steps] bounds
    the number of iterations and [fuel] is passed to the reader. *)
Fixpoint findPackage_loop (steps fuel : nat) (packageName : string)
    (root : string) (currPath : string) : M (option Entry) :=
  match steps with
  | O => outOfFuel
  | S steps =>
      if String.eqb currPath root then ret None
      else
        let endsWithNodeModules := String.eqb (basename path currPath) "node_modules" in
        let nodeModulesPath :=
          if endsWithNodeModules then currPath
          else (currPath ++ sep path ++ "node_modules")%string in
        nodeModulesList <- readNodeModulesList fuel nodeModulesPath ;;
        match nodeModulesList with
        | Some l =>
            pkg <- NodeModulesList_findPackage l packageName ;;
            match pkg with
            | Some found => ret (Some found)
            | None =>
                findPackage_loop steps fuel packageName root (dirname path currPath)
            end
        | None =>
            findPackage_loop steps fuel packageName root (dirname path currPath)
        end
  end.

(** [findPackage(packageName, startPath)] *)
Definition findPackage (steps fuel : nat) (packageName startPath : string)
    : M (option Entry) :=
  let root := parse_root path startPath in
  findPackage_loop steps fuel packageName root startPath.

(** [#resolveDependencies()]: the array of package objects is taken once,
    before the loop. *)
Definition resolveDependencies (steps fuel : nat) : M unit :=
  fun c =>
    let packageInfos := PackageInfoCache.getPackageInfos c in
    forEach packageInfos (resolvePackageDependencies (findPackage steps fuel)) c.

(** [loadApp(appRootDir, isRoot)] *)
Definition loadApp (steps fuel : nat) (appRootDir : string) (isRoot : bool)
    : M PkgRef :=
  pkgInfo <- readPackage fuel appRootDir isRoot ;;
  p <- readPackageInfo pkgInfo ;;
  if PackageInfo.processed p then ret pkgInfo
  else if isRoot then
    (fun c => Ok tt (PackageInfoCache.set_rootPackage (Some pkgInfo) c)) ;;;
    resolveDependencies steps fuel ;;;
    ret pkgInfo
  else ret pkgInfo.

End Cache.

(* ===================================================================== *)
(** ** A path module and file systems to run the cache on *)
(* ===================================================================== *)

(** [path.posix], after the implementation in Node's [lib/path.js]. *)
Module Posix.
Definition slash : ascii := "/"%char.
Definition dot : ascii := "."%char.

Definition isSlash (c : ascii) : bool := Ascii.eqb c slash.
Definition notSlash (c : ascii) : bool := negb (isSlash c).

Fixpoint dropWhile {A} (f : A -> bool) (l : list A) : list A :=
  match l with
  | [] => []
  | x :: rest => if f x then dropWhile f rest else l
  end.

Fixpoint takeWhile {A} (f : A -> bool) (l : list A) : list A :=
  match l with
  | [] => []
  | x :: rest => if f x then x :: takeWhile f rest else []
  end.

(** [dirname]: scanning from the end (never looking at the first
    character), skip the trailing slashes, skip the last segment, and cut at
    the slash found there. *)
Definition dirname (p : string) : string :=
  match list_ascii_of_string p with
  | [] => "."
  | first :: rest =>
      let hasRoot := isSlash first in
      let upToSegment := dropWhile isSlash (rev rest) in
      let upToSlash := dropWhile notSlash upToSegment in
      match upToSlash with
      | [] => if hasRoot then "/" else "."
      | _ :: before =>
          if hasRoot && (length upToSlash =? 1)%nat then "//"
          else string_of_list_ascii (first :: rev before)
      end
  end.

Definition basename (p : string) : string :=
  let upToSegment := dropWhile isSlash (rev (list_ascii_of_string p)) in
  string_of_list_ascii (rev (takeWhile notSlash upToSegment)).

Definition parse_root (p : string) : string :=
  if startsWith p "/" then "/" else EmptyString.

(** [normalizeString]: the stack of segments kept so far, last first. *)
Definition normalizeSegment (allowAboveRoot : bool) (stack : list string)
    (segment : string) : list string :=
  if String.eqb segment EmptyString || String.eqb segment "." then stack
  else if String.eqb segment ".." then
    match stack with
    | top :: below =>
        if String.eqb top ".." then
          (if allowAboveRoot then ".." :: stack else stack)
        else below
    | [] => if allowAboveRoot then [".."] else []
    end
  else segment :: stack.

Definition joinSegments (segments : list string) : string :=
  match segments with
  | [] => EmptyString
  | first :: rest =>
      fold_left (fun acc s => (acc ++ "/" ++ s)%string) rest first
  end.

Definition endsWithSlash (p : string) : bool :=
  match rev (list_ascii_of_string p) with
  | c :: _ => isSlash c
  | [] => false
  end.

Definition normalize (p : string) : string :=
  if String.eqb p EmptyString then "."
  else
    let isAbsolute := startsWith p "/" in
    let trailingSeparator := endsWithSlash p in
    let segments :=
      rev (fold_left (normalizeSegment (negb isAbsolute)) (split slash p) []) in
    let normalized := joinSegments segments in
    if String.eqb normalized EmptyString then
      (if isAbsolute then "/" else if trailingSeparator then "./" else ".")
    else
      let normalized :=
        if trailingSeparator then (normalized ++ "/")%string else normalized in
      if isAbsolute then ("/" ++ normalized)%string else normalized.

Definition join (a b : string) : string :=
  if String.eqb a EmptyString then
    (if String.eqb b EmptyString then "." else normalize b)
  else if String.eqb b EmptyString then normalize a
  else normalize (a ++ "/" ++ b)%string.

(** [extname]: from the last dot of the last segment, unless that dot
    starts the segment. *)
Definition extname (p : string) : string :=
  let segment := list_ascii_of_string (basename p) in
  let afterDot := takeWhile (fun c => negb (Ascii.eqb c dot)) (rev segment) in
  if (length afterDot =? length segment)%nat then EmptyString
  else if (S (length afterDot) =? length segment)%nat then EmptyString
  else if String.eqb (basename p) ".." then EmptyString
  else string_of_list_ascii (dot :: rev afterDot).

End Posix.

Definition posix : PathModule :=
  {| sep := "/";
     normalize := Posix.normalize;
     join := Posix.join;
     dirname := Posix.dirname;
     basename := Posix.basename;
     extname := Posix.extname;
     parse_root := Posix.parse_root |}.

(** A file system given by finite tables: the directories and the files
    with their canonical paths, the parsed descriptors, and the children of
    each directory. *)
Definition tableFileSystem (directories files : JsMap.t string)
    (descriptors : JsMap.t (JsMap.t Json)) (children : JsMap.t (list string))
    : FileSystem :=
  {| getRealDirectoryPath p := JsMap.get directories p;
     getRealFilePath p := JsMap.get files p;
     readJsonSync p := JsMap.get descriptors p;
     readdirSync p := default [] (JsMap.get children p);
     existsSync p :=
       match JsMap.get files p, JsMap.get directories p with
       | None, None => false
       | _, _ => true
       end |}.

(** [String.prototype.localeCompare] on ASCII names in one letter case:
    the order of the code points. *)
Definition asciiCompare (a b : string) : Z :=
  match OrdersEx.String_as_OT.compare a b with
  | Lt => (-1)%Z
  | Eq => 0%Z
  | Gt => 1%Z
  end.

(* ===================================================================== *)
(** ** Notions used in the statements *)
(* ===================================================================== *)

(** [s.includes(sep)] for a character *)
Fixpoint containsChar (sep : ascii) (s : string) : bool :=
  match s with
  | EmptyString => false
  | String c rest => Ascii.eqb c sep || containsChar sep rest
  end.

(** The order [addPackages] sorts by, on the names of two objects: names
    are compared by [localeCompare], and a named object comes before a
    nameless one. *)
Definition nameOrder (localeCompare : string -> string -> Z) (a b : NamedObj) : Prop :=
  match name a, name b with
  | Some an, Some bn => (localeCompare an bn <= 0)%Z
  | Some _, None => True
  | None, Some _ => False
  | None, None => True
  end.

(** The order as the specification words it: a nameless object comes
    before a named one. *)
Definition namelessFirst (a b : NamedObj) : Prop :=
  match name a, name b with
  | Some _, None => False
  | _, _ => True
  end.

(** [localeCompare] is a consistent comparison: a total preorder. *)
Definition consistentCompare (localeCompare : string -> string -> Z) : Prop :=
  (forall a b, (localeCompare a b > 0)%Z -> (localeCompare b a <= 0)%Z)
  /\ (forall a b c, (localeCompare a b <= 0)%Z -> (localeCompare b c <= 0)%Z ->
                    (localeCompare a c <= 0)%Z).

(** A cache owning a package named ["a"] and a package without a name. *)
Definition namedAndNameless : PackageInfoCache.t :=
  PackageInfoCache.set_packageInfos
    [ PackageInfo.new ClassPackageInfo [("name", JStr "a")] "/app/a" false;
      PackageInfo.new ClassPackageInfo [("version", JStr "1.0.0")] "/app/b" false ]
    PackageInfoCache.new.

(** Two listings: a [node_modules] whose entry ["@scope"] is the nested
    listing at index 1, which holds the package ["pkg"]. *)
Definition scopedListings : list NodeModulesList.t :=
  [ NodeModulesList.addEntry (NodeModulesList.new "/app/node_modules")
      "@scope" (EList (ListAt 1));
    NodeModulesList.addEntry (NodeModulesList.new "/app/node_modules/@scope")
      "pkg" (EPackage 0) ].

(** A package object whose name, if it has one, is not the empty string. *)
Definition properlyNamed (c : PackageInfoCache.t) (r : PkgRef) : Prop :=
  name (namedObj c r) <> Some EmptyString.

(** A path that the resolver of real paths leaves alone: nothing is there,
    or it is its own canonical path.  These are the keys of the table. *)
Definition canonicalKey (fs : FileSystem) (k : string) : Prop :=
  getRealDirectoryPath fs k = None \/ getRealDirectoryPath fs k = Some k.

(** The canonical path of a directory resolves to itself. *)
Definition realPathsAreCanonical (fs : FileSystem) : Prop :=
  forall p q, getRealDirectoryPath fs p = Some q ->
              getRealDirectoryPath fs q = Some q.

(** [c'] extends [c]: the objects of [c] are there unchanged, followed by
    new ones; the entries of [c] are there unchanged; a key that is new is
    canonical, on a file system whose canonical paths resolve to
    themselves; and the table keeps one entry per key.  This is what
    reading packages and listings does to the cache. *)
Record extends (fs : FileSystem) (c c' : PackageInfoCache.t) : Prop := {
  extends_packageInfos :
    PackageInfoCache.packageInfos c `prefix_of` PackageInfoCache.packageInfos c';
  extends_nodeModulesLists :
    PackageInfoCache.nodeModulesLists c `prefix_of` PackageInfoCache.nodeModulesLists c';
  extends_entries :
    forall k e, PackageInfoCache.getEntry c k = Some e ->
                PackageInfoCache.getEntry c' k = Some e;
  extends_keys :
    realPathsAreCanonical fs ->
    forall k, PackageInfoCache.getEntry c k = None ->
              PackageInfoCache.getEntry c' k <> None -> canonicalKey fs k;
  extends_unique :
    List.NoDup (JsMap.keys (PackageInfoCache.entries c)) ->
    List.NoDup (JsMap.keys (PackageInfoCache.entries c'))
}.

(** [c'] evolves from [c]: the entries of [c] are there unchanged, a key
    that is new is canonical, the table keeps one entry per key, and every
    package object of [c] is still there, processed if it was.  This is
    what the resolution pass does. *)
Record evolves (fs : FileSystem) (c c' : PackageInfoCache.t) : Prop := {
  evolves_entries :
    forall k e, PackageInfoCache.getEntry c k = Some e ->
                PackageInfoCache.getEntry c' k = Some e;
  evolves_keys :
    realPathsAreCanonical fs ->
    forall k, PackageInfoCache.getEntry c k = None ->
              PackageInfoCache.getEntry c' k <> None -> canonicalKey fs k;
  evolves_unique :
    List.NoDup (JsMap.keys (PackageInfoCache.entries c)) ->
    List.NoDup (JsMap.keys (PackageInfoCache.entries c'));
  evolves_packageInfos :
    forall r p, PackageInfoCache.packageInfos c !! r = Some p ->
      exists p', PackageInfoCache.packageInfos c' !! r = Some p'
                 /\ (PackageInfo.processed p = true -> PackageInfo.processed p' = true)
}.

(** The package object [r] is the one the table holds for the directory
    [dir]: under the normalized path, or else under its canonical path. *)
Definition registered (fs : FileSystem) (path : PathModule) (dir : string)
    (r : PkgRef) (c : PackageInfoCache.t) : Prop :=
  let normalized := normalize path dir in
  PackageInfoCache.getEntry c normalized = Some (EPackage r)
  \/ (PackageInfoCache.getEntry c normalized = None
      /\ exists realPath,
           getRealDirectoryPath fs normalized = Some realPath
           /\ realPath <> normalized
           /\ PackageInfoCache.getEntry c realPath = Some (EPackage r)).

(** What holds of the cache [c1] while the package object [r], created
    after [c] and registered under [realPath], is being filled in. *)
Definition filling (fs : FileSystem) (c : PackageInfoCache.t)
    (realPath : string) (r : PkgRef) (c1 : PackageInfoCache.t) : Prop :=
  extends fs c c1
  /\ length (PackageInfoCache.packageInfos c) <= r
  /\ PackageInfoCache.getEntry c1 realPath = Some (EPackage r).

(** The path of the [node_modules] directory that [findPackage] reads for
    a directory of the chain: the directory itself when it is named
    [node_modules]. *)
Definition nodeModulesPathOf (path : PathModule) (currPath : string) : string :=
  if String.eqb (basename path currPath) "node_modules" then currPath
  else (currPath ++ sep path ++ "node_modules")%string.

(** The directories from [currPath] up to, and without, the root. *)
Fixpoint ancestors (path : PathModule) (steps : nat) (root currPath : string)
    : list string :=
  match steps with
  | O => []
  | S steps =>
      if String.eqb currPath root then []
      else currPath :: ancestors path steps root (dirname path currPath)
  end.

Definition directoryChain (path : PathModule) (startPath : string) : list string :=
  ancestors path (S (String.length startPath)) (parse_root path startPath) startPath.

(** The node-resolution search in the spec's words: for each directory of
    the chain in turn, read (or build) its [node_modules] listing and look
    the name up in it; return the first entry found, or absent after the
    last directory. *)
Fixpoint searchListings (fs : FileSystem) (path : PathModule) (fuel : nat)
    (packageName : string) (directories : list string) : M (option Entry) :=
  match directories with
  | [] => ret None
  | directory :: above =>
      nodeModulesList <-
        readNodeModulesList fs path fuel (nodeModulesPathOf path directory) ;;
      match nodeModulesList with
      | Some l =>
          pkg <- NodeModulesList_findPackage l packageName ;;
          match pkg with
          | Some found => ret (Some found)
          | None => searchListings fs path fuel packageName above
          end
      | None => searchListings fs path fuel packageName above
      end
  end.

(** The name is found in none of the listings of the directories: each
    read returns, with no listing or with a listing that does not have the
    name. *)
Inductive foundInNone (fs : FileSystem) (path : PathModule) (fuel : nat)
    (packageName : string)
    : list string -> PackageInfoCache.t -> PackageInfoCache.t -> Prop :=
| foundInNone_nil c : foundInNone fs path fuel packageName [] c c
| foundInNone_no_listing directory above c c1 c2 :
    readNodeModulesList fs path fuel (nodeModulesPathOf path directory) c = Ok None c1 ->
    foundInNone fs path fuel packageName above c1 c2 ->
    foundInNone fs path fuel packageName (directory :: above) c c2
| foundInNone_not_listed directory above l c c1 c2 :
    readNodeModulesList fs path fuel (nodeModulesPathOf path directory) c = Ok (Some l) c1 ->
    NodeModulesList.findPackage NodeModulesList.FIND_DEPTH
      (PackageInfoCache.nodeModulesLists c1) l (Some packageName) = Return None ->
    foundInNone fs path fuel packageName above c1 c2 ->
    foundInNone fs path fuel packageName (directory :: above) c c2.

(** [dirname] leads from an absolute path towards its root: it shortens
    every absolute path other than the root and keeps the root. *)
Definition ascends (path : PathModule) : Prop :=
  forall p, parse_root path p <> EmptyString -> p <> parse_root path p ->
    String.length (dirname path p) < String.length p
    /\ parse_root path (dirname path p) = parse_root path p.

(** A file system with nothing in it. *)
Definition emptyFileSystem : FileSystem := tableFileSystem [] [] [] [].

(** An Ember application with a dependency [a] installed in its own
    [node_modules], a dependency [b] that is not installed, and a
    development dependency that is not installed; [/link] is a symbolic
    link to the project directory. *)
Definition projectFileSystem : FileSystem :=
  tableFileSystem
    [ ("/proj", "/proj");
      ("/link", "/proj");
      ("/proj/node_modules", "/proj/node_modules");
      ("/proj/node_modules/a", "/proj/node_modules/a") ]
    [ ("/proj/package.json", "/proj/package.json");
      ("/proj/node_modules/a/package.json", "/proj/node_modules/a/package.json") ]
    [ ("/proj/package.json",
       [ ("name", JStr "app");
         ("ember", JObj [("edition", JStr "octane")]);
         ("dependencies", JObj [("a", JStr "^1.0.0"); ("b", JStr "^2.0.0")]);
         ("devDependencies", JObj [("ember-cli", JStr "^4.0.0")]) ]);
      ("/proj/node_modules/a/package.json",
       [ ("name", JStr "a"); ("devDependencies", JObj [("c", JStr "^3.0.0")]) ]) ]
    [ ("/proj/node_modules", ["a"]) ].

(** The cache a result leaves, or a new cache when there is none. *)
Definition cacheOf {A} (r : Result A) : PackageInfoCache.t :=
  match r with
  | Ok _ c => c
  | Throw _ c => c
  | OutOfFuel => PackageInfoCache.new
  end.

(** The cache after [#readPackage] has read the project, before the
    resolution pass. *)
Definition projectRead : PackageInfoCache.t :=
  Eval vm_compute in
    cacheOf (readPackage projectFileSystem posix 4 "/proj" true PackageInfoCache.new).

(** The cache after [loadApp] has loaded the project as the root. *)
Definition projectLoaded : PackageInfoCache.t :=
  Eval vm_compute in
    cacheOf (loadApp projectFileSystem posix 10 4 "/proj" true PackageInfoCache.new).

(** The cache after [loadApp] was asked, on the empty file system, for a
    directory named [node_modules]. *)
Definition missingNodeModulesLoaded : PackageInfoCache.t :=
  Eval vm_compute in
    cacheOf (loadApp emptyFileSystem posix 10 4 "/p/node_modules" false
               PackageInfoCache.new).

(** The package object [#readPackage] creates for a directory that exists
    at [realPath] and has no descriptor file: a plain package with the
    placeholder descriptor, not valid, with one error entry. *)
Definition packageWithoutDescriptor (path : PathModule) (realPath : string)
    (isRoot : bool) : PackageInfo.t :=
  PackageInfo.mk ClassPackageInfo
    [("name", JStr "invalid package.json"); ("root", JStr realPath)]
    realPath isRoot
    (ErrorList.mk [ErrorEntry.mk ERRORS.ERROR_PACKAGE_JSON_MISSING
                     (DataString (join path realPath PACKAGE_JSON))])
    None None (Some NullInstance) false false None None.

(* ===================================================================== *)
(** ** The class tests of the remaining classes *)
(* ===================================================================== *)

(** [x instanceof EmberPackageInfo] *)
Definition instanceofEmberPackageInfo (k : PackageClass) : bool :=
  match k with
  | ClassPackageInfo => false
  | _ => true
  end.

(** [x instanceof EmberEnginePackageInfo] *)
Definition instanceofEmberEnginePackageInfo (k : PackageClass) : bool :=
  match k with
  | ClassEmberEnginePackageInfo => true
  | _ => false
  end.

(** The property names every object inherits from [Object.prototype]:
    [record[name]] is defined for them whatever the own properties of
    [record] are, so a statement about own properties leaves them out. *)
Definition objectPrototypeNames : list string :=
  [ "constructor"; "hasOwnProperty"; "isPrototypeOf"; "propertyIsEnumerable";
    "toLocaleString"; "toString"; "valueOf"; "__proto__";
    "__defineGetter__"; "__defineSetter__"; "__lookupGetter__";
    "__lookupSetter__" ].

(** A descriptor that declares the dependencies [a] and [lodash.get]. *)
Definition dottedDependencies : JsMap.t Json :=
  [ ("name", JStr "app");
    ("dependencies", JObj [("a", JStr "^1.0.0"); ("lodash.get", JStr "^4.4.2")]) ].

(* ===================================================================== *)
(** ** objects/package-info-cache.ts: loadProject and loadAddon *)
(* ===================================================================== *)

Definition set_projectRootDir (v : option string) (c : PackageInfoCache.t)
    : PackageInfoCache.t :=
  PackageInfoCache.mk (PackageInfoCache.packageInfos c)
    (PackageInfoCache.nodeModulesLists c) (PackageInfoCache.entries c) v
    (PackageInfoCache.rootPackage c).

Definition ERROR_PROJECT_ROOT_AND_BUILD_FILE :=
  "Both 'ember-addon.projectRoot' and 'ember-cli-build.js' exist in the project directory".

(** [#findEmberProjectRoot(packageJson)] *)
Definition findEmberProjectRoot (packageJson : JsValue) : option string :=
  if negb (isEmberPackageJson packageJson) then None
  else
    let projectRoot := getObjectProperty packageJson "ember-addon.projectRoot" in
    match projectRoot with
    | Some (JStr s) => Some s
    | _ => None
    end.

Section Loading.
Variable fs : FileSystem.
Variable path : PathModule.
(** [path.resolve(from, to)], a function of [node:path]; for a relative
    [from] it reads the working directory of the process. *)
Variable resolve : string -> string -> string.

(** [loadProject(projectRootDir, isRoot)].  The descriptor is what
    [fs.readJsonSync] returns; a document that is not an object has no
    [ember.edition], so it takes the same way as [null]. *)
Definition loadProject (steps fuel : nat) (projectRootDir : string)
    (isRoot : bool) : M PkgRef :=
  (fun c => Ok tt (set_projectRootDir (Some projectRootDir) c)) ;;;
  match readJsonSync fs (join path projectRootDir "package.json") with
  | None => loadApp fs path steps fuel projectRootDir isRoot
  | Some projectPkgJson =>
      let projectRoot := findEmberProjectRoot (Some (JObj projectPkgJson)) in
      if truthyPath projectRoot then
        if existsSync fs (join path projectRootDir "ember-cli-build.js")
        then throw ERROR_PROJECT_ROOT_AND_BUILD_FILE
        else
          loadApp fs path steps fuel
            (resolve projectRootDir (default EmptyString projectRoot)) isRoot
      else loadApp fs path steps fuel projectRootDir isRoot
  end.

(** [loadAddon(addonRootDir, projectRelativePath)] *)
Definition loadAddon (steps fuel : nat) (addonRootDir projectRelativePath : string)
    : M PkgRef :=
  pkgInfo <- readPackage fs path fuel addonRootDir true ;;
  p <- readPackageInfo pkgInfo ;;
  if PackageInfo.processed p then ret pkgInfo
  else
    (fun c => Ok tt (PackageInfoCache.set_rootPackage (Some pkgInfo) c)) ;;;
    loadProject steps fuel (resolve addonRootDir projectRelativePath) false ;;;
    resolveDependencies fs path steps fuel ;;;
    ret pkgInfo.
End Loading.

(** [path.posix.resolve(from, to)] in a process whose working directory is
    [cwd], after the implementation in Node's [lib/path.js]: the arguments
    are taken from the last one back, down to the first absolute one. *)
Fixpoint posixResolve_loop (args : list string) (resolvedPath : string)
    : string * bool :=
  match args with
  | [] => (resolvedPath, false)
  | p :: before =>
      if String.eqb p EmptyString then posixResolve_loop before resolvedPath
      else
        let resolvedPath := (p ++ "/" ++ resolvedPath)%string in
        if startsWith p "/" then (resolvedPath, true)
        else posixResolve_loop before resolvedPath
  end.

Definition posixResolve (cwd from to : string) : string :=
  let '(resolvedPath, resolvedAbsolute) :=
    posixResolve_loop [to; from; cwd] EmptyString in
  let segments :=
    rev (fold_left (Posix.normalizeSegment (negb resolvedAbsolute))
           (split Posix.slash resolvedPath) []) in
  let resolvedPath := Posix.joinSegments segments in
  if resolvedAbsolute then ("/" ++ resolvedPath)%string
  else if String.eqb resolvedPath EmptyString then "."
  else resolvedPath.

(* ===================================================================== *)
(** ** The states of the cache *)
(* ===================================================================== *)

(** The cache a call leaves behind, whether it returns or throws. *)
Definition leaves {A} (r : Result A) (c' : PackageInfoCache.t) : Prop :=
  match r with
  | Ok _ c1 => c1 = c'
  | Throw _ c1 => c1 = c'
  | OutOfFuel => False
  end.

(** One call of a public method of the cache that changes it:
    [loadProject], [loadApp], [loadAddon] or [findPackage], on any file
    system and with any arguments, completed by a return or by a throw. *)
Inductive publicCall (c : PackageInfoCache.t) : PackageInfoCache.t -> Prop :=
| call_loadProject fs path resolve steps fuel projectRootDir isRoot c' :
    leaves (loadProject fs path resolve steps fuel projectRootDir isRoot c) c' ->
    publicCall c c'
| call_loadApp fs path steps fuel appRootDir isRoot c' :
    leaves (loadApp fs path steps fuel appRootDir isRoot c) c' ->
    publicCall c c'
| call_loadAddon fs path resolve steps fuel addonRootDir projectRelativePath c' :
    leaves (loadAddon fs path resolve steps fuel addonRootDir projectRelativePath c) c' ->
    publicCall c c'
| call_findPackage fs path steps fuel packageName startPath c' :
    leaves (findPackage fs path steps fuel packageName startPath c) c' ->
    publicCall c c'.

(** The caches that can be reached: the new cache, and what public calls
    make of a cache that can be reached. *)
Inductive reachable : PackageInfoCache.t -> Prop :=
| reachable_new : reachable PackageInfoCache.new
| reachable_call c c' : reachable c -> publicCall c c' -> reachable c'.

(** The payload of a ledger entry, by its kind, as [#showObjErrors] casts
    it: a path or a name for the kinds about a directory or a file, an
    array with at least one name for the kinds about dependencies.  Other
    kinds promise nothing. *)
Definition pathErrors : list string :=
  [ ERRORS.ERROR_PACKAGE_DIR_MISSING; ERRORS.ERROR_PACKAGE_JSON_MISSING;
    ERRORS.ERROR_PACKAGE_JSON_PARSE; ERRORS.ERROR_EMBER_ADDON_MAIN_MISSING;
    ERRORS.ERROR_NODEMODULES_ENTRY_MISSING ].

Definition dependencyErrors : list string :=
  [ ERRORS.ERROR_DEPENDENCIES_MISSING; ERRORS.ERROR_DEVDEPENDENCIES_MISSING ].

Definition typedEntry (e : ErrorEntry.t) : Prop :=
  (In (ErrorEntry.type e) pathErrors ->
   exists s, ErrorEntry.data e = DataString s)
  /\ (In (ErrorEntry.type e) dependencyErrors ->
      exists name names, ErrorEntry.data e = DataNames (name :: names)).

Definition typedLedger (errors : ErrorList.t) : Prop :=
  List.Forall typedEntry (ErrorList.errors errors).

(** The errors the code of the cache raises: the four aborts of the
    readers on an entry of the other kind, the abort of [loadProject] on a
    project with two roots, and the type errors of calling
    [addInRepoAddon] on an object that has none, of joining a path with an
    item that is no string, and of reading [startsWith] of [undefined]. *)
Definition thrownErrors : list string :=
  [ ERROR_PACKAGE_AT_LIST_PATH; ERROR_PACKAGE_AT_LIST_REAL_PATH;
    ERROR_LIST_AT_OTHER_PATH; ERROR_LIST_AT_PACKAGE_PATH;
    ERROR_PROJECT_ROOT_AND_BUILD_FILE;
    TYPE_ERROR_NOT_A_FUNCTION; TYPE_ERROR_PATH_ARGUMENT;
    NodeModulesList.TYPE_ERROR_STARTSWITH ].

(** The errors of the program itself, as opposed to a failure on a
    reference that names no object or on a write to the frozen null
    listing. *)
Definition ownError (error : string) : Prop := In error thrownErrors.

(** A mapping of names to packages, as [doAddDependencies] returns it:
    every value is a package object of the store. *)
Definition soundPackages (c : PackageInfoCache.t) (packages : JsMap.t Entry) : Prop :=
  forall name e, JsMap.get packages name = Some e ->
    exists r, e = EPackage r /\ r < length (PackageInfoCache.packageInfos c).

(** What holds of every package object of the store: an object that is
    not valid has an error entry; the entries of its ledger hold the
    payload of their kind; an addon has the path of its main file, or is
    not valid and has the error about the main file; its listing, the
    mappings of its dependencies and its in-repo addons refer to objects of
    the store, the in-repo addons being addons. *)
Record soundPackage (c : PackageInfoCache.t) (p : PackageInfo.t) : Prop := {
  sound_valid :
    PackageInfo.valid p = false -> PackageInfo.hasErrors p = true;
  sound_ledger : typedLedger (PackageInfo.errors p);
  sound_main :
    instanceofEmberAddonPackageInfo (PackageInfo.class p) = true ->
    truthyPath (PackageInfo.addonMainPath p) = true
    \/ (PackageInfo.valid p = false
        /\ exists mainPath,
             In (ErrorEntry.mk ERRORS.ERROR_EMBER_ADDON_MAIN_MISSING
                   (DataString mainPath))
                (ErrorList.errors (PackageInfo.errors p)));
  sound_nodeModules :
    forall n, PackageInfo.nodeModules p = Some (ListAt n) ->
      n < length (PackageInfoCache.nodeModulesLists c);
  sound_dependenciesPackages :
    forall packages, PackageInfo.dependenciesPackages p = Some packages ->
      soundPackages c packages;
  sound_devDependenciesPackages :
    forall packages, PackageInfo.devDependenciesPackages p = Some packages ->
      soundPackages c packages;
  sound_inRepoAddons :
    forall addons a, PackageInfo.inRepoAddons p = Some addons -> In a addons ->
      exists addon,
        PackageInfoCache.packageInfos c !! a = Some addon
        /\ instanceofEmberAddonPackageInfo (PackageInfo.class addon) = true
}.

(** What holds of every listing of the store: [hasEntries] is up exactly
    when there is an entry; the entries of its ledger hold the payload of
    their kind; no entry name starts with ['.'] or ['_']; a name that
    starts with ['@'] maps to a listing of the store and any other name to
    a package object of the store. *)
Record soundListing (c : PackageInfoCache.t) (l : NodeModulesList.t) : Prop := {
  sound_listing_ledger : typedLedger (NodeModulesList.errors l);
  sound_hasEntries :
    NodeModulesList.hasEntries l
    = match NodeModulesList.entries l with [] => false | _ :: _ => true end;
  sound_entries :
    forall name e, JsMap.get (NodeModulesList.entries l) name = Some e ->
      startsWith name "." = false /\ startsWith name "_" = false
      /\ match e with
         | EPackage r =>
             startsWith name "@" = false
             /\ r < length (PackageInfoCache.packageInfos c)
         | EList nested =>
             startsWith name "@" = true
             /\ exists n, nested = ListAt n
                          /\ n < length (PackageInfoCache.nodeModulesLists c)
         end
}.

(** A cache is well formed when the table has one entry for a key, every
    entry of the table is an object of the store whose path is the key,
    and every object of the store is sound. *)
Record wellFormed (c : PackageInfoCache.t) : Prop := {
  wf_table_keys : List.NoDup (JsMap.keys (PackageInfoCache.entries c));
  wf_table_packages :
    forall k r, PackageInfoCache.getEntry c k = Some (EPackage r) ->
      exists p, PackageInfoCache.packageInfos c !! r = Some p
                /\ PackageInfo.realPath p = k;
  wf_table_listings :
    forall k l, PackageInfoCache.getEntry c k = Some (EList l) ->
      exists n nl, l = ListAt n
                   /\ PackageInfoCache.nodeModulesLists c !! n = Some nl
                   /\ NodeModulesList.realPath nl = k;
  wf_packages :
    forall r p, PackageInfoCache.packageInfos c !! r = Some p -> soundPackage c p;
  wf_listings :
    forall n l, PackageInfoCache.nodeModulesLists c !! n = Some l -> soundListing c l
}.

(** A package object at two moments: its class, descriptor, path and root
    flag are the same; its ledger has grown at the end; once not valid it
    stays so; once processed it stays so. *)
Record stablePackage (p p' : PackageInfo.t) : Prop := {
  stable_class : PackageInfo.class p' = PackageInfo.class p;
  stable_packageJson : PackageInfo.packageJson p' = PackageInfo.packageJson p;
  stable_realPath : PackageInfo.realPath p' = PackageInfo.realPath p;
  stable_isRoot : PackageInfo.isRoot p' = PackageInfo.isRoot p;
  stable_errors :
    ErrorList.errors (PackageInfo.errors p)
    `prefix_of` ErrorList.errors (PackageInfo.errors p');
  stable_valid : PackageInfo.valid p = false -> PackageInfo.valid p' = false;
  stable_processed :
    PackageInfo.processed p = true -> PackageInfo.processed p' = true
}.

(** A listing at two moments: the path is the same, the ledger has grown
    at the end, and a name that had an entry has one. *)
Record stableListing (l l' : NodeModulesList.t) : Prop := {
  stable_listing_realPath : NodeModulesList.realPath l' = NodeModulesList.realPath l;
  stable_listing_errors :
    ErrorList.errors (NodeModulesList.errors l)
    `prefix_of` ErrorList.errors (NodeModulesList.errors l');
  stable_listing_entries :
    forall name, JsMap.get (NodeModulesList.entries l) name <> None ->
                 JsMap.get (NodeModulesList.entries l') name <> None
}.

(** [c'] is a later state of [c]: every object of [c] is in [c'], under
    the same reference, as a later state of itself. *)
Record ages (c c' : PackageInfoCache.t) : Prop := {
  ages_packages :
    forall r p, PackageInfoCache.packageInfos c !! r = Some p ->
      exists p', PackageInfoCache.packageInfos c' !! r = Some p'
                 /\ stablePackage p p';
  ages_listings :
    forall n l, PackageInfoCache.nodeModulesLists c !! n = Some l ->
      exists l', PackageInfoCache.nodeModulesLists c' !! n = Some l'
                 /\ stableListing l l'
}.

(** What a computation keeps: it leaves a well-formed cache that is a
    later state of the one it started from. *)
Definition kept (c c' : PackageInfoCache.t) : Prop := wellFormed c' /\ ages c c'.

(** What a computation guarantees when run from [c]: [kept], whether it
    returns or throws; [Q] of the value and the cache it returns; and that
    an error it throws is one of the program's own. *)
Definition guarantees {A} (m : M A) (c : PackageInfoCache.t)
    (Q : A -> PackageInfoCache.t -> Prop) : Prop :=
  match m c with
  | Ok a c' => kept c c' /\ Q a c'
  | Throw error c' => kept c c' /\ ownError error
  | OutOfFuel => True
  end.

(** The entries that are a package object of the store. *)
Definition packageOf (c : PackageInfoCache.t) (found : option Entry) : Prop :=
  match found with
  | Some e => exists r, e = EPackage r /\ r < length (PackageInfoCache.packageInfos c)
  | None => True
  end.

(** The references to a listing of the store. *)
Definition listingOf (c : PackageInfoCache.t) (l : option ListRef) : Prop :=
  match l with
  | Some l => exists n, l = ListAt n /\ n < length (PackageInfoCache.nodeModulesLists c)
  | None => True
  end.

(** The references to a listing that can be read: the null listing, and
    the listings of the store. *)
Definition readableListing (c : PackageInfoCache.t) (l : ListRef) : Prop :=
  match l with
  | NullInstance => True
  | ListAt n => n < length (PackageInfoCache.nodeModulesLists c)
  end.

(** The package object [#readPackage] creates at [realPath] when it could
    read no descriptor: a plain package with the placeholder descriptor,
    not valid, whose ledger holds the one error recorded on the way, and
    with the null listing. *)
Definition placeholderPackage (realPath : string) (isRoot : bool)
    (error : ErrorEntry.t) : PackageInfo.t :=
  PackageInfo.mk ClassPackageInfo
    [("name", JStr "invalid package.json"); ("root", JStr realPath)]
    realPath isRoot (ErrorList.mk [error])
    None None (Some NullInstance) false false None None.

(** The cache after [#readPackage] has registered a new package object
    under [realPath]. *)
Definition withNewPackage (realPath : string) (p : PackageInfo.t)
    (c : PackageInfoCache.t) : PackageInfoCache.t :=
  PackageInfoCache.addEntry realPath
    (EPackage (length (PackageInfoCache.packageInfos c)))
    (PackageInfoCache.set_packageInfos (PackageInfoCache.packageInfos c ++ [p]) c).

(** A file system whose only directory, [/broken], has a descriptor file
    that does not parse. *)
Definition brokenFileSystem : FileSystem :=
  tableFileSystem [("/broken", "/broken")]
    [("/broken/package.json", "/broken/package.json")] [] [].

(** The project loaded as an application that is not the root, and then
    loaded again as the root. *)
Definition projectAsApp : PackageInfoCache.t :=
  Eval vm_compute in
    cacheOf (loadApp projectFileSystem posix 10 4 "/proj" false PackageInfoCache.new).

Definition projectAsAppResolved : PackageInfoCache.t :=
  Eval vm_compute in
    cacheOf (loadApp projectFileSystem posix 10 4 "/proj" true projectAsApp).

(** A project directory [/mono] whose descriptor names [packages/app] as
    the root of the application, which is an Ember application with the
    in-repo addon [lib/extra]. *)
Definition monorepoFileSystem : FileSystem :=
  tableFileSystem
    [ ("/mono", "/mono");
      ("/mono/packages/app", "/mono/packages/app");
      ("/mono/packages/app/lib/extra", "/mono/packages/app/lib/extra") ]
    [ ("/mono/package.json", "/mono/package.json");
      ("/mono/packages/app/package.json", "/mono/packages/app/package.json");
      ("/mono/packages/app/lib/extra/package.json",
       "/mono/packages/app/lib/extra/package.json");
      ("/mono/packages/app/lib/extra/index.js",
       "/mono/packages/app/lib/extra/index.js") ]
    [ ("/mono/package.json",
       [ ("name", JStr "mono");
         ("ember", JObj [("edition", JStr "octane")]);
         ("ember-addon", JObj [("projectRoot", JStr "packages/app")]) ]);
      ("/mono/packages/app/package.json",
       [ ("name", JStr "app");
         ("ember", JObj [("edition", JStr "octane")]);
         ("ember-addon", JObj [("paths", JArr [JStr "lib/extra"])]);
         ("devDependencies", JObj [("ember-cli", JStr "^4.0.0")]) ]);
      ("/mono/packages/app/lib/extra/package.json",
       [ ("name", JStr "extra");
         ("ember", JObj [("edition", JStr "octane")]);
         ("keywords", JArr [JStr "ember-addon"]) ]) ]
    [].

(** The cache after [loadProject] has loaded the project as the root. *)
Definition monorepoLoaded : PackageInfoCache.t :=
  Eval vm_compute in
    cacheOf (loadProject monorepoFileSystem posix (posixResolve "/") 10 4 "/mono" true
               PackageInfoCache.new).

(** The cache after [loadAddon] has loaded the in-repo addon as the root,
    with the project two directories up. *)
Definition addonLoaded : PackageInfoCache.t :=
  Eval vm_compute in
    cacheOf (loadAddon monorepoFileSystem posix (posixResolve "/") 10 4
               "/mono/packages/app/lib/extra" "../../../.." PackageInfoCache.new).

(** [c'] has left alone what was settled in [c]: every listing of [c] is
    in [c'] as it was, every package object of [c] is in [c'], and those
    that were processed are as they were. *)
Definition settled (c c' : PackageInfoCache.t) : Prop :=
  PackageInfoCache.nodeModulesLists c `prefix_of` PackageInfoCache.nodeModulesLists c'
  /\ forall r p, PackageInfoCache.packageInfos c !! r = Some p ->
       exists p', PackageInfoCache.packageInfos c' !! r = Some p'
                  /\ (PackageInfo.processed p = true -> p' = p).

(** An error that a public call of the cache throws: [loadProject],
    [loadApp], [loadAddon] or [findPackage], on any file system and with
    any arguments. *)
Inductive publicThrow (c : PackageInfoCache.t) (error : string) : Prop :=
| throw_loadProject fs path resolve steps fuel projectRootDir isRoot c' :
    loadProject fs path resolve steps fuel projectRootDir isRoot c = Throw error c' ->
    publicThrow c error
| throw_loadApp fs path steps fuel appRootDir isRoot c' :
    loadApp fs path steps fuel appRootDir isRoot c = Throw error c' ->
    publicThrow c error
| throw_loadAddon fs path resolve steps fuel addonRootDir projectRelativePath c' :
    loadAddon fs path resolve steps fuel addonRootDir projectRelativePath c
    = Throw error c' ->
    publicThrow c error
| throw_findPackage fs path steps fuel packageName startPath c' :
    findPackage fs path steps fuel packageName startPath c = Throw error c' ->
    publicThrow c error.

(** An addon whose main file, [index.js], is not there. *)
Definition mainlessFileSystem : FileSystem :=
  tableFileSystem
    [ ("/addon", "/addon") ]
    [ ("/addon/package.json", "/addon/package.json") ]
    [ ("/addon/package.json",
       [ ("name", JStr "addon");
         ("ember", JObj [("edition", JStr "octane")]);
         ("keywords", JArr [JStr "ember-addon"]);
         ("dependencies", JObj [("gone", JStr "^1.0.0")]) ]) ]
    [].

Definition mainlessLoaded : PackageInfoCache.t :=
  Eval vm_compute in
    cacheOf (loadApp mainlessFileSystem posix 10 4 "/addon" true PackageInfoCache.new).

(** A package that is no Ember package (its descriptor has no
    [ember.edition]) and names the in-repo addon [lib/x], which is an
    addon. *)
Definition plainWithAddonFileSystem : FileSystem :=
  tableFileSystem
    [ ("/plain", "/plain"); ("/plain/lib/x", "/plain/lib/x") ]
    [ ("/plain/package.json", "/plain/package.json");
      ("/plain/lib/x/package.json", "/plain/lib/x/package.json");
      ("/plain/lib/x/index.js", "/plain/lib/x/index.js") ]
    [ ("/plain/package.json",
       [ ("name", JStr "plain");
         ("ember-addon", JObj [("paths", JArr [JStr "lib/x"])]) ]);
      ("/plain/lib/x/package.json",
       [ ("name", JStr "x");
         ("ember", JObj [("edition", JStr "octane")]);
         ("keywords", JArr [JStr "ember-addon"]) ]) ]
    [].

(** A [node_modules] directory in which nothing is a package: a hidden
    directory (with a descriptor), a directory without a descriptor, a
    name that starts with ['_'], and a regular file whose name starts
    with ['@']. *)
Definition noPackagesFileSystem : FileSystem :=
  tableFileSystem
    [ ("/p/node_modules", "/p/node_modules");
      ("/p/node_modules/.bin", "/p/node_modules/.bin");
      ("/p/node_modules/docs", "/p/node_modules/docs") ]
    [ ("/p/node_modules/.bin/package.json", "/p/node_modules/.bin/package.json");
      ("/p/node_modules/@readme", "/p/node_modules/@readme") ]
    []
    [ ("/p/node_modules", [".bin"; "docs"; "_cache"; "@readme"]) ].

(* ===================================================================== *)
(** ** objects/package-info-cache.ts: showErrors *)
(* ===================================================================== *)

Definition TYPE_ERROR_RELATIVE_ARGUMENT :=
  "TypeError [ERR_INVALID_ARG_TYPE]: The to argument must be of type string".

Definition TYPE_ERROR_LENGTH :=
  "TypeError: Cannot read properties of undefined (reading 'length')".

Definition TYPE_ERROR_FOREACH :=
  "TypeError: dependencyNames.forEach is not a function".

(** What a call has printed with [console.info], line by line, and the
    error it has thrown, if any. *)
Definition Printed : Type := list string * option string.

(** [array.forEach(callback)] for a callback that prints: the lines of
    the calls in turn, up to the first one that throws. *)
Fixpoint printEach {A} (callback : A -> Printed) (array : list A) : Printed :=
  match array with
  | [] => ([], None)
  | x :: rest =>
      match callback x with
      | (lines, Some error) => (lines, Some error)
      | (lines, None) =>
          let '(lines', thrown) := printEach callback rest in
          (lines ++ lines', thrown)
      end
  end.

(** [`${errorEntry.data}`] *)
Definition dataToString (data : ErrorData) : string :=
  match data with
  | DataString s => s
  | DataNames names => String.concat "," names
  | DataUndefined => "undefined"
  end.

Section ShowErrors.
(** [path.relative(from, to)] *)
Variable relative : string -> string -> string.

(** The cases [ERROR_DEPENDENCIES_MISSING] and
    [ERROR_DEVDEPENDENCIES_MISSING] of the [switch], which differ in the
    two words [one] and [some].  The payload is cast to an array: on a
    string, [length] and the index [0] are those of the string and
    [forEach] is not there; on [undefined], reading [length] throws. *)
Definition showMissing (one some : string) (data : ErrorData) : Printed :=
  let single (dependencyName : string) :=
    ("  specifies a " ++ one ++ " that was not loaded '" ++ dependencyName ++ "'")%string in
  let several := ("  specifies some " ++ some ++ " that were not loaded:")%string in
  match data with
  | DataNames dependencyNames =>
      match dependencyNames with
      | [dependencyName] => ([single dependencyName], None)
      | _ =>
          (several :: map (fun dependencyName => ("    '" ++ dependencyName ++ "'")%string)
                          dependencyNames, None)
      end
  | DataString s =>
      if (String.length s =? 1)%nat then ([single s], None)
      else ([several], Some TYPE_ERROR_FOREACH)
  | DataUndefined => ([], Some TYPE_ERROR_LENGTH)
  end.

(** The callback of [errorEntries.forEach]: the [switch] on the kind. *)
Definition showErrorEntry (rootPath : string) (errorEntry : ErrorEntry.t) : Printed :=
  let type := ErrorEntry.type errorEntry in
  let data := ErrorEntry.data errorEntry in
  if String.eqb type ERRORS.ERROR_PACKAGE_JSON_MISSING then
    (["  does not exist"], None)
  else if String.eqb type ERRORS.ERROR_PACKAGE_JSON_PARSE then
    (["  could not be parsed"], None)
  else if String.eqb type ERRORS.ERROR_EMBER_ADDON_MAIN_MISSING then
    match data with
    | DataString mainPath =>
        ([("  specifies a missing ember-addon 'main' file at relative path '"
           ++ relative rootPath mainPath ++ "'")%string], None)
    | _ => ([], Some TYPE_ERROR_RELATIVE_ARGUMENT)
    end
  else if String.eqb type ERRORS.ERROR_DEPENDENCIES_MISSING then
    showMissing "dependency" "dependencies" data
  else if String.eqb type ERRORS.ERROR_DEVDEPENDENCIES_MISSING then
    showMissing "devDependency" "devDependencies" data
  else if String.eqb type ERRORS.ERROR_NODEMODULES_ENTRY_MISSING then
    ([("  specifies a missing 'node_modules/" ++ dataToString data
       ++ "' directory")%string], None)
  else ([], None).

(** [#showObjErrors(obj)] for an object with the given ledger and path;
    [isApp] is [obj instanceof EmberAppPackageInfo]. *)
Definition showObjErrors (isApp : bool) (realPath : string) (errors : ErrorList.t)
    : Printed :=
  if negb (ErrorList.hasErrors errors) then ([], None)
  else
    let errorEntries := ErrorList.getErrors errors in
    let onlyDirectoryMissing :=
      match errorEntries with
      | [entry] => String.eqb (ErrorEntry.type entry) ERRORS.ERROR_PACKAGE_DIR_MISSING
      | _ => false
      end in
    if onlyDirectoryMissing then ([], None)
    else
      let typeName := if isApp then "app" else "addon" in
      let '(lines, thrown) := printEach (showErrorEntry realPath) errorEntries in
      (EmptyString
       :: ("Errors for the 'package.json' file for the " ++ typeName ++ " at "
           ++ realPath)%string
       :: lines, thrown).

(** [#showObjErrors] on an entry of the table. *)
Definition showEntryErrors (c : PackageInfoCache.t) (obj : Entry) : Printed :=
  match obj with
  | EPackage r =>
      match PackageInfoCache.packageInfos c !! r with
      | Some p =>
          showObjErrors (instanceofEmberAppPackageInfo (PackageInfo.class p))
            (PackageInfo.realPath p) (PackageInfo.errors p)
      | None => ([], Some INVALID_REFERENCE)
      end
  | EList l =>
      match NodeModulesList.deref (PackageInfoCache.nodeModulesLists c) l with
      | Some nl =>
          showObjErrors false (NodeModulesList.realPath nl) (NodeModulesList.errors nl)
      | None => ([], Some INVALID_REFERENCE)
      end
  end.

(** [showErrors()] *)
Definition showErrors (c : PackageInfoCache.t) : Printed :=
  printEach (showEntryErrors c) (PackageInfoCache.findErrors c).
End ShowErrors.

(* ===================================================================== *)
(** ** Listings that are reached again while they are read *)
(* ===================================================================== *)

(** An application [/p] with the addon [a] in its [node_modules]; the
    directory [node_modules] of the addon is a symbolic link to the
    [node_modules] of the application, where the addon itself is. *)
Definition linkedFileSystem : FileSystem :=
  tableFileSystem
    [ ("/p", "/p");
      ("/p/node_modules", "/p/node_modules");
      ("/p/node_modules/a", "/p/node_modules/a");
      ("/p/node_modules/a/node_modules", "/p/node_modules") ]
    [ ("/p/package.json", "/p/package.json");
      ("/p/node_modules/a/package.json", "/p/node_modules/a/package.json");
      ("/p/node_modules/a/index.js", "/p/node_modules/a/index.js") ]
    [ ("/p/package.json",
       [ ("name", JStr "app");
         ("ember", JObj [("edition", JStr "octane")]);
         ("devDependencies", JObj [("ember-cli", JStr "^4.0.0")]) ]);
      ("/p/node_modules/a/package.json",
       [ ("name", JStr "a");
         ("ember", JObj [("edition", JStr "octane")]);
         ("keywords", JArr [JStr "ember-addon"]) ]) ]
    [ ("/p/node_modules", ["a"]) ].

(** The cache after [loadApp] has loaded that application. *)
Definition linkedLoaded : PackageInfoCache.t :=
  Eval vm_compute in
    cacheOf (loadApp linkedFileSystem posix 10 6 "/p" true PackageInfoCache.new).

(** The cache at the moment [#readNodeModulesList] has created the listing
    of [/p/node_modules] and is about to read its entries: the application
    is registered, the listing is in the store and not in the table. *)
Definition linkedListingCreated : PackageInfoCache.t :=
  Eval vm_compute in
    cacheOf (allocateNodeModulesList (NodeModulesList.new "/p/node_modules")
               (withNewPackage "/p"
                  (PackageInfoFactory_create linkedFileSystem posix
                     [ ("name", JStr "app");
                       ("ember", JObj [("edition", JStr "octane")]);
                       ("devDependencies", JObj [("ember-cli", JStr "^4.0.0")]);
                       ("root", JStr "/p") ] "/p" true)
                  PackageInfoCache.new)).

(** The cache after the callback of [entries.forEach] has read the entry
    [a] of that listing. *)
Definition linkedEntryRead : PackageInfoCache.t :=
  Eval vm_compute in
    cacheOf (readNodeModulesEntry linkedFileSystem posix
               (readPackage linkedFileSystem posix 4)
               (readNodeModulesList linkedFileSystem posix 4)
               (ListAt 0) "/p/node_modules" "a" linkedListingCreated).

(** A [node_modules] directory whose scope directory [@a] is a symbolic
    link back to it. *)
Definition cycleFileSystem : FileSystem :=
  tableFileSystem
    [ ("/p/node_modules", "/p/node_modules");
      ("/p/node_modules/@a", "/p/node_modules") ]
    [] []
    [ ("/p/node_modules", ["@a"]) ].

(* ===================================================================== *)
(** ** What the resolution pass leaves on a node *)
(* ===================================================================== *)





(* ===================================================================== *)
(** * Properties *)
(* ===================================================================== *)

(** ** Strings and maps *)

Lemma split_nonempty (sep : ascii) (s : string) : split sep s <> [].
Proof.
  destruct s as [|c s]; simpl; [discriminate|].
  destruct (Ascii.eqb c sep); [discriminate|].
  destruct (split sep s); discriminate.
Qed.

Lemma split_parts_no_sep (sep : ascii) (s p : string) :
  In p (split sep s) -> containsChar sep p = false.
Proof.
  revert p. induction s as [|c s IH]; simpl; intros p Hp.
  - destruct Hp as [<-|[]]. reflexivity.
  - destruct (Ascii.eqb c sep) eqn:Hc.
    + destruct Hp as [<-|Hp]; [reflexivity|auto].
    + destruct (split sep s) as [|hd tl] eqn:Hs.
      * destruct Hp as [<-|[]]. simpl. now rewrite Hc.
      * destruct Hp as [<-|Hp].
        -- simpl. rewrite Hc. simpl. apply IH. now left.
        -- apply IH. now right.
Qed.

Lemma split_without_sep (sep : ascii) (s : string) :
  containsChar sep s = false -> split sep s = [s].
Proof.
  induction s as [|c s IH]; simpl; [reflexivity|].
  intros H. apply orb_false_iff in H as [Hc Hs].
  rewrite Hc, (IH Hs). reflexivity.
Qed.

Module JsMapFacts.
Lemma get_set_eq {V} (m : JsMap.t V) k v : JsMap.get (JsMap.set m k v) k = Some v.
Proof.
  induction m as [|[k' v'] m IH]; simpl.
  - now rewrite String.eqb_refl.
  - destruct (String.eqb k' k) eqn:E; simpl; rewrite E; auto.
Qed.

Lemma get_set_ne {V} (m : JsMap.t V) k k' v :
  k <> k' -> JsMap.get (JsMap.set m k v) k' = JsMap.get m k'.
Proof.
  intros Hne. induction m as [|[k0 v0] m IH]; simpl.
  - destruct (String.eqb_spec k k'); [contradiction|reflexivity].
  - destruct (String.eqb_spec k0 k) as [->|Hk]; simpl.
    + destruct (String.eqb_spec k k'); [contradiction|reflexivity].
    + destruct (String.eqb_spec k0 k'); auto.
Qed.

Lemma get_Some_In {V} (m : JsMap.t V) k v : JsMap.get m k = Some v -> In (k, v) m.
Proof.
  induction m as [|[k0 v0] m IH]; simpl; [discriminate|].
  destruct (String.eqb_spec k0 k) as [->|Hk].
  - intros [= ->]. now left.
  - intros H. right. auto.
Qed.

Lemma get_None_keys {V} (m : JsMap.t V) k :
  JsMap.get m k = None <-> ~ In k (JsMap.keys m).
Proof.
  induction m as [|[k0 v0] m IH]; simpl.
  - tauto.
  - destruct (String.eqb_spec k0 k) as [->|Hk].
    + split; [discriminate|]. intros H. exfalso. apply H. now left.
    + rewrite IH. tauto.
Qed.

Lemma keys_set_absent {V} (m : JsMap.t V) k v :
  JsMap.get m k = None -> JsMap.keys (JsMap.set m k v) = JsMap.keys m ++ [k].
Proof.
  induction m as [|[k0 v0] m IH]; simpl; [reflexivity|].
  destruct (String.eqb_spec k0 k) as [->|Hk]; [discriminate|].
  intros H. simpl. f_equal. auto.
Qed.

Lemma keys_set_present {V} (m : JsMap.t V) k v :
  JsMap.get m k <> None -> JsMap.keys (JsMap.set m k v) = JsMap.keys m.
Proof.
  induction m as [|[k0 v0] m IH]; simpl; [congruence|].
  destruct (String.eqb_spec k0 k) as [->|Hk]; [reflexivity|].
  intros H. simpl. f_equal. auto.
Qed.

Lemma keys_set_NoDup {V} (m : JsMap.t V) k v :
  List.NoDup (JsMap.keys m) -> List.NoDup (JsMap.keys (JsMap.set m k v)).
Proof.
  intros Hnd. destruct (JsMap.get m k) eqn:E.
  - rewrite keys_set_present; [assumption|congruence].
  - rewrite keys_set_absent by assumption.
    apply NoDup_ListNoDup. apply NoDup_app. repeat split.
    + now apply NoDup_ListNoDup.
    + intros x Hx Hx'. apply list_elem_of_In in Hx, Hx'.
      destruct Hx' as [<-|[]]. now apply get_None_keys in E.
    + apply NoDup_singleton.
Qed.
End JsMapFacts.

(* ===================================================================== *)
(** ** NodeModulesList.findPackage *)
(* ===================================================================== *)

Section FindPackageFacts.
Import NodeModulesList.

(** A call with [undefined] never recurses. *)
Lemma findPackage_undefined fuel heap this :
  findPackage (S fuel) heap this None = findPackage 1 heap this None.
Proof.
  simpl. destruct (deref heap this) as [self|]; [|reflexivity].
  destruct (hasEntries self); reflexivity.
Qed.

(** A call with a name that has no ['/'] recurses at most once. *)
Lemma findPackage_single_part fuel heap this name :
  containsChar "/" name = false ->
  findPackage (S (S fuel)) heap this (Some name)
  = findPackage 2 heap this (Some name).
Proof.
  intros Hname. cbn [findPackage].
  destruct (deref heap this) as [self|]; [|reflexivity].
  destruct (hasEntries self); [|reflexivity]. cbn [negb].
  destruct (startsWith name "@"); [|reflexivity].
  rewrite (split_without_sep _ _ Hname). cbn [lookup list_lookup].
  destruct (JsMap.get (entries self) name) as [[r|nested]|]; reflexivity.
Qed.

(** [FIND_DEPTH] calls are enough for every name: more fuel gives the same
    completion, and that completion is never [NoFuel]. *)
Lemma findPackage_depth fuel heap this name :
  findPackage (FIND_DEPTH + fuel) heap this (Some name)
  = findPackage FIND_DEPTH heap this (Some name)
  /\ findPackage FIND_DEPTH heap this (Some name) <> NoFuel.
Proof.
  unfold FIND_DEPTH. change (3 + fuel)%nat with (S (S (S fuel))).
  cbn [findPackage].
  destruct (deref heap this) as [self|]; [|split; [reflexivity|discriminate]].
  destruct (hasEntries self); [|split; [reflexivity|discriminate]]. cbn [negb].
  destruct (startsWith name "@"); [|split; [reflexivity|discriminate]].
  destruct (split "/" name !! 0%nat) as [scope|]; [|split; [reflexivity|discriminate]].
  destruct (JsMap.get (entries self) scope) as [[r|nested]|];
    try (split; [reflexivity|discriminate]).
  destruct (split "/" name !! 1%nat) as [part|] eqn:Hpart.
  - assert (Hno : containsChar "/" part = false).
    { apply (split_parts_no_sep "/" name).
      apply list_elem_of_In. eapply list_elem_of_lookup_2. exact Hpart. }
    split.
    + destruct (deref heap nested) as [inner|]; [|reflexivity].
      destruct (hasEntries inner); [|reflexivity]. cbn [negb].
      destruct (startsWith part "@"); [|reflexivity].
      rewrite (split_without_sep _ _ Hno). cbn [lookup list_lookup].
      destruct (JsMap.get (entries inner) part) as [[r|nested']|]; reflexivity.
    + destruct (deref heap nested) as [inner|]; [|discriminate].
      destruct (hasEntries inner); [|discriminate]. cbn [negb].
      destruct (startsWith part "@"); [|discriminate].
      rewrite (split_without_sep _ _ Hno). cbn [lookup list_lookup].
      destruct (JsMap.get (entries inner) part) as [[r|nested']|]; try discriminate.
      destruct (deref heap nested') as [inner'|]; [|discriminate].
      destruct (hasEntries inner'); discriminate.
  - split.
    + destruct (deref heap nested) as [inner|]; [|reflexivity].
      destruct (hasEntries inner); reflexivity.
    + destruct (deref heap nested) as [inner|]; [|discriminate].
      destruct (hasEntries inner); discriminate.
Qed.
End FindPackageFacts.

(** C4. Lookup in a directory listing understands scoped names.  Let the
    name start with ['@'] and split at ['/'] into a scope and a package
    part (the latter not itself starting with ['@']), in a listing that has
    entries.  When the scope maps to a nested listing, the lookup returns
    what that listing holds under the package part: the entry when there is
    one, absent when there is none.  When the scope is missing, or maps to
    a package instead of a listing, the lookup returns absent. *)
Theorem findPackage_scoped_name
    (heap : list NodeModulesList.t) (this : ListRef) (self : NodeModulesList.t)
    (name scope pkg : string) (rest : list string) :
  NodeModulesList.deref heap this = Some self ->
  NodeModulesList.hasEntries self = true ->
  startsWith name "@" = true ->
  split "/" name = scope :: pkg :: rest ->
  startsWith pkg "@" = false ->
  (forall nested inner,
      JsMap.get (NodeModulesList.entries self) scope = Some (EList nested) ->
      NodeModulesList.deref heap nested = Some inner ->
      NodeModulesList.hasEntries inner = true ->
      (forall found,
          JsMap.get (NodeModulesList.entries inner) pkg = Some found ->
          NodeModulesList.findPackage NodeModulesList.FIND_DEPTH heap this (Some name)
          = Return (Some found))
      /\ (JsMap.get (NodeModulesList.entries inner) pkg = None ->
          NodeModulesList.findPackage NodeModulesList.FIND_DEPTH heap this (Some name)
          = Return None))
  /\ (JsMap.get (NodeModulesList.entries self) scope = None ->
      NodeModulesList.findPackage NodeModulesList.FIND_DEPTH heap this (Some name)
      = Return None)
  /\ (forall r,
      JsMap.get (NodeModulesList.entries self) scope = Some (EPackage r) ->
      NodeModulesList.findPackage NodeModulesList.FIND_DEPTH heap this (Some name)
      = Return None).
Proof.
  intros Hself Hhas Hat Hsplit Hpkg.
  assert (Hstep : NodeModulesList.findPackage NodeModulesList.FIND_DEPTH heap this (Some name)
                  = match JsMap.get (NodeModulesList.entries self) scope with
                    | Some (EList nested) =>
                        NodeModulesList.findPackage 2 heap nested (Some pkg)
                    | _ => Return None
                    end).
  { unfold NodeModulesList.FIND_DEPTH. cbn [NodeModulesList.findPackage].
    rewrite Hself, Hhas, Hat, Hsplit. reflexivity. }
  rewrite Hstep. split; [|split].
  - intros nested inner Hscope Hinner Hhas'. rewrite Hscope.
    cbn [NodeModulesList.findPackage]. rewrite Hinner, Hhas', Hpkg. cbn [negb].
    split.
    + intros found Hfound. now rewrite Hfound.
    + intros Hnone. now rewrite Hnone.
  - intros ->. reflexivity.
  - intros r ->. reflexivity.
Qed.

Lemma findPackage_scoped_name_witness :
  NodeModulesList.findPackage NodeModulesList.FIND_DEPTH scopedListings
    (ListAt 0) (Some "@scope/pkg") = Return (Some (EPackage 0))
  /\ NodeModulesList.findPackage NodeModulesList.FIND_DEPTH scopedListings
       (ListAt 0) (Some "@scope/missing") = Return None
  /\ NodeModulesList.findPackage NodeModulesList.FIND_DEPTH scopedListings
       (ListAt 0) (Some "@missing/pkg") = Return None.
Proof.
  split; [|split].
  - refine (proj1 (proj1 (findPackage_scoped_name scopedListings (ListAt 0) _
              "@scope/pkg" "@scope" "pkg" [] eq_refl eq_refl eq_refl eq_refl eq_refl)
              (ListAt 1) _ eq_refl eq_refl eq_refl) (EPackage 0) eq_refl).
  - refine (proj2 (proj1 (findPackage_scoped_name scopedListings (ListAt 0) _
              "@scope/missing" "@scope" "missing" [] eq_refl eq_refl eq_refl eq_refl eq_refl)
              (ListAt 1) _ eq_refl eq_refl eq_refl) eq_refl).
  - refine (proj1 (proj2 (findPackage_scoped_name scopedListings (ListAt 0) _
              "@missing/pkg" "@missing" "pkg" [] eq_refl eq_refl eq_refl eq_refl eq_refl))
              eq_refl).
Defined.

(** C10. The lookup is not total on strings.  For a name that starts with
    ['@'] and has no ['/'], when the listing maps that name to a nested
    listing that has entries, [parts[1]] is [undefined], the nested call
    reads [startsWith] of it, and the lookup throws a [TypeError] instead
    of returning absent. *)
Theorem findPackage_bare_scope_throws
    (heap : list NodeModulesList.t) (this nested : ListRef)
    (self inner : NodeModulesList.t) (name : string) :
  NodeModulesList.deref heap this = Some self ->
  NodeModulesList.hasEntries self = true ->
  startsWith name "@" = true ->
  containsChar "/" name = false ->
  JsMap.get (NodeModulesList.entries self) name = Some (EList nested) ->
  NodeModulesList.deref heap nested = Some inner ->
  NodeModulesList.hasEntries inner = true ->
  NodeModulesList.findPackage NodeModulesList.FIND_DEPTH heap this (Some name)
  = Throws NodeModulesList.TYPE_ERROR_STARTSWITH.
Proof.
  intros Hself Hhas Hat Hno Hget Hinner Hhas'.
  unfold NodeModulesList.FIND_DEPTH. cbn [NodeModulesList.findPackage].
  rewrite Hself, Hhas, Hat, (split_without_sep _ _ Hno). cbn [negb lookup list_lookup].
  rewrite Hget, Hinner, Hhas'. reflexivity.
Qed.

Lemma findPackage_bare_scope_throws_witness :
  NodeModulesList.findPackage NodeModulesList.FIND_DEPTH scopedListings
    (ListAt 0) (Some "@scope")
  = Throws NodeModulesList.TYPE_ERROR_STARTSWITH.
Proof.
  exact (findPackage_bare_scope_throws scopedListings (ListAt 0) (ListAt 1) _ _
           "@scope" eq_refl eq_refl eq_refl eq_refl eq_refl eq_refl eq_refl).
Defined.

(* ===================================================================== *)
(** ** pushUnique, sort and addPackages *)
(* ===================================================================== *)

Lemma filter_twice {A} (f g : A -> bool) (l : list A) :
  List.filter f (List.filter g l) = List.filter (fun x => g x && f x) l.
Proof.
  induction l as [|x l IH]; simpl; [reflexivity|].
  destruct (g x); simpl; [destruct (f x)|]; now rewrite IH.
Qed.

Section PushUnique.
Context {T : Type} `{EqDecision T}.

Lemma indexOf_absent (l : list T) (x : T) :
  ~ In x l -> indexOf l x = (-1)%Z.
Proof.
  induction l as [|y l IH]; simpl; [reflexivity|].
  intros Hn. destruct (decide (y = x)) as [->|Hy]; [exfalso; auto|].
  rewrite IH by auto. reflexivity.
Qed.

Lemma indexOf_bounds (l : list T) (x : T) : (-1 <= indexOf l x)%Z.
Proof.
  induction l as [|y l IH]; simpl; [lia|].
  destruct (decide (y = x)); [lia|].
  destruct (Z.ltb_spec (indexOf l x) 0); lia.
Qed.

(** [indexOf] followed by [splice] removes the first occurrence; on a
    list without duplicates that is every occurrence. *)
Lemma pushUnique_filter (l : list T) (x : T) :
  List.NoDup l -> pushUnique l x = List.filter (fun y => bool_decide (y <> x)) l ++ [x].
Proof.
  unfold pushUnique. intros Hnd. f_equal.
  induction l as [|y l IH]; simpl.
  - reflexivity.
  - inversion Hnd as [|? ? Hy Hnd']; subst.
    destruct (decide (y = x)) as [->|Hne].
    + rewrite bool_decide_eq_false_2 by auto. cbn.
      unfold splice1. cbn. rewrite drop_0.
      symmetry. apply forallb_filter_id.
      apply forallb_forall. intros z Hz. apply bool_decide_eq_true_2.
      intros ->. contradiction.
    + rewrite bool_decide_eq_true_2 by auto.
      specialize (IH Hnd').
      pose proof (indexOf_bounds l x) as Hb.
      destruct (Z.ltb_spec (indexOf l x) 0) as [Hlt|Hge].
      * assert (indexOf l x = (-1)%Z) as Hm by lia. rewrite Hm in IH.
        cbn in IH |- *. now rewrite <- IH.
      * assert ((indexOf l x + 1 >? -1)%Z = true) as -> by lia.
        assert ((indexOf l x >? -1)%Z = true) as Hgt by lia.
        rewrite Hgt in IH. rewrite <- IH. unfold splice1.
        replace (Z.to_nat (indexOf l x + 1)) with (S (Z.to_nat (indexOf l x))) by lia.
        reflexivity.
Qed.

Lemma pushUnique_NoDup (l : list T) (x : T) :
  List.NoDup l -> List.NoDup (pushUnique l x).
Proof.
  intros Hnd. rewrite pushUnique_filter by assumption.
  apply NoDup_ListNoDup. apply NoDup_app. repeat split.
  - apply NoDup_ListNoDup. now apply List.NoDup_filter.
  - intros y Hy Hy'. apply list_elem_of_In in Hy, Hy'.
    apply List.filter_In in Hy as [_ Hy]. apply bool_decide_eq_true_1 in Hy.
    destruct Hy' as [->|[]]. contradiction.
  - apply NoDup_singleton.
Qed.

(** Appending a sequence of entries: what was there and is not appended
    keeps its place, and the appended entries follow, each once, in the
    order of their last occurrence. *)
Lemma fold_pushUnique (entries l : list T) :
  List.NoDup l ->
  fold_left pushUnique entries l
  = List.filter (fun y => bool_decide (y ∉ entries)) l ++ remove_dups entries.
Proof.
  revert l. induction entries as [|x entries IH]; intros l Hnd; simpl.
  - rewrite app_nil_r. symmetry. apply forallb_filter_id.
    apply forallb_forall. intros z _. reflexivity.
  - rewrite IH by now apply pushUnique_NoDup.
    rewrite pushUnique_filter by assumption.
    rewrite List.filter_app, <- app_assoc. f_equal.
    + rewrite filter_twice. apply List.filter_ext. intros y.
      destruct (decide (y = x)) as [->|Hne].
      * rewrite (bool_decide_eq_false_2 (x <> x)) by tauto.
        cbn [andb]. symmetry. apply bool_decide_eq_false_2.
        intros Hn. apply Hn. left.
      * rewrite (bool_decide_eq_true_2 (y <> x)) by assumption.
        cbn [andb]. apply bool_decide_ext.
        rewrite not_elem_of_cons. tauto.
    + cbn [List.filter remove_dups].
      destruct (decide_rel elem_of x entries) as [Hin|Hnin].
      * rewrite bool_decide_eq_false_2; [reflexivity|]. tauto.
      * rewrite bool_decide_eq_true_2; [reflexivity|]. assumption.
Qed.
End PushUnique.

Section ArraySortFacts.
Context {T : Type} (compareFn : T -> T -> Z).

Lemma sort_insert_perm (x : T) (l : list T) :
  Permutation (x :: l) (sort_insert compareFn x l).
Proof.
  induction l as [|y l IH]; simpl; [reflexivity|].
  destruct (compareFn x y >? 0)%Z; [|reflexivity].
  rewrite perm_swap. now apply perm_skip.
Qed.

Lemma array_sort_perm (l : list T) : Permutation l (array_sort compareFn l).
Proof.
  induction l as [|x l IH]; simpl; [reflexivity|].
  rewrite <- sort_insert_perm. now apply perm_skip.
Qed.

(** On elements [P] where the comparison is a total preorder [le], the
    sort returns a sorted array. *)
Variable le : T -> T -> Prop.
Variable P : T -> Prop.
Hypothesis compare_le : forall x y, P x -> P y -> (compareFn x y <= 0)%Z -> le x y.
Hypothesis compare_gt : forall x y, P x -> P y -> (compareFn x y > 0)%Z -> le y x.
Hypothesis le_trans : forall x y z, P x -> P y -> P z -> le x y -> le y z -> le x z.

Lemma sort_insert_sorted (x : T) (l : list T) :
  P x -> List.Forall P l -> StronglySorted le l ->
  StronglySorted le (sort_insert compareFn x l).
Proof.
  intros Hx HP Hs. induction l as [|y l IH]; simpl.
  - constructor; constructor.
  - inversion HP as [|? ? Hy HP']; subst.
    inversion Hs as [|? ? Hs' Hall]; subst.
    destruct (Z.gtb_spec (compareFn x y) 0) as [Hgt|Hle].
    + constructor; [auto|].
      apply (Permutation_Forall (sort_insert_perm x l)).
      constructor; [apply compare_gt; auto; lia|assumption].
    + assert (Hxy : le x y) by (apply compare_le; auto).
      constructor; [assumption|].
      constructor; [assumption|].
      rewrite List.Forall_forall in Hall, HP' |- *.
      intros z Hz. apply (le_trans x y z); auto.
Qed.

Lemma array_sort_sorted (l : list T) :
  List.Forall P l -> StronglySorted le (array_sort compareFn l).
Proof.
  induction l as [|x l IH]; simpl; intros HP.
  - constructor.
  - inversion HP; subst. apply sort_insert_sorted; auto.
    apply (Permutation_Forall (array_sort_perm l)). assumption.
Qed.
End ArraySortFacts.

Section AddPackagesFacts.
Variable localeCompare : string -> string -> Z.
Variable c : PackageInfoCache.t.
Hypothesis consistent : consistentCompare localeCompare.

Lemma lexicographically_le (x y : PkgRef) :
  properlyNamed c x -> properlyNamed c y ->
  (lexicographically localeCompare (namedObj c x) (namedObj c y) <= 0)%Z ->
  nameOrder localeCompare (namedObj c x) (namedObj c y).
Proof.
  unfold properlyNamed, lexicographically, nameOrder.
  destruct (name (namedObj c x)) as [xn|], (name (namedObj c y)) as [yn|];
    intros Hx Hy; try tauto; try lia.
  destruct (String.eqb_spec xn EmptyString); [congruence|].
  destruct (String.eqb_spec yn EmptyString); [congruence|].
  cbn. tauto.
Qed.

Lemma lexicographically_gt (x y : PkgRef) :
  properlyNamed c x -> properlyNamed c y ->
  (lexicographically localeCompare (namedObj c x) (namedObj c y) > 0)%Z ->
  nameOrder localeCompare (namedObj c y) (namedObj c x).
Proof.
  unfold properlyNamed, lexicographically, nameOrder.
  destruct (name (namedObj c x)) as [xn|], (name (namedObj c y)) as [yn|];
    intros Hx Hy; try tauto; try lia.
  destruct (String.eqb_spec xn EmptyString); [congruence|].
  destruct (String.eqb_spec yn EmptyString); [congruence|].
  cbn. apply consistent.
Qed.

Lemma nameOrder_trans (x y z : PkgRef) :
  nameOrder localeCompare (namedObj c x) (namedObj c y) ->
  nameOrder localeCompare (namedObj c y) (namedObj c z) ->
  nameOrder localeCompare (namedObj c x) (namedObj c z).
Proof.
  unfold nameOrder.
  destruct (name (namedObj c x)), (name (namedObj c y)), (name (namedObj c z));
    try tauto.
  apply consistent.
Qed.
End AddPackagesFacts.

(** C9 (amended). [addPackages] sorts the candidates that are not
    excluded by package name, a named node before a nameless one, and
    appends them in that order to the child list.  An appended node that is
    already in the list leaves its old position and is pushed at the end,
    so a list without duplicates stays without duplicates: it is the old
    list without the appended nodes, followed by the appended nodes, each
    once. *)
Theorem addPackages_sorted_unique
    (localeCompare : string -> string -> Z) (c : PackageInfoCache.t)
    (packageList : list PkgRef) (packageInfos : list PkgRef + JsMap.t PkgRef)
    (excludeFn : option (PkgRef -> bool)) :
  consistentCompare localeCompare ->
  (forall r, In r (match packageInfos with
                   | inl array => array
                   | inr map => JsMap.values map
                   end) -> properlyNamed c r) ->
  List.NoDup packageList ->
  let candidates :=
    List.filter (fun value => match excludeFn with
                              | None => true
                              | Some excluded => negb (excluded value)
                              end)
      (match packageInfos with
       | inl array => array
       | inr map => JsMap.values map
       end) in
  let result := snd (addPackages localeCompare c packageList packageInfos excludeFn) in
  let list' := fst (addPackages localeCompare c packageList packageInfos excludeFn) in
  Permutation candidates result
  /\ StronglySorted (fun a b => nameOrder localeCompare (namedObj c a) (namedObj c b)) result
  /\ list' = List.filter (fun y => bool_decide (y ∉ result)) packageList
             ++ remove_dups result
  /\ List.NoDup list'
  /\ (forall r, In r list' <-> In r packageList \/ In r result).
Proof.
  intros Hlc Hnamed Hnd candidates result list'.
  assert (Hperm : Permutation candidates result) by apply array_sort_perm.
  assert (Hlist : list' = List.filter (fun y => bool_decide (y ∉ result)) packageList
                          ++ remove_dups result).
  { unfold list', addPackages. cbn [fst]. now apply fold_pushUnique. }
  split; [exact Hperm|]. split; [|split; [exact Hlist|]].
  - unfold result, addPackages. cbn [snd].
    apply (array_sort_sorted _ _ (properlyNamed c)).
    + intros x y Hx Hy. now apply lexicographically_le.
    + intros x y Hx Hy. now apply lexicographically_gt.
    + intros x y z _ _ _. now apply nameOrder_trans.
    + apply List.Forall_forall. intros r Hr.
      apply List.filter_In in Hr as [Hr _]. auto.
  - split.
    + rewrite Hlist. apply NoDup_ListNoDup, NoDup_app. repeat split.
      * apply NoDup_ListNoDup. now apply List.NoDup_filter.
      * intros y Hy Hy'. apply list_elem_of_In, List.filter_In in Hy as [_ Hy].
        apply bool_decide_eq_true_1 in Hy. apply Hy.
        exact (proj1 (elem_of_remove_dups _ _) Hy').
      * apply NoDup_remove_dups.
    + intros r. rewrite Hlist, List.in_app_iff, List.filter_In. split.
      * intros [[Hr _]|Hr]; [now left|right].
        apply list_elem_of_In. apply list_elem_of_In in Hr.
        exact (proj1 (elem_of_remove_dups _ _) Hr).
      * intros Hr. destruct (decide (r ∈ result)) as [Hin|Hnin].
        -- right. apply list_elem_of_In.
           exact (proj2 (elem_of_remove_dups _ _) Hin).
        -- left. destruct Hr as [Hr|Hr].
           ++ split; [assumption|]. now apply bool_decide_eq_true_2.
           ++ exfalso. now apply Hnin, list_elem_of_In.
Qed.

Lemma asciiCompare_le (a b : string) :
  (asciiCompare a b <= 0)%Z <-> a = b \/ OrdersEx.String_as_OT.lt a b.
Proof.
  unfold asciiCompare.
  destruct (OrdersEx.String_as_OT.compare_spec a b) as [He|Hlt|Hgt].
  - split; [now left|lia].
  - split; [now right|lia].
  - split; [lia|]. intros [->|Hlt]; exfalso.
    + exact (StrictOrder_Irreflexive (R := OrdersEx.String_as_OT.lt) b Hgt).
    + exact (StrictOrder_Irreflexive (R := OrdersEx.String_as_OT.lt) a
               (StrictOrder_Transitive (R := OrdersEx.String_as_OT.lt) _ _ _ Hlt Hgt)).
Qed.

Lemma asciiCompare_consistent : consistentCompare asciiCompare.
Proof.
  split.
  - intros a b Hgt. apply asciiCompare_le. revert Hgt. unfold asciiCompare.
    destruct (OrdersEx.String_as_OT.compare_spec a b) as [He|Hlt|Hgt];
      try lia. now right.
  - intros a b d Hab Hbd. apply asciiCompare_le.
    apply asciiCompare_le in Hab, Hbd.
    destruct Hab as [->|Hab]; [assumption|].
    destruct Hbd as [->|Hbd]; [now right|]. right.
    exact (StrictOrder_Transitive (R := OrdersEx.String_as_OT.lt) _ _ _ Hab Hbd).
Qed.

Lemma addPackages_sorted_unique_witness :
  addPackages asciiCompare namedAndNameless [0%nat] (inl [1%nat; 0%nat]) None
  = ([0%nat; 1%nat], [0%nat; 1%nat])
  /\ List.NoDup (fst (addPackages asciiCompare namedAndNameless [0%nat]
                        (inl [1%nat; 0%nat]) None)).
Proof.
  split; [reflexivity|].
  refine (proj1 (proj2 (proj2 (proj2
    (addPackages_sorted_unique asciiCompare namedAndNameless [0%nat]
       (inl [1%nat; 0%nat]) None asciiCompare_consistent _ _))))).
  - intros r [<-|[<-|[]]]; discriminate.
  - repeat constructor. intros [].
Defined.

(** C9, as worded, fails twice.  The claim has nameless nodes sorted
    before named ones: with a package named ["a"] (object 0) and a nameless
    package (object 1) as candidates, the named one comes first.  And the
    claim has every node at most once in the resulting list: [pushUnique]
    removes one occurrence only, so a list that holds a node twice still
    holds it twice after another node is appended. *)
Lemma addPackages_nameless_first_counterexample :
  let result := snd (addPackages asciiCompare namedAndNameless []
                       (inl [1%nat; 0%nat]) None) in
  result = [0%nat; 1%nat]
  /\ name (namedObj namedAndNameless 0%nat) = Some "a"
  /\ name (namedObj namedAndNameless 1%nat) = None
  /\ ~ StronglySorted (fun a b => namelessFirst (namedObj namedAndNameless a)
                                    (namedObj namedAndNameless b)) result
  /\ fst (addPackages asciiCompare namedAndNameless [0%nat; 0%nat]
            (inl [1%nat]) None) = [0%nat; 0%nat; 1%nat]
  /\ ~ List.NoDup (fst (addPackages asciiCompare namedAndNameless [0%nat; 0%nat]
                          (inl [1%nat]) None)).
Proof.
  cbn zeta. split; [reflexivity|]. split; [reflexivity|]. split; [reflexivity|].
  split; [|split; [reflexivity|]].
  - intros Hs. change (snd (addPackages asciiCompare namedAndNameless []
                              (inl [1%nat; 0%nat]) None)) with [0%nat; 1%nat] in Hs.
    inversion Hs as [|? ? _ Hall]; subst.
    inversion Hall as [|? ? Hfirst _]; subst.
    exact Hfirst.
  - change (fst (addPackages asciiCompare namedAndNameless [0%nat; 0%nat]
                   (inl [1%nat]) None)) with [0%nat; 0%nat; 1%nat].
    intros Hnd. inversion Hnd as [|? ? Hin _]; subst.
    apply Hin. now left.
Qed.

(* ===================================================================== *)
(** ** Reasoning about computations *)
(* ===================================================================== *)

Lemma bind_Ok {A B} (m : M A) (k : A -> M B) c b c' :
  bind m k c = Ok b c' -> exists a c1, m c = Ok a c1 /\ k a c1 = Ok b c'.
Proof.
  unfold bind. destruct (m c) as [a c1| |]; [eauto|discriminate|discriminate].
Qed.

Lemma ret_Ok {A} (a b : A) c c' : ret a c = Ok b c' -> b = a /\ c' = c.
Proof. unfold ret. now intros [= <- <-]. Qed.

Lemma liftCompletion_Ok {A} (r : PackageInfoCache.t -> Completion A) c a c' :
  liftCompletion r c = Ok a c' -> c' = c /\ r c = Return a.
Proof.
  unfold liftCompletion. destruct (r c); [|discriminate|discriminate].
  now intros [= <- <-].
Qed.

Lemma readPackageInfo_Ok r c p c' :
  readPackageInfo r c = Ok p c' ->
  c' = c /\ PackageInfoCache.packageInfos c !! r = Some p.
Proof.
  unfold readPackageInfo.
  destruct (PackageInfoCache.packageInfos c !! r); [|discriminate].
  now intros [= <- <-].
Qed.

Lemma updatePackageInfo_Ok r f c u c' :
  updatePackageInfo r f c = Ok u c' ->
  exists p, PackageInfoCache.packageInfos c !! r = Some p
            /\ c' = PackageInfoCache.set_packageInfos
                      (<[r := f p]> (PackageInfoCache.packageInfos c)) c.
Proof.
  unfold updatePackageInfo.
  destruct (PackageInfoCache.packageInfos c !! r) as [p|]; [|discriminate].
  intros [= _ <-]. eauto.
Qed.

Lemma updateNodeModulesList_Ok r f c u c' :
  updateNodeModulesList r f c = Ok u c' ->
  exists n l, r = ListAt n
              /\ PackageInfoCache.nodeModulesLists c !! n = Some l
              /\ c' = PackageInfoCache.set_nodeModulesLists
                        (<[n := f l]> (PackageInfoCache.nodeModulesLists c)) c.
Proof.
  unfold updateNodeModulesList. destruct r as [|n]; [discriminate|].
  destruct (PackageInfoCache.nodeModulesLists c !! n) as [l|] eqn:Hl; [|discriminate].
  intros [= _ <-]. exists n, l. auto.
Qed.

(** A property that every call of the callback preserves is preserved by
    [forEach]. *)
Lemma forEach_preserves {A} (P : PackageInfoCache.t -> Prop)
    (array : list A) (callback : A -> M unit) :
  (forall x c u c', In x array -> P c -> callback x c = Ok u c' -> P c') ->
  forall c u c', P c -> forEach array callback c = Ok u c' -> P c'.
Proof.
  induction array as [|x rest IH]; intros Hstep c u c' HP Hrun.
  - apply ret_Ok in Hrun as [_ ->]. assumption.
  - cbn [forEach] in Hrun. apply bind_Ok in Hrun as (u1 & c1 & Hx & Hrest).
    eapply IH; [|eapply Hstep; [now left|exact HP|exact Hx]|exact Hrest].
    intros y d v d' Hy. apply Hstep. now right.
Qed.

Tactic Notation "bind_inv" hyp(H) "as" simple_intropattern(a)
    simple_intropattern(c) ident(E) :=
  apply bind_Ok in H as (a & c & E & H).

(* ===================================================================== *)
(** ** Extension of the cache *)
(* ===================================================================== *)

Section Extension.
Variable fs : FileSystem.

Lemma extends_refl c : extends fs c c.
Proof.
  split; [reflexivity|reflexivity|auto| |auto]. intros _ k Hn Hs. contradiction.
Qed.

Lemma extends_trans c1 c2 c3 :
  extends fs c1 c2 -> extends fs c2 c3 -> extends fs c1 c3.
Proof.
  intros [Hp Hl He Hk Huniq] [Hp' Hl' He' Hk' Huniq']. split.
  - etransitivity; eassumption.
  - etransitivity; eassumption.
  - auto.
  - intros Hcanon k Hn Hs.
    destruct (PackageInfoCache.getEntry c2 k) eqn:E2.
    + apply Hk; [assumption|assumption|congruence].
    + apply Hk'; assumption.
  - auto.
Qed.

Lemma extends_allocatePackageInfo c c1 p r c2 :
  extends fs c c1 -> allocatePackageInfo p c1 = Ok r c2 ->
  extends fs c c2
  /\ r = length (PackageInfoCache.packageInfos c1)
  /\ PackageInfoCache.packageInfos c2 !! r = Some p
  /\ PackageInfoCache.entries c2 = PackageInfoCache.entries c1.
Proof.
  intros [Hp Hl He Hk Huniq]. unfold allocatePackageInfo. intros [= <- <-].
  split; [split; cbn; auto|].
  - etransitivity; [exact Hp|]. now apply prefix_app_r.
  - split; [reflexivity|]. split; [|reflexivity]. cbn.
    rewrite lookup_app_r by lia. now rewrite Nat.sub_diag.
Qed.

Lemma extends_allocateNodeModulesList c c1 l r c2 :
  extends fs c c1 -> allocateNodeModulesList l c1 = Ok r c2 ->
  extends fs c c2
  /\ r = ListAt (length (PackageInfoCache.nodeModulesLists c1))
  /\ PackageInfoCache.entries c2 = PackageInfoCache.entries c1.
Proof.
  intros [Hp Hl He Hk Huniq]. unfold allocateNodeModulesList. intros [= <- <-].
  split; [split; cbn; auto|auto].
  etransitivity; [exact Hl|]. now apply prefix_app_r.
Qed.

Lemma prefix_insert_fresh {A} (l l' : list A) (i : nat) (x : A) :
  l `prefix_of` l' -> length l <= i -> l `prefix_of` <[i := x]> l'.
Proof.
  intros [t ->] Hi. exists (<[i - length l := x]> t).
  now rewrite insert_app_r_alt.
Qed.

(** Assigning to an object created after [c] keeps the extension. *)
Lemma extends_updatePackageInfo c c1 r f u c2 :
  extends fs c c1 -> length (PackageInfoCache.packageInfos c) <= r ->
  updatePackageInfo r f c1 = Ok u c2 ->
  extends fs c c2
  /\ PackageInfoCache.entries c2 = PackageInfoCache.entries c1.
Proof.
  intros [Hp Hl He Hk Huniq] Hr Hu.
  apply updatePackageInfo_Ok in Hu as (p & Hget & ->).
  split; [split; cbn; auto|reflexivity].
  now apply prefix_insert_fresh.
Qed.

Lemma extends_updateNodeModulesList c c1 n f u c2 :
  extends fs c c1 -> length (PackageInfoCache.nodeModulesLists c) <= n ->
  updateNodeModulesList (ListAt n) f c1 = Ok u c2 ->
  extends fs c c2
  /\ PackageInfoCache.entries c2 = PackageInfoCache.entries c1
  /\ PackageInfoCache.packageInfos c2 = PackageInfoCache.packageInfos c1.
Proof.
  intros [Hp Hl He Hk Huniq] Hr Hu.
  apply updateNodeModulesList_Ok in Hu as (n' & l & [= <-] & Hget & ->).
  split; [split; cbn; auto|split; reflexivity].
  now apply prefix_insert_fresh.
Qed.

(** Registering under a key that was free in [c], and is canonical, keeps
    the extension. *)
Lemma extends_addEntry c c1 k e :
  extends fs c c1 -> PackageInfoCache.getEntry c k = None ->
  (realPathsAreCanonical fs -> canonicalKey fs k) ->
  extends fs c (PackageInfoCache.addEntry k e c1).
Proof.
  intros [Hp Hl He Hk Huniq] Hfree Hcan. split; cbn; auto.
  - intros k' e' Hget. unfold PackageInfoCache.getEntry, PackageInfoCache.addEntry. cbn.
    rewrite JsMapFacts.get_set_ne; [now apply He|].
    intros ->. unfold PackageInfoCache.getEntry in *. congruence.
  - intros Hcanon k' Hnone Hsome.
    destruct (String.eqb_spec k k') as [<-|Hne]; [auto|].
    apply Hk; [assumption|assumption|].
    unfold PackageInfoCache.getEntry, PackageInfoCache.addEntry in Hsome. cbn in Hsome.
    now rewrite JsMapFacts.get_set_ne in Hsome.
  - intros Hnd. apply JsMapFacts.keys_set_NoDup. auto.
Qed.

Lemma getEntry_addEntry k e c :
  PackageInfoCache.getEntry (PackageInfoCache.addEntry k e c) k = Some e.
Proof. apply JsMapFacts.get_set_eq. Qed.

Lemma extends_length c c' :
  extends fs c c' ->
  length (PackageInfoCache.packageInfos c) <= length (PackageInfoCache.packageInfos c')
  /\ length (PackageInfoCache.nodeModulesLists c)
     <= length (PackageInfoCache.nodeModulesLists c').
Proof. intros [Hp Hl _ _ _]. split; now apply prefix_length. Qed.

Lemma extends_lookup c c' r p :
  extends fs c c' -> PackageInfoCache.packageInfos c !! r = Some p ->
  PackageInfoCache.packageInfos c' !! r = Some p.
Proof. intros [Hp _ _ _ _] Hr. eapply prefix_lookup_Some; eassumption. Qed.
End Extension.

(* ===================================================================== *)
(** ** The readers extend the cache *)
(* ===================================================================== *)

Section ReadersExtend.
Variable fs : FileSystem.
Variable path : PathModule.

Section Bodies.
Variable readPackage' : string -> bool -> M PkgRef.
Variable readNodeModulesList' : string -> M (option ListRef).
Hypothesis readPackage_extends' :
  forall dir isRoot c r c', readPackage' dir isRoot c = Ok r c' -> extends fs c c'.
Hypothesis readNodeModulesList_extends' :
  forall dir c l c', readNodeModulesList' dir c = Ok l c' -> extends fs c c'.

Lemma filling_call c realPath r c1 c2 :
  filling fs c realPath r c1 -> extends fs c1 c2 -> filling fs c realPath r c2.
Proof.
  intros (He & Hr & Hg) He'. split; [|split].
  - eapply extends_trans; eassumption.
  - assumption.
  - eapply extends_entries; eassumption.
Qed.

Lemma filling_update c realPath r c1 f u c2 :
  filling fs c realPath r c1 -> updatePackageInfo r f c1 = Ok u c2 ->
  filling fs c realPath r c2.
Proof.
  intros (He & Hr & Hg) Hu.
  destruct (extends_updatePackageInfo fs _ _ _ _ _ _ He Hr Hu) as [He' Hent].
  split; [assumption|split; [assumption|]].
  unfold PackageInfoCache.getEntry in *. now rewrite Hent.
Qed.

Lemma addInRepoAddonPath_filling c realPath r c1 p u c2 :
  filling fs c realPath r c1 ->
  addInRepoAddonPath path readPackage' r realPath p c1 = Ok u c2 ->
  filling fs c realPath r c2.
Proof.
  intros Hf Hrun. unfold addInRepoAddonPath in Hrun.
  destruct p as [| | |p| |]; try discriminate.
  bind_inv Hrun as addonPkgInfo d1 Hcall. apply readPackage_extends' in Hcall.
  pose proof (filling_call _ _ _ _ _ Hf Hcall) as Hf1.
  bind_inv Hrun as addon d2 Hread. apply readPackageInfo_Ok in Hread as [-> _].
  destruct (instanceofEmberAddonPackageInfo (PackageInfo.class addon)).
  - bind_inv Hrun as self d3 Hread. apply readPackageInfo_Ok in Hread as [-> _].
    destruct (_ || _); [|discriminate].
    eapply filling_update; eassumption.
  - eapply filling_update; eassumption.
Qed.

Lemma createPackage_extends realPath pathFailed setupErrors isRoot c r c' :
  PackageInfoCache.getEntry c realPath = None ->
  (realPathsAreCanonical fs -> canonicalKey fs realPath) ->
  createPackage fs path readPackage' readNodeModulesList'
    realPath pathFailed setupErrors isRoot c = Ok r c' ->
  extends fs c c' /\ PackageInfoCache.getEntry c' realPath = Some (EPackage r).
Proof.
  intros Hfree Hcan Hrun. unfold createPackage in Hrun.
  destruct (readPackageJson fs path realPath pathFailed setupErrors) as [packageJson errors].
  bind_inv Hrun as new d0 Hnew.
  destruct (extends_allocatePackageInfo fs c c _ _ _ (extends_refl fs c) Hnew)
    as (He0 & Hr & _ & Hent0).
  assert (Hf0 : extends fs c d0 /\ length (PackageInfoCache.packageInfos c) <= new
                /\ PackageInfoCache.getEntry d0 realPath = None).
  { split; [assumption|split; [lia|]].
    unfold PackageInfoCache.getEntry in *. now rewrite Hent0. }
  clear Hnew He0 Hent0. bind_inv Hrun as u1 d1 Hset.
  assert (Hf1 : extends fs c d1 /\ length (PackageInfoCache.packageInfos c) <= new).
  { destruct Hf0 as (He & Hlen & _).
    destruct (ErrorList.hasErrors errors).
    - destruct (extends_updatePackageInfo fs _ _ _ _ _ _ He Hlen Hset). auto.
    - apply ret_Ok in Hset as [_ ->]. auto. }
  clear Hset Hf0. bind_inv Hrun as u2 d2 Hadd. injection Hadd as _ <-.
  assert (Hf2 : filling fs c realPath new
                  (PackageInfoCache.addEntry realPath (EPackage new) d1)).
  { destruct Hf1 as [He Hlen]. split; [|split].
    - now apply extends_addEntry.
    - assumption.
    - apply getEntry_addEntry. }
  clear Hf1. revert Hf2 Hrun.
  generalize (PackageInfoCache.addEntry realPath (EPackage new) d1). clear d1.
  intros d2 Hf2 Hrun.
  bind_inv Hrun as self d3 Hread. apply readPackageInfo_Ok in Hread as [-> _].
  bind_inv Hrun as u3 d3 Hpaths.
  assert (Hf3 : filling fs c realPath new d3).
  { destruct (isStringArray _) as [paths|].
    - eapply (forEach_preserves (filling fs c realPath new)); [|exact Hf2|exact Hpaths].
      intros p d u d' _ Hd. now apply addInRepoAddonPath_filling.
    - apply ret_Ok in Hpaths as [_ ->]. assumption. }
  clear Hpaths Hf2. bind_inv Hrun as self' d4 Hread.
  apply readPackageInfo_Ok in Hread as [-> _].
  bind_inv Hrun as u4 d4 Hmodules. apply ret_Ok in Hrun as [-> ->].
  assert (Hf4 : filling fs c realPath new d4).
  { destruct (_ || _).
    - bind_inv Hmodules as nodeModules d5 Hcall.
      apply readNodeModulesList_extends' in Hcall.
      pose proof (filling_call _ _ _ _ _ Hf3 Hcall) as Hf4.
      destruct nodeModules as [l|].
      + eapply filling_update; eassumption.
      + apply ret_Ok in Hmodules as [_ ->]. assumption.
    - eapply filling_update; eassumption. }
  destruct Hf4 as (He & _ & Hg). auto.
Qed.

Lemma readPackage_body_extends packageDir isRoot c r c' :
  readPackage_body fs path readPackage' readNodeModulesList' packageDir isRoot c
  = Ok r c' ->
  extends fs c c'
  /\ (realPathsAreCanonical fs -> registered fs path packageDir r c').
Proof.
  unfold readPackage_body, registered. cbn zeta.
  set (normalized := normalize path packageDir).
  destruct (PackageInfoCache.getEntry c normalized) as [[r0|l0]|] eqn:Hentry;
    [|discriminate|].
  { intros [= <- <-]. split; [apply extends_refl|]. intros _. now left. }
  destruct (getRealDirectoryPath fs normalized) as [realPath|] eqn:Hreal.
  - destruct (String.eqb_spec realPath normalized) as [->|Hne]; cbn [negb].
    + intros Hrun.
      apply createPackage_extends in Hrun as [He Hg];
        [|assumption|intros _; now right].
      split; [assumption|]. intros _. now left.
    + destruct (PackageInfoCache.getEntry c realPath) as [[r0|l0]|] eqn:Hentry';
        [|discriminate|].
      * intros [= <- <-]. split; [apply extends_refl|]. intros _. right.
        split; [assumption|]. exists realPath. auto.
      * intros Hrun.
        apply createPackage_extends in Hrun as [He Hg];
          [|assumption|intros Hcanon; right; eapply Hcanon; eassumption].
        split; [assumption|]. intros Hcanon. right. split.
        -- destruct (PackageInfoCache.getEntry c' normalized) eqn:Hafter;
             [|reflexivity].
           exfalso.
           destruct (extends_keys _ _ _ He Hcanon normalized Hentry) as [Hk|Hk];
             congruence.
        -- exists realPath. auto.
  - intros Hrun.
    apply createPackage_extends in Hrun as [He Hg];
      [|assumption|intros _; now left].
    split; [assumption|]. intros _. now left.
Qed.

Lemma readNodeModulesEntry_extends c n realPath entryName c1 u c2 :
  extends fs c c1 -> length (PackageInfoCache.nodeModulesLists c) <= n ->
  readNodeModulesEntry fs path readPackage' readNodeModulesList'
    (ListAt n) realPath entryName c1 = Ok u c2 ->
  extends fs c c2.
Proof.
  intros He Hn Hrun. unfold readNodeModulesEntry in Hrun.
  destruct (truthyPath _).
  { apply ret_Ok in Hrun as [_ ->]. assumption. }
  destruct (startsWith entryName "@").
  - bind_inv Hrun as entryVal d1 Hcall.
    apply readNodeModulesList_extends' in Hcall.
    assert (He1 : extends fs c d1) by (eapply extends_trans; eassumption).
    destruct entryVal as [l|];
      now destruct (extends_updateNodeModulesList fs _ _ _ _ _ _ He1 Hn Hrun).
  - bind_inv Hrun as entryVal d1 Hcall.
    apply readPackage_extends' in Hcall.
    assert (He1 : extends fs c d1) by (eapply extends_trans; eassumption).
    now destruct (extends_updateNodeModulesList fs _ _ _ _ _ _ He1 Hn Hrun).
Qed.

Lemma createNodeModulesList_extends realPath c l c' :
  PackageInfoCache.getEntry c realPath = None ->
  (realPathsAreCanonical fs -> canonicalKey fs realPath) ->
  createNodeModulesList fs path readPackage' readNodeModulesList' realPath c
  = Ok l c' ->
  extends fs c c'.
Proof.
  intros Hfree Hcan Hrun. unfold createNodeModulesList in Hrun.
  bind_inv Hrun as new d0 Hnew.
  destruct (extends_allocateNodeModulesList fs c c _ _ _ (extends_refl fs c) Hnew)
    as (He0 & -> & _).
  bind_inv Hrun as u1 d1 Hentries.
  assert (He1 : extends fs c d1).
  { eapply (forEach_preserves (extends fs c)); [|exact He0|exact Hentries].
    intros entryName d u d' _ Hd Hstep.
    eapply readNodeModulesEntry_extends; [exact Hd| |exact Hstep]. lia. }
  bind_inv Hrun as u2 d2 Hadd. injection Hadd as _ <-.
  apply ret_Ok in Hrun as [_ ->].
  now apply extends_addEntry.
Qed.

Lemma readNodeModulesList_body_extends nodeModulesDir c l c' :
  readNodeModulesList_body fs path readPackage' readNodeModulesList'
    nodeModulesDir c = Ok l c' ->
  extends fs c c'.
Proof.
  unfold readNodeModulesList_body. cbn zeta.
  set (normalized := normalize path nodeModulesDir).
  destruct (PackageInfoCache.getEntry c normalized) as [[r0|l0]|] eqn:Hentry;
    [discriminate| |].
  { intros [= <- <-]. apply extends_refl. }
  destruct (getRealDirectoryPath fs normalized) as [realPath|] eqn:Hreal.
  - destruct (String.eqb_spec realPath normalized) as [->|Hne]; cbn [negb].
    + intros Hrun. eapply createNodeModulesList_extends; [| |exact Hrun].
      * assumption.
      * intros _. now right.
    + destruct (PackageInfoCache.getEntry c realPath) as [[r0|l0]|] eqn:Hentry';
        [discriminate| |].
      * intros [= <- <-]. apply extends_refl.
      * intros Hrun. eapply createNodeModulesList_extends; [| |exact Hrun].
        -- assumption.
        -- intros Hcanon. right. eapply Hcanon. eassumption.
  - intros [= <- <-]. apply extends_refl.
Qed.
End Bodies.

(** Reading a package or a listing, at any depth, extends the cache, and
    the package returned is the one registered for the directory. *)
Lemma readers_extend (fuel : nat) :
  (forall dir isRoot c r c',
      readPackage fs path fuel dir isRoot c = Ok r c' ->
      extends fs c c'
      /\ (realPathsAreCanonical fs -> registered fs path dir r c'))
  /\ (forall dir c l c',
      readNodeModulesList fs path fuel dir c = Ok l c' -> extends fs c c').
Proof.
  induction fuel as [|fuel [IHp IHl]]; [split; discriminate|].
  split.
  - intros dir isRoot c r c' Hrun. cbn [readPackage] in Hrun.
    eapply readPackage_body_extends; [| |exact Hrun].
    + intros d i c0 r0 c0' H0. now apply IHp in H0.
    + exact IHl.
  - intros dir c l c' Hrun. cbn [readNodeModulesList] in Hrun.
    eapply readNodeModulesList_body_extends; [| |exact Hrun].
    + intros d i c0 r0 c0' H0. now apply IHp in H0.
    + exact IHl.
Qed.

Lemma readPackage_extends fuel dir isRoot c r c' :
  readPackage fs path fuel dir isRoot c = Ok r c' -> extends fs c c'.
Proof. intros H. now apply (proj1 (readers_extend fuel)) in H. Qed.

Lemma readPackage_registered fuel dir isRoot c r c' :
  realPathsAreCanonical fs ->
  readPackage fs path fuel dir isRoot c = Ok r c' -> registered fs path dir r c'.
Proof. intros Hc H. apply (proj1 (readers_extend fuel)) in H as [_ H]. auto. Qed.

Lemma readNodeModulesList_extends fuel dir c l c' :
  readNodeModulesList fs path fuel dir c = Ok l c' -> extends fs c c'.
Proof. apply (proj2 (readers_extend fuel)). Qed.
End ReadersExtend.

(* ===================================================================== *)
(** ** Evolution of the cache *)
(* ===================================================================== *)

Section Evolution.
Variable fs : FileSystem.

Lemma evolves_refl c : evolves fs c c.
Proof.
  split; [auto| |auto|eauto]. intros _ k Hn Hs. contradiction.
Qed.

Lemma evolves_trans c1 c2 c3 :
  evolves fs c1 c2 -> evolves fs c2 c3 -> evolves fs c1 c3.
Proof.
  intros [He Hk Hu Hp] [He' Hk' Hu' Hp']. split.
  - auto.
  - intros Hcanon k Hn Hs.
    destruct (PackageInfoCache.getEntry c2 k) eqn:E2.
    + apply Hk; [assumption|assumption|congruence].
    + apply Hk'; assumption.
  - auto.
  - intros r p Hr. destruct (Hp r p Hr) as (p1 & Hr1 & Hproc1).
    destruct (Hp' r p1 Hr1) as (p2 & Hr2 & Hproc2). eauto.
Qed.

Lemma extends_evolves c c' : extends fs c c' -> evolves fs c c'.
Proof.
  intros [Hp Hl He Hk Hu]. split; [assumption|assumption|assumption|].
  intros r p Hr. exists p. split; [|auto].
  eapply prefix_lookup_Some; eassumption.
Qed.

Lemma evolves_insert r p q c :
  PackageInfoCache.packageInfos c !! r = Some p ->
  (PackageInfo.processed p = true -> PackageInfo.processed q = true) ->
  evolves fs c (PackageInfoCache.set_packageInfos
                  (<[r := q]> (PackageInfoCache.packageInfos c)) c).
Proof.
  intros Hget Hq. split.
  - auto.
  - intros _ k Hn Hs. contradiction.
  - auto.
  - intros r' p' Hr'.
    cbn [PackageInfoCache.packageInfos PackageInfoCache.set_packageInfos].
    destruct (decide (r = r')) as [<-|Hne].
    + exists q. rewrite list_lookup_insert_eq by (eapply lookup_lt_Some; eassumption).
      split; [reflexivity|].
      pose proof (eq_trans (eq_sym Hr') Hget) as Heq. injection Heq as ->.
      assumption.
    + exists p'. rewrite list_lookup_insert_ne by assumption. auto.
Qed.

Lemma evolves_updatePackageInfo r f c u c' :
  (forall p, PackageInfo.processed p = true -> PackageInfo.processed (f p) = true) ->
  updatePackageInfo r f c = Ok u c' -> evolves fs c c'.
Proof.
  intros Hf Hu. apply updatePackageInfo_Ok in Hu as (p & Hget & ->).
  eapply evolves_insert; eauto.
Qed.

Lemma evolves_set_rootPackage v c :
  evolves fs c (PackageInfoCache.set_rootPackage v c).
Proof.
  split; cbn; [auto| |auto|eauto]. intros _ k Hn Hs. contradiction.
Qed.
End Evolution.

(* ===================================================================== *)
(** ** The upward search and the dependency helpers *)
(* ===================================================================== *)

Lemma NodeModulesList_findPackage_Ok this packageName c found c' :
  NodeModulesList_findPackage this packageName c = Ok found c' ->
  c' = c
  /\ NodeModulesList.findPackage NodeModulesList.FIND_DEPTH
       (PackageInfoCache.nodeModulesLists c) this (Some packageName)
     = Return found.
Proof.
  unfold NodeModulesList_findPackage. intros H.
  now apply liftCompletion_Ok in H.
Qed.

Section SearchFacts.
Variable fs : FileSystem.
Variable path : PathModule.

Lemma findPackage_loop_extends steps fuel packageName root currPath c found c' :
  findPackage_loop fs path steps fuel packageName root currPath c = Ok found c' ->
  extends fs c c'.
Proof.
  revert currPath c. induction steps as [|steps IH]; intros currPath c Hrun;
    [discriminate|].
  cbn [findPackage_loop] in Hrun.
  destruct (String.eqb currPath root).
  { apply ret_Ok in Hrun as [_ ->]. apply extends_refl. }
  bind_inv Hrun as nodeModulesList d1 Hcall.
  apply readNodeModulesList_extends in Hcall.
  destruct nodeModulesList as [l|].
  - bind_inv Hrun as pkg d2 Hfind.
    apply NodeModulesList_findPackage_Ok in Hfind as [-> _].
    destruct pkg as [e|].
    + apply ret_Ok in Hrun as [_ ->]. assumption.
    + eapply extends_trans; [exact Hcall|eauto].
  - eapply extends_trans; [exact Hcall|eauto].
Qed.

Lemma findPackage_extends steps fuel packageName startPath c found c' :
  findPackage fs path steps fuel packageName startPath c = Ok found c' ->
  extends fs c c'.
Proof. apply findPackage_loop_extends. Qed.

Section Helpers.
Variable cache_findPackage : string -> string -> M (option Entry).
Hypothesis cache_findPackage_extends :
  forall name dir c found c',
    cache_findPackage name dir c = Ok found c' -> extends fs c c'.

Lemma lookupDependency_extends this dependencyName c found c' :
  lookupDependency path cache_findPackage this dependencyName c = Ok found c' ->
  extends fs c c'.
Proof.
  unfold lookupDependency. intros Hrun.
  bind_inv Hrun as self d1 Hread. apply readPackageInfo_Ok in Hread as [-> _].
  bind_inv Hrun as own d2 Hown.
  assert (d2 = c) as ->.
  { destruct (PackageInfo.nodeModules self).
    - now apply NodeModulesList_findPackage_Ok in Hown as [-> _].
    - now apply ret_Ok in Hown as [_ ->]. }
  destruct own as [e|].
  - apply ret_Ok in Hrun as [_ ->]. apply extends_refl.
  - eauto.
Qed.

(** The names split between the keys added to [packages] and the names
    pushed on [missingDependencies]. *)
Lemma addEachDependency_partition this dependencyNames acc c acc' c' :
  addEachDependency path cache_findPackage this dependencyNames acc c = Ok acc' c' ->
  extends fs c c'
  /\ (List.NoDup dependencyNames ->
      (forall n, In n dependencyNames -> JsMap.get (fst acc) n = None) ->
      exists found missing,
        JsMap.keys (fst acc') = JsMap.keys (fst acc) ++ found
        /\ snd acc' = snd acc ++ missing
        /\ Permutation dependencyNames (found ++ missing)).
Proof.
  revert acc c. induction dependencyNames as [|n rest IH]; intros acc c Hrun.
  - apply ret_Ok in Hrun as [-> ->]. split; [apply extends_refl|].
    intros _ _. exists [], []. now rewrite !app_nil_r.
  - cbn [addEachDependency] in Hrun. bind_inv Hrun as acc1 d1 Hstep.
    unfold addDependency in Hstep. bind_inv Hstep as dep d2 Hlook.
    apply lookupDependency_extends in Hlook.
    apply IH in Hrun as [Hext Hpart].
    split.
    { eapply extends_trans; [exact Hlook|].
      destruct dep; apply ret_Ok in Hstep as [_ ->]; assumption. }
    intros Hnd Hfresh. inversion Hnd as [|? ? Hn Hnd']; subst.
    destruct dep as [e|]; apply ret_Ok in Hstep as [-> _]; cbn [fst snd] in Hpart.
    + destruct Hpart as (found & missing & Hk & Hm & Hperm); [assumption| |].
      { intros m Hm. rewrite JsMapFacts.get_set_ne.
        - apply Hfresh. now right.
        - intros ->. contradiction. }
      exists (n :: found), missing.
      rewrite Hk, JsMapFacts.keys_set_absent by (apply Hfresh; now left).
      rewrite <- app_assoc. cbn. split; [reflexivity|]. split; [assumption|].
      now apply perm_skip.
    + destruct Hpart as (found & missing & Hk & Hm & Hperm); [assumption| |].
      { intros m Hm. apply Hfresh. now right. }
      exists found, (n :: missing).
      rewrite Hm, <- app_assoc. cbn. split; [assumption|]. split; [reflexivity|].
      now apply Permutation_cons_app.
Qed.

(** What [doAddDependencies] returns and leaves behind: nothing at all
    when there are no names; otherwise the packages found, and on the
    object one more error entry holding the names that were not found, if
    there are any. *)
Lemma doAddDependencies_result this dependenciesObj errorType listName c result c' p :
  PackageInfoCache.packageInfos c !! this = Some p ->
  doAddDependencies path cache_findPackage this dependenciesObj errorType listName c
  = Ok result c' ->
  match result with
  | None =>
      c' = c
      /\ match dependenciesObj with
         | Some obj => truthy obj = false \/ Object_keys obj = []
         | None => True
         end
  | Some packages =>
      exists obj missing c1,
        dependenciesObj = Some obj
        /\ Object_keys obj <> []
        /\ extends fs c c1
        /\ (List.NoDup (Object_keys obj) ->
            Permutation (Object_keys obj) (JsMap.keys packages ++ missing))
        /\ match missing with
           | [] => c' = c1
           | _ :: _ =>
               c' = PackageInfoCache.set_packageInfos
                      (<[this := PackageInfo.addError p errorType (DataNames missing)]>
                         (PackageInfoCache.packageInfos c1)) c1
           end
  end.
Proof.
  intros Hthis Hrun. unfold doAddDependencies in Hrun.
  destruct dependenciesObj as [obj|].
  2:{ apply ret_Ok in Hrun as [-> ->]. auto. }
  destruct (truthy obj) eqn:Htruthy; cbn [negb] in Hrun.
  2:{ apply ret_Ok in Hrun as [-> ->]. auto. }
  destruct (Nat.eqb_spec (length (Object_keys obj)) 0) as [Hlen|Hlen].
  { apply ret_Ok in Hrun as [-> ->]. split; [reflexivity|].
    right. now destruct (Object_keys obj). }
  bind_inv Hrun as acc c1 Hall. destruct acc as [packages missing].
  apply addEachDependency_partition in Hall as [Hext Hpart].
  bind_inv Hrun as u c2 Herr. apply ret_Ok in Hrun as [-> ->].
  exists obj, missing, c1. split; [reflexivity|].
  split; [now destruct (Object_keys obj)|]. split; [assumption|]. split.
  - intros Hnd. destruct (Hpart Hnd) as (found & missing' & Hk & Hm & Hperm).
    { reflexivity. }
    cbn in Hk, Hm. now subst.
  - destruct missing as [|m missing]; cbn in Herr.
    + now apply ret_Ok in Herr as [_ ->].
    + apply updatePackageInfo_Ok in Herr as (p1 & Hp1 & ->).
      rewrite (extends_lookup fs _ _ _ _ Hext Hthis) in Hp1.
      now injection Hp1 as <-.
Qed.
End Helpers.
End SearchFacts.

(* ===================================================================== *)
(** ** The resolution pass *)
(* ===================================================================== *)

Section ResolveFacts.
Variable fs : FileSystem.
Variable path : PathModule.
Variable cache_findPackage : string -> string -> M (option Entry).
Hypothesis cache_findPackage_extends :
  forall name dir c found c',
    cache_findPackage name dir c = Ok found c' -> extends fs c c'.

(** After [doAddDependencies] the object is the one before, with at most
    one more error entry, of the given type. *)
Lemma doAddDependencies_object this dependenciesObj errorType listName c result c' p :
  PackageInfoCache.packageInfos c !! this = Some p ->
  doAddDependencies path cache_findPackage this dependenciesObj errorType listName c
  = Ok result c' ->
  evolves fs c c'
  /\ exists p',
       PackageInfoCache.packageInfos c' !! this = Some p'
       /\ (p' = p
           \/ exists missing,
                p' = PackageInfo.addError p errorType (DataNames missing)).
Proof.
  intros Hthis Hrun.
  pose proof (doAddDependencies_result fs path _ cache_findPackage_extends
                _ _ _ _ _ _ _ _ Hthis Hrun) as Hres.
  destruct result as [packages|].
  - destruct Hres as (obj & missing & c1 & _ & _ & Hext & _ & Hc').
    pose proof (extends_lookup fs _ _ _ _ Hext Hthis) as Hthis1.
    destruct missing as [|m missing]; subst c'.
    + split; [now apply extends_evolves|]. eauto.
    + split.
      * eapply evolves_trans; [apply extends_evolves; exact Hext|].
        eapply evolves_insert; [exact Hthis1|auto].
      * exists (PackageInfo.addError p errorType (DataNames (m :: missing))).
        cbn [PackageInfoCache.packageInfos PackageInfoCache.set_packageInfos].
        rewrite list_lookup_insert_eq by (eapply lookup_lt_Some; eassumption).
        eauto.
  - destruct Hres as [-> _]. split; [apply evolves_refl|]. eauto.
Qed.

(** One step of the pass: the cache evolves and the object is processed. *)
Lemma resolvePackageDependencies_processed r c u c' :
  resolvePackageDependencies path cache_findPackage r c = Ok u c' ->
  evolves fs c c'
  /\ exists p', PackageInfoCache.packageInfos c' !! r = Some p'
                /\ PackageInfo.processed p' = true.
Proof.
  unfold resolvePackageDependencies. intros Hrun.
  bind_inv Hrun as p d0 Hread. apply readPackageInfo_Ok in Hread as [-> Hp].
  destruct (PackageInfo.processed p) eqn:Hproc; cbn [negb] in Hrun.
  { apply ret_Ok in Hrun as [_ ->]. split; [apply evolves_refl|]. eauto. }
  bind_inv Hrun as pkgs d1 Hdeps. unfold addDependencies in Hdeps.
  destruct (doAddDependencies_object _ _ _ _ _ _ _ _ Hp Hdeps) as (Hev1 & p1 & Hp1 & _).
  bind_inv Hrun as u2 d2 Hset.
  assert (Hev2 : evolves fs d1 d2).
  { eapply evolves_updatePackageInfo; [|exact Hset]. intros q H. exact H. }
  bind_inv Hrun as p2 d3 Hread. apply readPackageInfo_Ok in Hread as [-> Hp2].
  bind_inv Hrun as u3 d3 Hdev.
  assert (Hev3 : evolves fs d2 d3).
  { destruct (PackageInfo.isRoot p2).
    - bind_inv Hdev as pkgs' d4 Hdevs. unfold addDevDependencies in Hdevs.
      destruct (doAddDependencies_object _ _ _ _ _ _ _ _ Hp2 Hdevs) as (Hev & _).
      eapply evolves_trans; [exact Hev|].
      eapply evolves_updatePackageInfo; [|exact Hdev]. intros q H. exact H.
    - apply ret_Ok in Hdev as [_ ->]. apply evolves_refl. }
  split.
  - eapply evolves_trans; [exact Hev1|].
    eapply evolves_trans; [exact Hev2|].
    eapply evolves_trans; [exact Hev3|].
    eapply evolves_updatePackageInfo; [|exact Hrun]. intros q _. reflexivity.
  - apply updatePackageInfo_Ok in Hrun as (p3 & Hp3 & ->).
    exists (PackageInfo.set_processed true p3).
    cbn [PackageInfoCache.packageInfos PackageInfoCache.set_packageInfos].
    rewrite list_lookup_insert_eq by (eapply lookup_lt_Some; eassumption).
    auto.
Qed.

(** The pass over a list of objects: the cache evolves, and every object
    of the list is processed at the end. *)
Lemma forEach_resolve_processed packageInfos c u c' :
  forEach packageInfos (resolvePackageDependencies path cache_findPackage) c
  = Ok u c' ->
  evolves fs c c'
  /\ forall r, In r packageInfos ->
       exists p', PackageInfoCache.packageInfos c' !! r = Some p'
                  /\ PackageInfo.processed p' = true.
Proof.
  revert c. induction packageInfos as [|x rest IH]; intros c Hrun.
  - apply ret_Ok in Hrun as [_ ->]. split; [apply evolves_refl|]. intros r [].
  - cbn [forEach] in Hrun. bind_inv Hrun as u1 c1 Hx.
    apply resolvePackageDependencies_processed in Hx as (Hev1 & px & Hpx & Hproc).
    apply IH in Hrun as [Hev2 Hall].
    split; [eapply evolves_trans; eassumption|].
    intros r [<-|Hr]; [|auto].
    destruct (evolves_packageInfos _ _ _ Hev2 _ _ Hpx) as (p' & Hp' & Hsticky).
    eauto.
Qed.
End ResolveFacts.

(* ===================================================================== *)
(** ** loadApp *)
(* ===================================================================== *)

Section LoadFacts.
Variable fs : FileSystem.
Variable path : PathModule.

Lemma registered_evolves dir r c c' :
  realPathsAreCanonical fs ->
  registered fs path dir r c -> evolves fs c c' -> registered fs path dir r c'.
Proof.
  intros Hcanon Hreg Hev. unfold registered in *. cbn zeta in *.
  destruct Hreg as [Hn|(Hn & realPath & Hreal & Hne & Hr)].
  - left. eapply evolves_entries; eassumption.
  - right. split.
    + destruct (PackageInfoCache.getEntry c' (normalize path dir)) eqn:Hafter;
        [|reflexivity].
      exfalso.
      destruct (evolves_keys _ _ _ Hev Hcanon _ Hn) as [Hk|Hk]; congruence.
    + exists realPath. split; [assumption|]. split; [assumption|].
      eapply evolves_entries; eassumption.
Qed.

Lemma registered_getPackageInfos dir r c :
  registered fs path dir r c -> In r (PackageInfoCache.getPackageInfos c).
Proof.
  intros Hreg.
  assert (exists k, PackageInfoCache.getEntry c k = Some (EPackage r)) as [k Hk].
  { destruct Hreg as [Hn|(_ & realPath & _ & _ & Hr)]; eauto. }
  apply JsMapFacts.get_Some_In in Hk.
  unfold PackageInfoCache.getPackageInfos, JsMap.values.
  apply list_elem_of_In, list_elem_of_omap. exists (EPackage r).
  split; [|reflexivity].
  apply list_elem_of_In. apply (in_map snd) in Hk. exact Hk.
Qed.

(** A package that is registered for a directory is what reading that
    directory returns, with the cache as it is. *)
Lemma readPackage_registered_returns fuel dir isRoot r c :
  registered fs path dir r c ->
  readPackage fs path (S fuel) dir isRoot c = Ok r c.
Proof.
  intros Hreg. cbn [readPackage]. unfold readPackage_body. cbn zeta.
  destruct Hreg as [Hn|(Hn & realPath & Hreal & Hne & Hr)].
  - now rewrite Hn.
  - rewrite Hn, Hreal.
    destruct (String.eqb_spec realPath (normalize path dir)); [contradiction|].
    cbn [negb]. now rewrite Hr.
Qed.

Lemma resolveDependencies_processed steps fuel c u c' :
  resolveDependencies fs path steps fuel c = Ok u c' ->
  evolves fs c c'
  /\ forall r, In r (PackageInfoCache.getPackageInfos c) ->
       exists p', PackageInfoCache.packageInfos c' !! r = Some p'
                  /\ PackageInfo.processed p' = true.
Proof.
  unfold resolveDependencies. eapply forEach_resolve_processed.
  intros name dir d found d'. apply findPackage_extends.
Qed.

(** What a call of [loadApp] that returns leaves behind. *)
Lemma loadApp_returns steps fuel dir isRoot c r c1 :
  realPathsAreCanonical fs ->
  loadApp fs path steps fuel dir isRoot c = Ok r c1 ->
  evolves fs c c1
  /\ registered fs path dir r c1
  /\ exists p, PackageInfoCache.packageInfos c1 !! r = Some p
               /\ (isRoot = true -> PackageInfo.processed p = true).
Proof.
  intros Hcanon Hrun. unfold loadApp in Hrun.
  bind_inv Hrun as r0 c0 Hread.
  pose proof (readPackage_registered _ _ _ _ _ _ _ _ Hcanon Hread) as Hreg.
  apply readPackage_extends, extends_evolves in Hread.
  bind_inv Hrun as p d Hp. apply readPackageInfo_Ok in Hp as [-> Hp].
  destruct (PackageInfo.processed p) eqn:Hproc.
  { apply ret_Ok in Hrun as [<- <-]. eauto. }
  destruct isRoot.
  - bind_inv Hrun as u1 d1 Hroot. injection Hroot as _ <-.
    bind_inv Hrun as u2 d2 Hresolve. apply ret_Ok in Hrun as [<- <-].
    apply resolveDependencies_processed in Hresolve as [Hev Hall].
    assert (Hev' : evolves fs c0 c1).
    { eapply evolves_trans; [apply evolves_set_rootPackage|exact Hev]. }
    split; [eapply evolves_trans; eassumption|].
    split; [eapply registered_evolves; eassumption|].
    destruct (Hall r) as (p' & Hp' & Hproc'); [|eauto].
    eapply registered_getPackageInfos.
    eapply registered_evolves; [assumption|exact Hreg|apply evolves_set_rootPackage].
  - apply ret_Ok in Hrun as [<- <-].
    split; [assumption|]. split; [assumption|].
    exists p. split; [assumption|discriminate].
Qed.
End LoadFacts.

(** X27. [loadApp] is idempotent, on a file system whose canonical paths
    resolve to themselves.  When a call on a directory returns a package
    object: a second call on the same directory returns the same object
    and leaves the cache as it is; whatever the flags and the fuel, a
    later call on that directory that returns, returns that object; the
    table has one entry per key after the call if it had before; and every
    entry that was in the table before the call is still there, unchanged
    (an entry made during the call is not covered). *)
Theorem loadApp_idempotent
    (fs : FileSystem) (path : PathModule) (steps fuel : nat) (dir : string)
    (isRoot : bool) (c c1 : PackageInfoCache.t) (r : PkgRef) :
  realPathsAreCanonical fs ->
  loadApp fs path steps fuel dir isRoot c = Ok r c1 ->
  (forall steps' fuel',
      loadApp fs path steps' (S fuel') dir isRoot c1 = Ok r c1)
  /\ (forall steps' fuel' isRoot' r' c2,
      loadApp fs path steps' fuel' dir isRoot' c1 = Ok r' c2 -> r' = r)
  /\ (List.NoDup (JsMap.keys (PackageInfoCache.entries c)) ->
      List.NoDup (JsMap.keys (PackageInfoCache.entries c1)))
  /\ (forall k e, PackageInfoCache.getEntry c k = Some e ->
                  PackageInfoCache.getEntry c1 k = Some e).
Proof.
  intros Hcanon Hrun.
  destruct (loadApp_returns _ _ _ _ _ _ _ _ _ Hcanon Hrun)
    as (Hev & Hreg & p & Hp & Hproc).
  split; [|split; [|split]].
  - intros steps' fuel'. unfold loadApp, bind.
    rewrite (readPackage_registered_returns fs path fuel' dir isRoot r c1 Hreg).
    unfold readPackageInfo. rewrite Hp.
    destruct (PackageInfo.processed p) eqn:Hp'; [reflexivity|].
    destruct isRoot; [|reflexivity].
    specialize (Hproc eq_refl). congruence.
  - intros steps' fuel' isRoot' r' c2 Hagain. unfold loadApp in Hagain.
    bind_inv Hagain as r0 c0 Hread.
    destruct fuel' as [|fuel']; [discriminate|].
    rewrite (readPackage_registered_returns fs path fuel' dir isRoot' r c1 Hreg) in Hread.
    injection Hread as <- <-.
    bind_inv Hagain as p0 d Hp0. apply readPackageInfo_Ok in Hp0 as [-> _].
    destruct (PackageInfo.processed p0).
    { now apply ret_Ok in Hagain as [-> _]. }
    destruct isRoot'.
    + bind_inv Hagain as u1 d1 Hroot. bind_inv Hagain as u2 d2 Hresolve.
      now apply ret_Ok in Hagain as [-> _].
    + now apply ret_Ok in Hagain as [-> _].
  - apply (evolves_unique _ _ _ Hev).
  - apply (evolves_entries _ _ _ Hev).
Qed.

(* ===================================================================== *)
(** ** The upward search of the cache *)
(* ===================================================================== *)

Section UpwardSearch.
Variable fs : FileSystem.
Variable path : PathModule.
Hypothesis path_ascends : ascends path.

(** With more steps than the path is long, the loop is the search over
    the ancestors, and these are at most as many as the path is long. *)
Lemma findPackage_loop_search fuel packageName root :
  root <> EmptyString ->
  forall steps currPath,
    parse_root path currPath = root ->
    String.length currPath < steps ->
    (forall c, findPackage_loop fs path steps fuel packageName root currPath c
               = searchListings fs path fuel packageName
                   (ancestors path steps root currPath) c)
    /\ ancestors path steps root currPath
       = ancestors path (S (String.length currPath)) root currPath
    /\ length (ancestors path steps root currPath) <= String.length currPath.
Proof.
  intros Hroot steps. induction steps as [|steps IH]; intros currPath Hparse Hlen;
    [lia|].
  assert (Hstep : forall n, ancestors path (S n) root currPath
                  = if String.eqb currPath root then []
                    else currPath :: ancestors path n root (dirname path currPath))
    by reflexivity.
  rewrite !Hstep. cbn [findPackage_loop].
  destruct (String.eqb_spec currPath root) as [Heq|Hne].
  { split; [reflexivity|split; [reflexivity|cbn; lia]]. }
  destruct (path_ascends currPath) as [Hshorter Hkeeps];
    [congruence|congruence|].
  destruct (IH (dirname path currPath)) as (Hloop & Hsame & Hcount);
    [congruence|lia|].
  split; [|split].
  - intros c. cbn [searchListings]. unfold nodeModulesPathOf, bind.
    destruct (readNodeModulesList fs path fuel _ c) as [[l|] c1| |];
      try reflexivity; [|apply Hloop].
    destruct (NodeModulesList_findPackage l packageName c1) as [[e|] c2| |];
      try reflexivity. apply Hloop.
  - f_equal. rewrite Hsame. symmetry.
    destruct (Nat.eq_dec (String.length currPath) 0) as [Hz|Hnz]; [lia|].
    destruct (String.length currPath) as [|n] eqn:Hn; [lia|].
    clear IH Hloop Hcount Hsame Hstep.
    assert (Hgen : forall m k p, String.length p < m -> String.length p < k ->
                     parse_root path p = root ->
                     ancestors path m root p = ancestors path k root p).
    { induction m as [|m IHm]; intros k p Hm Hk Hp; [lia|].
      destruct k as [|k]; [lia|]. cbn [ancestors].
      destruct (String.eqb_spec p root); [reflexivity|].
      destruct (path_ascends p) as [Hs Hk']; [congruence|congruence|].
      f_equal. apply IHm; [lia|lia|congruence]. }
    apply Hgen; [lia|lia|congruence].
  - cbn [length]. lia.
Qed.
End UpwardSearch.

Lemma searchListings_foundInNone fs path fuel packageName directories c c' :
  foundInNone fs path fuel packageName directories c c' ->
  searchListings fs path fuel packageName directories c = Ok None c'.
Proof.
  induction 1 as [c|directory above c c1 c2 Hread _ IH
                  |directory above l c c1 c2 Hread Hfind _ IH].
  - reflexivity.
  - cbn [searchListings]. unfold bind. now rewrite Hread.
  - cbn [searchListings]. unfold bind. rewrite Hread.
    unfold NodeModulesList_findPackage, liftCompletion. now rewrite Hfind.
Qed.

(** The search over a chain of directories completes whenever the reads
    of the listings do: it runs out of fuel only where the read of the
    listing of one of the directories does. *)
Lemma searchListings_completes fs path fuel packageName directories c :
  searchListings fs path fuel packageName directories c = OutOfFuel ->
  exists directory c0,
    In directory directories
    /\ readNodeModulesList fs path fuel (nodeModulesPathOf path directory) c0
       = OutOfFuel.
Proof.
  revert c. induction directories as [|directory above IH]; intros c Hrun;
    [discriminate|].
  cbn [searchListings] in Hrun. unfold bind in Hrun.
  destruct (readNodeModulesList fs path fuel (nodeModulesPathOf path directory) c)
    as [[l|] c1|error c1|] eqn:Hread.
  - unfold NodeModulesList_findPackage, liftCompletion in Hrun.
    pose proof (proj2 (findPackage_depth 0
                         (PackageInfoCache.nodeModulesLists c1) l packageName))
      as Hdepth.
    destruct (NodeModulesList.findPackage NodeModulesList.FIND_DEPTH
                (PackageInfoCache.nodeModulesLists c1) l (Some packageName))
      as [[found|]|error|]; try discriminate; [|contradiction].
    destruct (IH c1 Hrun) as (d & c0 & Hin & Hout).
    exists d, c0. split; [now right|assumption].
  - destruct (IH c1 Hrun) as (d & c0 & Hin & Hout).
    exists d, c0. split; [now right|assumption].
  - discriminate.
  - exists directory, c. split; [now left|assumption].
Qed.

(** C3 (amended). With a path module whose [dirname] ascends, for every
    package name and every absolute start directory, [findPackage] with
    more steps than the start path is long is the search over the chain of
    directories from the start directory up to the root: it reads one
    [node_modules] listing per directory of the chain, and the chain is at
    most as long as the path.  When every one of these reads returns and
    the name is found in none of the listings, it returns absent.  When
    the start directory is itself named [node_modules], that directory is
    the first listing read.  The loop itself always ends: the search runs
    out of fuel only where the read of the listing of a directory of the
    chain does. *)
Theorem findPackage_upward_search
    (fs : FileSystem) (path : PathModule) (steps fuel : nat)
    (packageName startPath : string) (c : PackageInfoCache.t) :
  ascends path ->
  parse_root path startPath <> EmptyString ->
  String.length startPath < steps ->
  findPackage fs path steps fuel packageName startPath c
  = searchListings fs path fuel packageName (directoryChain path startPath) c
  /\ length (directoryChain path startPath) <= String.length startPath
  /\ (forall c',
       foundInNone fs path fuel packageName (directoryChain path startPath) c c' ->
       findPackage fs path steps fuel packageName startPath c = Ok None c')
  /\ (startPath <> parse_root path startPath ->
      basename path startPath = "node_modules" ->
      exists above,
        directoryChain path startPath = startPath :: above
        /\ nodeModulesPathOf path startPath = startPath)
  /\ (findPackage fs path steps fuel packageName startPath c = OutOfFuel ->
      exists directory c0,
        In directory (directoryChain path startPath)
        /\ readNodeModulesList fs path fuel (nodeModulesPathOf path directory) c0
           = OutOfFuel).
Proof.
  intros Hasc Habs Hsteps.
  destruct (findPackage_loop_search fs path Hasc fuel packageName
              (parse_root path startPath) Habs steps startPath eq_refl Hsteps)
    as (Hloop & Hsame & Hcount).
  assert (Heq : findPackage fs path steps fuel packageName startPath c
                = searchListings fs path fuel packageName
                    (directoryChain path startPath) c).
  { unfold findPackage, directoryChain. cbn zeta. now rewrite Hloop, Hsame. }
  split; [exact Heq|]. split; [|split; [|split]].
  - unfold directoryChain. now rewrite <- Hsame.
  - intros c' Hnone. rewrite Heq. now apply searchListings_foundInNone.
  - intros Hne Hbase. unfold directoryChain, nodeModulesPathOf.
    cbn [ancestors]. destruct (String.eqb_spec startPath (parse_root path startPath));
      [contradiction|].
    rewrite Hbase. cbn. eauto.
  - rewrite Heq. apply searchListings_completes.
Qed.

(** [path.posix.dirname] ascends. *)
Section PosixFacts.

Lemma dropWhile_length {A} (f : A -> bool) (l : list A) :
  length (Posix.dropWhile f l) <= length l.
Proof. induction l as [|x l IH]; simpl; [lia|]. destruct (f x); simpl; lia. Qed.

Lemma dropWhile_head {A} (f : A -> bool) (l : list A) x rest :
  Posix.dropWhile f l = x :: rest -> f x = false.
Proof.
  induction l as [|y l IH]; simpl; [discriminate|].
  destruct (f y) eqn:Hy; [assumption|]. now intros [= <- _].
Qed.

Lemma string_length_of_list (l : list ascii) :
  String.length (string_of_list_ascii l) = length l.
Proof. induction l as [|x l IH]; simpl; [reflexivity|]. now rewrite IH. Qed.

Lemma list_length_of_string (s : string) :
  length (list_ascii_of_string s) = String.length s.
Proof. induction s as [|x s IH]; simpl; [reflexivity|]. now rewrite IH. Qed.

Lemma parse_root_absolute (p : string) :
  Posix.parse_root p <> EmptyString ->
  exists rest, p = String Posix.slash rest /\ Posix.parse_root p = "/".
Proof.
  unfold Posix.parse_root, startsWith.
  destruct p as [|ch rest]; cbn [String.prefix]; [congruence|].
  destruct (ascii_dec "/" ch) as [<-|Hne]; [|congruence].
  intros _. exists rest. split; [reflexivity|].
  now destruct rest.
Qed.

Lemma parse_root_slash (rest : string) :
  Posix.parse_root (String Posix.slash rest) = "/".
Proof.
  unfold Posix.parse_root, startsWith. cbn [String.prefix].
  destruct (ascii_dec "/" Posix.slash) as [_|Hne]; [|now exfalso; apply Hne].
  now destruct rest.
Qed.

Lemma posix_ascends : ascends posix.
Proof.
  intros p Habs Hne.
  change (dirname posix) with Posix.dirname.
  change (parse_root posix) with Posix.parse_root in *.
  destruct (parse_root_absolute p Habs) as (rest & -> & Hroot).
  rewrite Hroot in Hne |- *. clear Habs Hroot.
  unfold Posix.dirname. cbn [list_ascii_of_string].
  pose proof (list_length_of_string rest) as Hrest.
  assert (Hnonempty : 1 <= length (list_ascii_of_string rest)).
  { destruct rest; [exfalso; apply Hne; reflexivity|cbn; lia]. }
  cbn [String.length]. rewrite <- Hrest. clear Hrest Hne.
  generalize dependent (list_ascii_of_string rest). clear rest.
  intros chars Hnonempty.
  set (upToSegment := Posix.dropWhile Posix.isSlash (rev chars)).
  assert (Hseg : length upToSegment <= length chars).
  { unfold upToSegment. etransitivity; [apply dropWhile_length|].
    now rewrite length_rev. }
  destruct (Posix.dropWhile Posix.notSlash upToSegment) as [|ch before] eqn:Hslash.
  - split; [cbn; lia|reflexivity].
  - assert (Hstrict : S (length before) < length upToSegment).
    { pose proof (dropWhile_length Posix.notSlash upToSegment) as Hl.
      rewrite Hslash in Hl. cbn [length] in Hl.
      destruct (Nat.eq_dec (S (length before)) (length upToSegment)) as [Heq|];
        [exfalso|lia].
      destruct upToSegment as [|y s'] eqn:Hup; [discriminate|].
      apply dropWhile_head in Hup. cbn [Posix.dropWhile] in Hslash.
      unfold Posix.notSlash in Hslash at 1. rewrite Hup in Hslash. cbn [negb] in Hslash.
      pose proof (dropWhile_length Posix.notSlash s') as Hl'.
      rewrite Hslash in Hl'. cbn [length] in Heq, Hl'. lia. }
    change (Posix.isSlash Posix.slash) with true. cbn [andb length].
    destruct (Nat.eqb_spec (S (length before)) 1) as [Hone|Hmore].
    + split; [cbn; lia|reflexivity].
    + cbn [string_of_list_ascii String.length].
      rewrite string_length_of_list, length_rev. split; [lia|].
      apply parse_root_slash.
Qed.
End PosixFacts.

Lemma findPackage_upward_search_witness :
  findPackage projectFileSystem posix 10 4 "b" "/proj/src" projectLoaded
  = Ok None projectLoaded
  /\ directoryChain posix "/proj/src" = ["/proj/src"; "/proj"].
Proof.
  split; [|reflexivity].
  refine (proj1 (proj2 (proj2
    (findPackage_upward_search projectFileSystem posix 10 4 "b" "/proj/src"
       projectLoaded posix_ascends _ _))) projectLoaded _).
  - discriminate.
  - cbn. lia.
  - change (directoryChain posix "/proj/src") with ["/proj/src"; "/proj"].
    apply (foundInNone_no_listing _ _ _ _ _ _ projectLoaded projectLoaded);
      [vm_compute; reflexivity|].
    apply (foundInNone_not_listed _ _ _ _ _ _ (ListAt 0) projectLoaded projectLoaded);
      [vm_compute; reflexivity|vm_compute; reflexivity|].
    apply foundInNone_nil.
Defined.

(** C3, as worded, fails: [findPackage] can throw where the name is found
    in no listing.  On an empty file system, after [loadApp] was asked for
    the directory [/p/node_modules] (which registers a package object,
    flagged as missing, under that path), the search for any name from
    [/p] aborts on the first listing it reads. *)
Lemma findPackage_throws_counterexample :
  loadApp emptyFileSystem posix 10 4 "/p/node_modules" false PackageInfoCache.new
  = Ok 0%nat missingNodeModulesLoaded
  /\ findPackage emptyFileSystem posix 10 4 "x" "/p" missingNodeModulesLoaded
     = Throw ERROR_LIST_AT_OTHER_PATH missingNodeModulesLoaded
  /\ findPackage emptyFileSystem posix 10 4 "x" "/p" missingNodeModulesLoaded
     <> Ok None missingNodeModulesLoaded.
Proof.
  split; [vm_compute; reflexivity|].
  assert (H : findPackage emptyFileSystem posix 10 4 "x" "/p" missingNodeModulesLoaded
              = Throw ERROR_LIST_AT_OTHER_PATH missingNodeModulesLoaded)
    by (vm_compute; reflexivity).
  split; [exact H|]. rewrite H. discriminate.
Qed.

(* ===================================================================== *)
(** ** Claims about the dependency helpers *)
(* ===================================================================== *)



(** The dependency helper partitions the names it is given.  When
    [doAddDependencies] runs on a node for a descriptor field with
    distinct names and returns a mapping, there is a list of missing names
    such that the names are, up to order, the keys of the mapping followed
    by the missing names; and the error ledger of the node is the one
    before, with a single entry of the given type holding the missing
    names appended when, and only when, there is a missing name. *)
Lemma doAddDependencies_splits_names
    (fs : FileSystem) (path : PathModule) (steps fuel : nat) (this : PkgRef)
    (obj : Json) (errorType listName : string)
    (c c' : PackageInfoCache.t) (p : PackageInfo.t) (packages : JsMap.t Entry) :
  PackageInfoCache.packageInfos c !! this = Some p ->
  List.NoDup (Object_keys obj) ->
  doAddDependencies path (findPackage fs path steps fuel) this (Some obj)
    errorType listName c = Ok (Some packages) c' ->
  exists missing p',
    PackageInfoCache.packageInfos c' !! this = Some p'
    /\ Permutation (Object_keys obj) (JsMap.keys packages ++ missing)
    /\ ErrorList.errors (PackageInfo.errors p')
       = ErrorList.errors (PackageInfo.errors p)
         ++ match missing with
            | [] => []
            | _ :: _ => [ErrorEntry.mk errorType (DataNames missing)]
            end.
Proof.
  intros Hthis Hnd Hrun.
  pose proof (doAddDependencies_result fs path _ (findPackage_extends fs path steps fuel)
                _ _ _ _ _ _ _ _ Hthis Hrun) as Hres.
  cbn beta iota in Hres.
  destruct Hres as (obj' & missing & c1 & [= <-] & _ & Hext & Hperm & Hc').
  pose proof (extends_lookup fs _ _ _ _ Hext Hthis) as Hthis1.
  exists missing. destruct missing as [|m missing]; subst c'.
  - exists p. split; [assumption|]. split; [auto|]. now rewrite app_nil_r.
  - exists (PackageInfo.addError p errorType (DataNames (m :: missing))).
    cbn [PackageInfoCache.packageInfos PackageInfoCache.set_packageInfos].
    rewrite list_lookup_insert_eq by (eapply lookup_lt_Some; eassumption).
    split; [reflexivity|]. split; [auto|reflexivity].
Qed.

(* ===================================================================== *)
(** ** Claims about the resolution pass and the readers *)
(* ===================================================================== *)

Section RootOnly.
Variable fs : FileSystem.
Variable path : PathModule.
Variable steps fuel : nat.

(** For a node that is not a root and not yet processed, the step of the
    pass is: resolve [dependencies], store the result, mark the node. *)
Lemma resolvePackageDependencies_not_root r c p :
  PackageInfoCache.packageInfos c !! r = Some p ->
  PackageInfo.processed p = false ->
  PackageInfo.isRoot p = false ->
  resolvePackageDependencies path (findPackage fs path steps fuel) r c
  = (pkgs <- addDependencies path (findPackage fs path steps fuel) r
               (JsMap.get (PackageInfo.packageJson p) "dependencies") ;;
     updatePackageInfo r (PackageInfo.set_dependenciesPackages pkgs) ;;;
     updatePackageInfo r (PackageInfo.set_processed true)) c.
Proof.
  intros Hp Hproc Hroot.
  unfold resolvePackageDependencies, bind at 1. unfold readPackageInfo at 1.
  rewrite Hp, Hproc. cbn [negb]. unfold bind.
  destruct (addDependencies _ _ _ _ c) as [pkgs c1| |] eqn:Hdeps; try reflexivity.
  unfold addDependencies in Hdeps.
  destruct (doAddDependencies_object fs path _ (findPackage_extends fs path steps fuel)
              _ _ _ _ _ _ _ _ Hp Hdeps) as (_ & p1 & Hp1 & Hsame).
  destruct (updatePackageInfo r (PackageInfo.set_dependenciesPackages pkgs) c1)
    as [u c2| |] eqn:Hset; try reflexivity.
  apply updatePackageInfo_Ok in Hset as (p1' & Hp1' & ->).
  pose proof (eq_trans (eq_sym Hp1') Hp1) as Heq1. injection Heq1 as ->.
  unfold readPackageInfo.
  cbn [PackageInfoCache.packageInfos PackageInfoCache.set_packageInfos].
  rewrite list_lookup_insert_eq by (eapply lookup_lt_Some; eassumption).
  assert (PackageInfo.isRoot (PackageInfo.set_dependenciesPackages pkgs p1) = false) as ->.
  { destruct Hsame as [->|(missing & ->)]; exact Hroot. }
  reflexivity.
Qed.

(** For a root, the step also resolves [devDependencies]. *)
Lemma resolvePackageDependencies_root r c p :
  PackageInfoCache.packageInfos c !! r = Some p ->
  PackageInfo.processed p = false ->
  PackageInfo.isRoot p = true ->
  resolvePackageDependencies path (findPackage fs path steps fuel) r c
  = (pkgs <- addDependencies path (findPackage fs path steps fuel) r
               (JsMap.get (PackageInfo.packageJson p) "dependencies") ;;
     updatePackageInfo r (PackageInfo.set_dependenciesPackages pkgs) ;;;
     pkgs <- addDevDependencies path (findPackage fs path steps fuel) r
               (JsMap.get (PackageInfo.packageJson p) "devDependencies") ;;
     updatePackageInfo r (PackageInfo.set_devDependenciesPackages pkgs) ;;;
     updatePackageInfo r (PackageInfo.set_processed true)) c.
Proof.
  intros Hp Hproc Hroot.
  unfold resolvePackageDependencies, bind at 1. unfold readPackageInfo at 1.
  rewrite Hp, Hproc. cbn [negb]. unfold bind.
  destruct (addDependencies _ _ _ _ c) as [pkgs c1| |] eqn:Hdeps; try reflexivity.
  unfold addDependencies in Hdeps.
  destruct (doAddDependencies_object fs path _ (findPackage_extends fs path steps fuel)
              _ _ _ _ _ _ _ _ Hp Hdeps) as (_ & p1 & Hp1 & Hsame).
  destruct (updatePackageInfo r (PackageInfo.set_dependenciesPackages pkgs) c1)
    as [u c2| |] eqn:Hset; try reflexivity.
  apply updatePackageInfo_Ok in Hset as (p1' & Hp1' & ->).
  pose proof (eq_trans (eq_sym Hp1') Hp1) as Heq1. injection Heq1 as ->.
  unfold readPackageInfo.
  cbn [PackageInfoCache.packageInfos PackageInfoCache.set_packageInfos].
  rewrite list_lookup_insert_eq by (eapply lookup_lt_Some; eassumption).
  assert (PackageInfo.isRoot (PackageInfo.set_dependenciesPackages pkgs p1) = true) as ->.
  { destruct Hsame as [->|(missing & ->)]; exact Hroot. }
  assert (PackageInfo.packageJson (PackageInfo.set_dependenciesPackages pkgs p1)
          = PackageInfo.packageJson p) as ->.
  { destruct Hsame as [->|(missing & ->)]; reflexivity. }
  destruct (addDevDependencies _ _ _ _ _) as [pkgs' c3| |]; reflexivity.
Qed.
End RootOnly.

(** C6. Development dependencies are resolved for roots only.  The step
    of the resolution pass leaves a node that is already processed alone.
    For a node that is not a root, the step resolves [dependencies], stores
    the result and marks the node: it makes no call for [devDependencies],
    whatever the descriptor holds there; afterwards the dev-dependency
    edges of the node are what they were, and its error ledger is the one
    before or the one before with a single dependency-unresolved entry.
    For a root, the step resolves [devDependencies] as well and stores
    that result. *)
Theorem devDependencies_resolved_for_roots_only
    (fs : FileSystem) (path : PathModule) (steps fuel : nat)
    (r : PkgRef) (c : PackageInfoCache.t) (p : PackageInfo.t) :
  PackageInfoCache.packageInfos c !! r = Some p ->
  (PackageInfo.processed p = true ->
     resolvePackageDependencies path (findPackage fs path steps fuel) r c = Ok tt c)
  /\ (PackageInfo.processed p = false -> PackageInfo.isRoot p = false ->
      resolvePackageDependencies path (findPackage fs path steps fuel) r c
      = (pkgs <- addDependencies path (findPackage fs path steps fuel) r
                   (JsMap.get (PackageInfo.packageJson p) "dependencies") ;;
         updatePackageInfo r (PackageInfo.set_dependenciesPackages pkgs) ;;;
         updatePackageInfo r (PackageInfo.set_processed true)) c
      /\ forall u c',
           resolvePackageDependencies path (findPackage fs path steps fuel) r c
           = Ok u c' ->
           exists p',
             PackageInfoCache.packageInfos c' !! r = Some p'
             /\ PackageInfo.devDependenciesPackages p'
                = PackageInfo.devDependenciesPackages p
             /\ (PackageInfo.errors p' = PackageInfo.errors p
                 \/ exists missing,
                      PackageInfo.errors p'
                      = ErrorList.addError (PackageInfo.errors p)
                          ERRORS.ERROR_DEPENDENCIES_MISSING (DataNames missing)))
  /\ (PackageInfo.processed p = false -> PackageInfo.isRoot p = true ->
      resolvePackageDependencies path (findPackage fs path steps fuel) r c
      = (pkgs <- addDependencies path (findPackage fs path steps fuel) r
                   (JsMap.get (PackageInfo.packageJson p) "dependencies") ;;
         updatePackageInfo r (PackageInfo.set_dependenciesPackages pkgs) ;;;
         pkgs <- addDevDependencies path (findPackage fs path steps fuel) r
                   (JsMap.get (PackageInfo.packageJson p) "devDependencies") ;;
         updatePackageInfo r (PackageInfo.set_devDependenciesPackages pkgs) ;;;
         updatePackageInfo r (PackageInfo.set_processed true)) c).
Proof.
  intros Hp. split; [|split; [|now apply resolvePackageDependencies_root]].
  { intros Hproc. unfold resolvePackageDependencies, bind, readPackageInfo.
    now rewrite Hp, Hproc. }
  intros Hproc Hroot.
  pose proof (resolvePackageDependencies_not_root fs path steps fuel r c p
                Hp Hproc Hroot) as Heq.
  split; [exact Heq|].
  intros u c' Hrun. rewrite Heq in Hrun.
  bind_inv Hrun as pkgs c1 Hdeps. unfold addDependencies in Hdeps.
  destruct (doAddDependencies_object fs path _ (findPackage_extends fs path steps fuel)
              _ _ _ _ _ _ _ _ Hp Hdeps) as (_ & p1 & Hp1 & Hsame).
  bind_inv Hrun as u1 c2 Hset.
  apply updatePackageInfo_Ok in Hset as (p1' & Hp1' & ->).
  pose proof (eq_trans (eq_sym Hp1') Hp1) as Heq1. injection Heq1 as ->.
  apply updatePackageInfo_Ok in Hrun as (p2 & Hp2 & ->).
  cbn [PackageInfoCache.packageInfos PackageInfoCache.set_packageInfos] in Hp2 |- *.
  rewrite list_lookup_insert_eq in Hp2 by (eapply lookup_lt_Some; eassumption).
  injection Hp2 as <-.
  eexists. split.
  { apply list_lookup_insert_eq. rewrite length_insert.
    eapply lookup_lt_Some; eassumption. }
  destruct Hsame as [->|(missing & ->)]; cbn; eauto.
Qed.

Lemma devDependencies_resolved_for_roots_only_witness :
  exists c' p p',
    PackageInfoCache.packageInfos projectRead !! 1%nat = Some p
    /\ PackageInfo.isRoot p = false
    /\ JsMap.get (PackageInfo.packageJson p) "devDependencies"
       = Some (JObj [("c", JStr "^3.0.0")])
    /\ resolvePackageDependencies posix (findPackage projectFileSystem posix 10 4)
         1%nat projectRead = Ok tt c'
    /\ PackageInfoCache.packageInfos c' !! 1%nat = Some p'
    /\ PackageInfo.devDependenciesPackages p' = None
    /\ PackageInfo.errors p' = ErrorList.new.
Proof.
  eassert (Hp : PackageInfoCache.packageInfos projectRead !! 1%nat = Some _)
    by (vm_compute; reflexivity).
  eassert (Hrun : resolvePackageDependencies posix
                    (findPackage projectFileSystem posix 10 4) 1%nat projectRead
                  = Ok tt _)
    by (vm_compute; reflexivity).
  destruct (proj2 (proj1 (proj2 (devDependencies_resolved_for_roots_only
                                   projectFileSystem posix 10 4 1%nat projectRead _
                                   Hp)) eq_refl eq_refl) tt _ Hrun)
    as (p' & Hp' & Hdev & Herrors).
  eexists _, _, p'. split; [exact Hp|]. split; [reflexivity|].
  split; [reflexivity|].
  split; [exact Hrun|]. split; [exact Hp'|]. split; [exact Hdev|].
  destruct Herrors as [He|(missing & He)]; [exact He|].
  exfalso. vm_compute in Hp'. injection Hp' as <-. discriminate He.
Defined.

(** C8. Reading a path that the table holds under the other kind aborts.
    Reading a package from a path whose entry is a listing throws, and so
    does reading a listing from a path whose entry is a package object;
    both for the normalized path and, when that has no entry and differs
    from it, for the canonical path.  The cache at the throw is the cache
    at the call: nothing is recorded. *)
Theorem wrong_kind_of_entry_aborts
    (fs : FileSystem) (path : PathModule) (fuel : nat) (dir : string)
    (isRoot : bool) (c : PackageInfoCache.t) :
  (forall l,
      PackageInfoCache.getEntry c (normalize path dir) = Some (EList l) ->
      readPackage fs path (S fuel) dir isRoot c
      = Throw ERROR_PACKAGE_AT_LIST_PATH c)
  /\ (forall l realPath,
      PackageInfoCache.getEntry c (normalize path dir) = None ->
      getRealDirectoryPath fs (normalize path dir) = Some realPath ->
      realPath <> normalize path dir ->
      PackageInfoCache.getEntry c realPath = Some (EList l) ->
      readPackage fs path (S fuel) dir isRoot c
      = Throw ERROR_PACKAGE_AT_LIST_REAL_PATH c)
  /\ (forall r,
      PackageInfoCache.getEntry c (normalize path dir) = Some (EPackage r) ->
      readNodeModulesList fs path (S fuel) dir c
      = Throw ERROR_LIST_AT_OTHER_PATH c)
  /\ (forall r realPath,
      PackageInfoCache.getEntry c (normalize path dir) = None ->
      getRealDirectoryPath fs (normalize path dir) = Some realPath ->
      realPath <> normalize path dir ->
      PackageInfoCache.getEntry c realPath = Some (EPackage r) ->
      readNodeModulesList fs path (S fuel) dir c
      = Throw ERROR_LIST_AT_PACKAGE_PATH c).
Proof.
  split; [|split; [|split]].
  - intros l Hentry. cbn [readPackage]. unfold readPackage_body. cbn zeta.
    now rewrite Hentry.
  - intros l realPath Hnone Hreal Hne Hentry.
    cbn [readPackage]. unfold readPackage_body. cbn zeta.
    rewrite Hnone, Hreal.
    destruct (String.eqb_spec realPath (normalize path dir)); [contradiction|].
    cbn [negb]. now rewrite Hentry.
  - intros r Hentry. cbn [readNodeModulesList]. unfold readNodeModulesList_body.
    cbn zeta. now rewrite Hentry.
  - intros r realPath Hnone Hreal Hne Hentry.
    cbn [readNodeModulesList]. unfold readNodeModulesList_body. cbn zeta.
    rewrite Hnone, Hreal.
    destruct (String.eqb_spec realPath (normalize path dir)); [contradiction|].
    cbn [negb]. now rewrite Hentry.
Qed.

Lemma wrong_kind_of_entry_aborts_witness :
  readPackage projectFileSystem posix 4 "/proj/node_modules" false projectLoaded
  = Throw ERROR_PACKAGE_AT_LIST_PATH projectLoaded
  /\ readNodeModulesList projectFileSystem posix 4 "/proj" projectLoaded
     = Throw ERROR_LIST_AT_OTHER_PATH projectLoaded
  /\ readNodeModulesList projectFileSystem posix 4 "/link" projectLoaded
     = Throw ERROR_LIST_AT_PACKAGE_PATH projectLoaded.
Proof.
  split; [|split].
  - exact (proj1 (wrong_kind_of_entry_aborts projectFileSystem posix 3
                    "/proj/node_modules" false projectLoaded) (ListAt 0%nat) eq_refl).
  - exact (proj1 (proj2 (proj2 (wrong_kind_of_entry_aborts projectFileSystem posix 3
                    "/proj" false projectLoaded))) 0%nat eq_refl).
  - refine (proj2 (proj2 (proj2 (wrong_kind_of_entry_aborts projectFileSystem posix 3
                    "/link" false projectLoaded))) 0%nat "/proj" eq_refl eq_refl _ eq_refl).
    discriminate.
Defined.

Lemma lookup_snoc {A} (l : list A) (x : A) : (l ++ [x]) !! length l = Some x.
Proof. rewrite lookup_app_r by lia. now rewrite Nat.sub_diag. Qed.

Lemma insert_snoc {A} (l : list A) (x y : A) :
  <[length l := y]> (l ++ [x]) = l ++ [y].
Proof. rewrite insert_app_r_alt by lia. now rewrite Nat.sub_diag. Qed.

(** [#readPackage] on a directory without a descriptor, in a cache that
    has no entry for it. *)
Lemma readPackage_without_descriptor
    (fs : FileSystem) (path : PathModule) (fuel : nat) (dir : string)
    (isRoot : bool) (realPath : string) (c : PackageInfoCache.t) :
  getRealDirectoryPath fs (normalize path dir) = Some realPath ->
  truthyPath (getRealFilePath fs (join path realPath PACKAGE_JSON)) = false ->
  PackageInfoCache.getEntry c (normalize path dir) = None ->
  PackageInfoCache.getEntry c realPath = None ->
  readPackage fs path (S fuel) dir isRoot c
  = Ok (length (PackageInfoCache.packageInfos c))
       (PackageInfoCache.addEntry realPath
          (EPackage (length (PackageInfoCache.packageInfos c)))
          (PackageInfoCache.set_packageInfos
             (PackageInfoCache.packageInfos c
              ++ [packageWithoutDescriptor path realPath isRoot]) c)).
Proof.
  intros Hreal Hfile Hnone Hnone'.
  cbn [readPackage]. unfold readPackage_body. cbn zeta.
  rewrite Hnone, Hreal.
  assert (Hcreate :
    createPackage fs path (readPackage fs path fuel) (readNodeModulesList fs path fuel)
      realPath false ErrorList.new isRoot c
    = Ok (length (PackageInfoCache.packageInfos c))
         (PackageInfoCache.addEntry realPath
            (EPackage (length (PackageInfoCache.packageInfos c)))
            (PackageInfoCache.set_packageInfos
               (PackageInfoCache.packageInfos c
                ++ [packageWithoutDescriptor path realPath isRoot]) c))).
  { unfold createPackage, readPackageJson. cbn [negb]. rewrite Hfile.
    unfold bind, allocatePackageInfo, updatePackageInfo, readPackageInfo, ret.
    repeat (progress (cbn -[lookup insert]; rewrite ?lookup_snoc, ?insert_snoc)).
    reflexivity. }
  destruct (String.eqb realPath (normalize path dir)); cbn [negb];
    [exact Hcreate|]. now rewrite Hnone'.
Qed.

(** C7. Loading a directory that exists and has no descriptor file
    returns a package object.  In a cache with no entry for the directory,
    [#readPackage] creates the object with the placeholder descriptor, not
    valid, with the descriptor-missing entry as its only error, and
    registers it under the canonical path; [loadApp] on a new cache
    returns that object, still not valid and with that single entry,
    whether or not it is loaded as the root. *)
Theorem load_without_descriptor
    (fs : FileSystem) (path : PathModule) (steps fuel : nat) (dir : string)
    (isRoot : bool) (realPath : string) :
  getRealDirectoryPath fs (normalize path dir) = Some realPath ->
  truthyPath (getRealFilePath fs (join path realPath PACKAGE_JSON)) = false ->
  (forall c,
      PackageInfoCache.getEntry c (normalize path dir) = None ->
      PackageInfoCache.getEntry c realPath = None ->
      readPackage fs path (S fuel) dir isRoot c
      = Ok (length (PackageInfoCache.packageInfos c))
           (PackageInfoCache.addEntry realPath
              (EPackage (length (PackageInfoCache.packageInfos c)))
              (PackageInfoCache.set_packageInfos
                 (PackageInfoCache.packageInfos c
                  ++ [packageWithoutDescriptor path realPath isRoot]) c)))
  /\ exists c' p,
       loadApp fs path steps (S fuel) dir isRoot PackageInfoCache.new = Ok 0%nat c'
       /\ PackageInfoCache.getEntry c' realPath = Some (EPackage 0%nat)
       /\ PackageInfoCache.packageInfos c' !! 0%nat = Some p
       /\ PackageInfo.packageJson p
          = [("name", JStr "invalid package.json"); ("root", JStr realPath)]
       /\ PackageInfo.valid p = false
       /\ ErrorList.errors (PackageInfo.errors p)
          = [ErrorEntry.mk ERRORS.ERROR_PACKAGE_JSON_MISSING
               (DataString (join path realPath PACKAGE_JSON))].
Proof.
  intros Hreal Hfile. split.
  - intros c. now apply readPackage_without_descriptor.
  - unfold loadApp, bind.
    rewrite (readPackage_without_descriptor fs path fuel dir isRoot realPath
               PackageInfoCache.new Hreal Hfile eq_refl eq_refl).
    destruct isRoot; cbn; eexists _, _; repeat split;
      first [reflexivity | cbn; now rewrite String.eqb_refl].
Qed.

Lemma load_without_descriptor_witness :
  exists c' p,
    loadApp (tableFileSystem [("/empty", "/empty")] [] [] []) posix 10 4
      "/empty" true PackageInfoCache.new = Ok 0%nat c'
    /\ PackageInfoCache.packageInfos c' !! 0%nat = Some p
    /\ PackageInfo.valid p = false
    /\ ErrorList.errors (PackageInfo.errors p)
       = [ErrorEntry.mk ERRORS.ERROR_PACKAGE_JSON_MISSING
            (DataString "/empty/package.json")].
Proof.
  destruct (proj2 (load_without_descriptor
                     (tableFileSystem [("/empty", "/empty")] [] [] []) posix 10 3
                     "/empty" true "/empty" eq_refl eq_refl))
    as (c' & p & Hload & _ & Hp & _ & Hvalid & Herrors).
  exists c', p. auto.
Defined.

(* ===================================================================== *)
(** ** Witnesses for loadApp *)
(* ===================================================================== *)

(** On a file system given by tables, canonical paths resolve to
    themselves as soon as every canonical path of the table of
    directories does. *)
Lemma tableFileSystem_canonical directories files descriptors children :
  forallb (fun entry =>
             match JsMap.get directories (snd entry) with
             | Some q => String.eqb q (snd entry)
             | None => false
             end) directories = true ->
  realPathsAreCanonical (tableFileSystem directories files descriptors children).
Proof.
  intros Hall p q Hp. cbn in *.
  apply JsMapFacts.get_Some_In in Hp.
  rewrite forallb_forall in Hall. specialize (Hall _ Hp). cbn in Hall.
  destruct (JsMap.get directories q) as [q'|]; [|discriminate].
  apply String.eqb_eq in Hall. now subst.
Qed.

Lemma loadApp_idempotent_witness :
  loadApp projectFileSystem posix 10 4 "/link" true PackageInfoCache.new
  = Ok 0%nat projectLoaded
  /\ loadApp projectFileSystem posix 10 4 "/link" true projectLoaded
     = Ok 0%nat projectLoaded
  /\ PackageInfoCache.getEntry projectLoaded "/proj" = Some (EPackage 0%nat)
  /\ PackageInfoCache.getEntry projectLoaded "/link" = None.
Proof.
  assert (Hfirst : loadApp projectFileSystem posix 10 4 "/link" true PackageInfoCache.new
                   = Ok 0%nat projectLoaded) by (vm_compute; reflexivity).
  assert (Hcanon : realPathsAreCanonical projectFileSystem).
  { unfold projectFileSystem. apply tableFileSystem_canonical. reflexivity. }
  split; [exact Hfirst|]. split; [|split; reflexivity].
  exact (proj1 (loadApp_idempotent projectFileSystem posix 10 4 "/link" true
                  PackageInfoCache.new projectLoaded 0%nat Hcanon Hfirst) 10 3).
Defined.
(* ===================================================================== *)
(** * Further properties of the utilities *)
(* ===================================================================== *)

Lemma find_after_strings (strs : list string) (item : Json) (rest : list Json) :
  isString (Some item) = false ->
  List.find (fun item => negb (isString (Some item)))
    (map JStr strs ++ item :: rest) = Some item.
Proof.
  intros Hitem. induction strs as [|s strs IH]; cbn [map app List.find].
  - now rewrite Hitem.
  - exact IH.
Qed.

Lemma find_strings (strs : list string) :
  List.find (fun item => negb (isString (Some item))) (map JStr strs) = None.
Proof. induction strs as [|s strs IH]; cbn; [reflexivity|exact IH]. Qed.

(** X1. [isStringArray] accepts exactly the arrays whose first item that
    is not a string, if there is one, is falsy.  Every array of strings
    passes, the empty one too, and nothing that is not an array does; an
    array whose first non-string item is truthy fails; but an array whose
    first non-string item is [null], [false] or [0] passes, whatever
    follows that item: the test reads the item [find] returns, not whether
    it found one. *)
Theorem isStringArray_first_non_string
    (obj : JsValue) (strs : list string) (item : Json) (rest : list Json) :
  isStringArray (Some (JArr (map JStr strs))) = Some (map JStr strs)
  /\ ((forall items, obj <> Some (JArr items)) -> isStringArray obj = None)
  /\ (isString (Some item) = false ->
      isStringArray (Some (JArr (map JStr strs ++ item :: rest)))
      = if truthy item then None else Some (map JStr strs ++ item :: rest)).
Proof.
  split; [|split].
  - unfold isStringArray. now rewrite find_strings.
  - intros Hobj. destruct obj as [[| | | |items|]|]; try reflexivity.
    now destruct (Hobj items).
  - intros Hitem. unfold isStringArray. now rewrite find_after_strings.
Qed.

Lemma split_app (sep : ascii) (p q : string) :
  split sep (p ++ String sep q) = split sep p ++ split sep q.
Proof.
  induction p as [|ch p IH].
  - change (EmptyString ++ String sep q)%string with (String sep q).
    cbn [split]. now rewrite Ascii.eqb_refl.
  - change (String ch p ++ String sep q)%string
      with (String ch (p ++ String sep q)).
    cbn [split]. destruct (Ascii.eqb ch sep); [now rewrite IH|].
    rewrite IH. pose proof (split_nonempty sep p) as Hne.
    destruct (split sep p) as [|hd tl]; [contradiction|reflexivity].
Qed.

Lemma getObjectProperty_loop_app (o : Json) (ps qs : list string) :
  ps <> [] -> qs <> [] ->
  getObjectProperty_loop o (ps ++ qs)
  = match getObjectProperty_loop o ps with
    | Some v => if isObject (Some v) then getObjectProperty_loop v qs else None
    | None => None
    end.
Proof.
  intros Hps Hqs. revert o. induction ps as [|x ps IH]; [contradiction|].
  intros o. destruct ps as [|y ps].
  - cbn [app getObjectProperty_loop]. destruct qs as [|z qs]; [contradiction|].
    now destruct (getProperty o x).
  - change ((x :: y :: ps) ++ qs) with (x :: (y :: ps) ++ qs).
    cbn [getObjectProperty_loop]. cbn [app].
    destruct (getProperty o x) as [v|]; [|reflexivity].
    destruct (isObject (Some v)); [|reflexivity].
    apply IH. discriminate.
Qed.

(** X2. A nested lookup is a chain of lookups: reading the path
    [p.q] from a value is reading [q] from what reading [p] returns, for
    all paths [p] and [q], whatever the value is.  In particular the lookup
    is [undefined] as soon as a prefix of the path leads to something that
    is not an object. *)
Theorem getObjectProperty_nested (obj : JsValue) (p q : string) :
  getObjectProperty obj (p ++ "." ++ q)
  = getObjectProperty (getObjectProperty obj p) q.
Proof.
  unfold getObjectProperty at 1 3.
  destruct obj as [o|]; [|reflexivity].
  destruct (isObject (Some o)); [|reflexivity].
  change (p ++ "." ++ q)%string with (p ++ String "." q)%string.
  rewrite split_app, getObjectProperty_loop_app by apply split_nonempty.
  unfold getObjectProperty.
  destruct (getObjectProperty_loop o (split "." p)) as [v|]; reflexivity.
Qed.

Lemma split_with_sep (sep : ascii) (s : string) :
  containsChar sep s = true -> exists a b rest, split sep s = a :: b :: rest.
Proof.
  induction s as [|ch s IH]; cbn [containsChar split]; [discriminate|].
  destruct (Ascii.eqb ch sep); cbn [orb].
  - intros _. pose proof (split_nonempty sep s) as Hne.
    destruct (split sep s) as [|b rest]; [contradiction|]. eauto.
  - intros Hs. destruct (IH Hs) as (a & b & rest & ->). eauto.
Qed.

Lemma hasDependency_lookup (packageJson dependencies : JsMap.t Json)
    (dependency : string) :
  JsMap.get packageJson "dependencies" = Some (JObj dependencies) ->
  getObjectProperty (Some (JObj packageJson)) ("dependencies." ++ dependency)
  = getObjectProperty_loop (JObj dependencies) (split "." dependency).
Proof.
  intros Hdeps.
  change ("dependencies." ++ dependency)%string
    with ("dependencies" ++ String "." dependency)%string.
  unfold getObjectProperty. cbn [isObject]. rewrite split_app.
  change (split "." "dependencies") with ["dependencies"].
  pose proof (split_nonempty "." dependency) as Hne.
  destruct (split "." dependency) as [|a rest]; [contradiction|].
  cbn [app getObjectProperty_loop getProperty]. rewrite Hdeps. reflexivity.
Qed.

(** X3. [hasDependency] reads the dependency name as a path.  On a
    descriptor whose [dependencies] is an object holding no objects (its
    values are version strings): for a name without a dot that is not
    inherited from [Object.prototype], the answer is whether the name is
    declared; for a name with a dot the answer is no, declared or not,
    since the part before the dot is looked up on its own (a name that
    starts with [__proto__.] apart, which reaches the prototype). *)
Theorem hasDependency_reads_a_path
    (packageJson dependencies : JsMap.t Json) (dependency : string) :
  JsMap.get packageJson "dependencies" = Some (JObj dependencies) ->
  (forall name version,
      JsMap.get dependencies name = Some version -> isObject (Some version) = false) ->
  (containsChar "." dependency = false ->
   ~ In dependency objectPrototypeNames ->
   hasDependency (Some (JObj packageJson)) dependency
   = match JsMap.get dependencies dependency with
     | Some _ => true
     | None => false
     end)
  /\ (containsChar "." dependency = true ->
      startsWith dependency "__proto__." = false ->
      hasDependency (Some (JObj packageJson)) dependency = false).
Proof.
  intros Hdeps Hversions. unfold hasDependency, hasItemInList.
  rewrite (hasDependency_lookup _ _ _ Hdeps). split.
  - intros Hno _. rewrite (split_without_sep _ _ Hno). reflexivity.
  - intros Hdot _. destruct (split_with_sep _ _ Hdot) as (a & b & rest & ->).
    cbn [getObjectProperty_loop getProperty].
    destruct (JsMap.get dependencies a) as [v|] eqn:Ha; [|reflexivity].
    now rewrite (Hversions _ _ Ha).
Qed.

Lemma hasDependency_reads_a_path_witness :
  hasDependency (Some (JObj dottedDependencies)) "a" = true
  /\ hasDependency (Some (JObj dottedDependencies)) "lodash.get" = false.
Proof.
  assert (Hversions : forall name version,
             JsMap.get [("a", JStr "^1.0.0"); ("lodash.get", JStr "^4.4.2")] name
             = Some version -> isObject (Some version) = false).
  { intros name version. cbn [JsMap.get].
    destruct (String.eqb "a" name); [now intros [= <-]|].
    destruct (String.eqb "lodash.get" name); [now intros [= <-]|discriminate]. }
  split.
  - refine (proj1 (hasDependency_reads_a_path dottedDependencies _ "a"
                     eq_refl Hversions) eq_refl _).
    cbn. intuition discriminate.
  - exact (proj2 (hasDependency_reads_a_path dottedDependencies _ "lodash.get"
                    eq_refl Hversions) eq_refl eq_refl).
Defined.

(* ===================================================================== *)
(** * The factory and the type guards *)
(* ===================================================================== *)

Lemma newEmberAddonPackageInfo_class fs path class packageJson realPath isRoot :
  PackageInfo.class (newEmberAddonPackageInfo fs path class packageJson realPath isRoot)
  = class.
Proof.
  unfold newEmberAddonPackageInfo. cbn zeta.
  destruct (truthyPath _); reflexivity.
Qed.

(** X4. The factory creates, for every descriptor, an object whose class
    answers the type guards: the object is an instance of the engine, the
    addon, the app or the Ember package class exactly when the guard of that
    class accepts the descriptor.  So the guards respect the class
    hierarchy (an engine descriptor is an addon descriptor, an addon or an
    app descriptor is an Ember descriptor, and no descriptor is both an app
    and an addon), and testing from the most specific class up loses
    nothing. *)
Theorem factory_class_answers_guards
    (fs : FileSystem) (path : PathModule) (pkgJson : JsMap.t Json)
    (realPath : string) (isRoot : bool) :
  let class :=
    PackageInfo.class (PackageInfoFactory_create fs path pkgJson realPath isRoot) in
  let obj := Some (JObj pkgJson) in
  instanceofEmberEnginePackageInfo class = isEmberEnginePackageJson obj
  /\ instanceofEmberAddonPackageInfo class = isEmberAddonPackageJson obj
  /\ instanceofEmberAppPackageInfo class = isEmberAppPackageJson obj
  /\ instanceofEmberPackageInfo class = isEmberPackageJson obj.
Proof.
  cbn zeta. unfold PackageInfoFactory_create.
  assert (Hengine : isEmberEnginePackageJson (Some (JObj pkgJson)) = true ->
                    isEmberAddonPackageJson (Some (JObj pkgJson)) = true).
  { unfold isEmberEnginePackageJson.
    destruct (isEmberAddonPackageJson _); [reflexivity|discriminate]. }
  assert (Haddon : isEmberAddonPackageJson (Some (JObj pkgJson)) = true ->
                   isEmberPackageJson (Some (JObj pkgJson)) = true
                   /\ isEmberAppPackageJson (Some (JObj pkgJson)) = false).
  { unfold isEmberAddonPackageJson, isEmberAppPackageJson.
    destruct (isEmberPackageJson _); cbn [negb]; [|discriminate].
    destruct (arrayIncludes _ _); cbn [negb]; [auto|discriminate]. }
  assert (Happ : isEmberAppPackageJson (Some (JObj pkgJson)) = true ->
                 isEmberPackageJson (Some (JObj pkgJson)) = true).
  { unfold isEmberAppPackageJson.
    destruct (isEmberPackageJson _); [reflexivity|discriminate]. }
  destruct (isEmberEnginePackageJson _) eqn:He.
  { destruct (Haddon (Hengine eq_refl)) as [Hember Hnot].
    rewrite newEmberAddonPackageInfo_class, (Hengine eq_refl), Hember, Hnot.
    repeat split. }
  destruct (isEmberAddonPackageJson _) eqn:Ha.
  { destruct (Haddon eq_refl) as [Hember Hnot].
    rewrite newEmberAddonPackageInfo_class, Hember, Hnot. repeat split. }
  destruct (isEmberAppPackageJson _) eqn:Hp.
  { rewrite (Happ eq_refl). repeat split. }
  destruct (isEmberPackageJson _); repeat split.
Qed.

(* ===================================================================== *)
(** * Listings, package lists and the error reports *)
(* ===================================================================== *)

(** X5. What [addEntry] stores, [findPackage] returns.  After
    [addEntry(entryName, entryVal)], the lookup of a name that does not
    start with ['@'] returns [entryVal] for [entryName] and, for every other
    name, what the listing held under that name before.  Before the call,
    the lookup returns what the listing holds, provided its [hasEntries]
    flag is down only when the listing is empty. *)
Theorem findPackage_after_addEntry
    (fuel : nat) (heap : list NodeModulesList.t) (this : ListRef)
    (self : NodeModulesList.t) (entryName : string) (entryVal : Entry)
    (packageName : string) :
  startsWith packageName "@" = false ->
  (NodeModulesList.deref heap this
   = Some (NodeModulesList.addEntry self entryName entryVal) ->
   NodeModulesList.findPackage (S fuel) heap this (Some packageName)
   = Return (if String.eqb entryName packageName then Some entryVal
             else JsMap.get (NodeModulesList.entries self) packageName))
  /\ (NodeModulesList.deref heap this = Some self ->
      (NodeModulesList.hasEntries self = false -> NodeModulesList.entries self = []) ->
      NodeModulesList.findPackage (S fuel) heap this (Some packageName)
      = Return (JsMap.get (NodeModulesList.entries self) packageName)).
Proof.
  intros Hname. split.
  - intros Hthis. cbn [NodeModulesList.findPackage]. rewrite Hthis.
    cbn [NodeModulesList.addEntry NodeModulesList.hasEntries
         NodeModulesList.entries negb]. rewrite Hname. f_equal.
    destruct (String.eqb_spec entryName packageName) as [->|Hne].
    + apply JsMapFacts.get_set_eq.
    + now apply JsMapFacts.get_set_ne.
  - intros Hthis Hflag. cbn [NodeModulesList.findPackage]. rewrite Hthis.
    destruct (NodeModulesList.hasEntries self); cbn [negb].
    + now rewrite Hname.
    + now rewrite Hflag.
Qed.

Lemma findPackage_after_addEntry_witness :
  NodeModulesList.findPackage 1
    [NodeModulesList.addEntry (NodeModulesList.new "/app/node_modules") "a" (EPackage 0)]
    (ListAt 0) (Some "a") = Return (Some (EPackage 0))
  /\ NodeModulesList.findPackage 1 [NodeModulesList.new "/app/node_modules"]
       (ListAt 0) (Some "a") = Return None.
Proof.
  split.
  - exact (proj1 (findPackage_after_addEntry 0
                    [NodeModulesList.addEntry (NodeModulesList.new "/app/node_modules")
                       "a" (EPackage 0)]
                    (ListAt 0) (NodeModulesList.new "/app/node_modules")
                    "a" (EPackage 0) "a" eq_refl) eq_refl).
  - exact (proj2 (findPackage_after_addEntry 0
                    [NodeModulesList.new "/app/node_modules"]
                    (ListAt 0) (NodeModulesList.new "/app/node_modules")
                    "a" (EPackage 0) "a" eq_refl) eq_refl (fun _ => eq_refl)).
Defined.

(** X6. [getValidPackages] and [getInvalidPackages] split a list of
    packages in two: each package of the list is in exactly one of the two
    results, by its [valid] flag, and each result keeps the order of the
    list. *)
Theorem valid_and_invalid_packages_split
    (valid_of : PkgRef -> bool) (packageList : list PkgRef) :
  let validPackages := PackageInfo.getValidPackages valid_of packageList in
  let invalidPackages := PackageInfo.getInvalidPackages valid_of packageList in
  Permutation packageList (validPackages ++ invalidPackages)
  /\ (forall r, In r validPackages <-> In r packageList /\ valid_of r = true)
  /\ (forall r, In r invalidPackages <-> In r packageList /\ valid_of r = false)
  /\ validPackages `sublist_of` packageList
  /\ invalidPackages `sublist_of` packageList.
Proof.
  cbn zeta. unfold PackageInfo.getValidPackages, PackageInfo.getInvalidPackages.
  split; [|split; [|split; [|split]]].
  - induction packageList as [|r l IH]; [reflexivity|].
    rewrite !filter_cons. destruct (valid_of r) eqn:Hr.
    + rewrite decide_True by reflexivity.
      rewrite decide_False by discriminate. cbn. now apply perm_skip.
    + rewrite decide_False by discriminate.
      rewrite decide_True by reflexivity.
      now apply Permutation_cons_app.
  - intros r. rewrite <- !list_elem_of_In, list_elem_of_filter. tauto.
  - intros r. rewrite <- !list_elem_of_In, list_elem_of_filter. tauto.
  - apply sublist_filter.
  - apply sublist_filter.
Qed.

(** X7. [hasErrors] and [findErrors] agree: the cache has errors exactly
    when [findErrors] returns an entry, and [findErrors] returns the
    entries of the table whose own ledger has an entry, in the order of
    the table. *)
Theorem hasErrors_iff_findErrors (c : PackageInfoCache.t) :
  (PackageInfoCache.hasErrors c = true <-> PackageInfoCache.findErrors c <> [])
  /\ (forall e, In e (PackageInfoCache.findErrors c)
                <-> In e (JsMap.values (PackageInfoCache.entries c))
                    /\ PackageInfoCache.entryHasErrors c e = true)
  /\ PackageInfoCache.findErrors c `sublist_of` JsMap.values (PackageInfoCache.entries c).
Proof.
  unfold PackageInfoCache.hasErrors, PackageInfoCache.findErrors.
  generalize (JsMap.values (PackageInfoCache.entries c)). intros values.
  split; [|split].
  - rewrite existsb_exists. split.
    + intros (e & He & Herr) Hnil.
      assert (Hin : In e (List.filter (PackageInfoCache.entryHasErrors c) values))
        by (apply List.filter_In; auto).
      rewrite Hnil in Hin. destruct Hin.
    + destruct (List.filter _ values) as [|e rest] eqn:Hf; [congruence|].
      intros _. exists e. apply List.filter_In. rewrite Hf. now left.
  - intros e. apply List.filter_In.
  - induction values as [|e values IH]; cbn [List.filter]; [constructor|].
    destruct (PackageInfoCache.entryHasErrors c e);
      [now apply sublist_skip|now apply sublist_cons].
Qed.

(* ===================================================================== *)
(** * The states of the cache *)
(* ===================================================================== *)

Lemma stablePackage_refl p : stablePackage p p.
Proof. split; auto. Qed.

Lemma stablePackage_trans p1 p2 p3 :
  stablePackage p1 p2 -> stablePackage p2 p3 -> stablePackage p1 p3.
Proof.
  intros [A1 A2 A3 A4 A5 A6 A7] [B1 B2 B3 B4 B5 B6 B7].
  split; try congruence; auto. etransitivity; eassumption.
Qed.

Lemma stableListing_refl l : stableListing l l.
Proof. split; auto. Qed.

Lemma stableListing_trans l1 l2 l3 :
  stableListing l1 l2 -> stableListing l2 l3 -> stableListing l1 l3.
Proof.
  intros [A1 A2 A3] [B1 B2 B3].
  split; [congruence|etransitivity; eassumption|auto].
Qed.

Lemma ages_refl c : ages c c.
Proof.
  split; intros i x Hx; exists x;
    (split; [assumption|apply stablePackage_refl || apply stableListing_refl]).
Qed.

Lemma ages_trans c1 c2 c3 : ages c1 c2 -> ages c2 c3 -> ages c1 c3.
Proof.
  intros [Hp Hl] [Hp' Hl']. split.
  - intros r p Hr. destruct (Hp r p Hr) as (p2 & Hr2 & Hs).
    destruct (Hp' r p2 Hr2) as (p3 & Hr3 & Hs').
    exists p3. split; [assumption|]. eapply stablePackage_trans; eassumption.
  - intros n l Hn. destruct (Hl n l Hn) as (l2 & Hn2 & Hs).
    destruct (Hl' n l2 Hn2) as (l3 & Hn3 & Hs').
    exists l3. split; [assumption|]. eapply stableListing_trans; eassumption.
Qed.

Lemma lookup_persists_length {A B} (l : list A) (l' : list B) :
  (forall i x, l !! i = Some x -> exists y, l' !! i = Some y) ->
  length l <= length l'.
Proof.
  intros H. destruct (Nat.le_gt_cases (length l) (length l')) as [|Hlt];
    [assumption|].
  destruct (lookup_lt_is_Some_2 l (length l') Hlt) as [x Hx].
  destruct (H _ _ Hx) as [y Hy]. apply lookup_lt_Some in Hy. lia.
Qed.

Lemma ages_lengths c c' :
  ages c c' ->
  length (PackageInfoCache.packageInfos c) <= length (PackageInfoCache.packageInfos c')
  /\ length (PackageInfoCache.nodeModulesLists c)
     <= length (PackageInfoCache.nodeModulesLists c').
Proof.
  intros [Hp Hl]. split; apply lookup_persists_length.
  - intros r p Hr. destruct (Hp r p Hr) as (p' & Hr' & _). eauto.
  - intros n l Hn. destruct (Hl n l Hn) as (l' & Hn' & _). eauto.
Qed.

Lemma soundPackages_ages c c' packages :
  ages c c' -> soundPackages c packages -> soundPackages c' packages.
Proof.
  intros Hages Hs name e He. destruct (Hs name e He) as (r & -> & Hr).
  exists r. split; [reflexivity|]. pose proof (ages_lengths _ _ Hages). lia.
Qed.

Lemma packageOf_ages c c' found :
  ages c c' -> packageOf c found -> packageOf c' found.
Proof.
  intros Hages. destruct found as [e|]; [|auto].
  intros (r & -> & Hr). exists r. split; [reflexivity|].
  pose proof (ages_lengths _ _ Hages). lia.
Qed.

Lemma soundPackage_ages c c' p :
  ages c c' -> soundPackage c p -> soundPackage c' p.
Proof.
  intros Hages [Hv Hty Hmain Hn Hd Hdev Ha].
  pose proof (ages_lengths _ _ Hages) as [Hlp Hll]. split.
  - assumption.
  - assumption.
  - assumption.
  - intros n Hnm. specialize (Hn n Hnm). lia.
  - intros packages Hpk. eapply soundPackages_ages; eauto.
  - intros packages Hpk. eapply soundPackages_ages; eauto.
  - intros addons a Hin Hina. destruct (Ha addons a Hin Hina) as (addon & Hget & Hcls).
    destruct (ages_packages _ _ Hages _ _ Hget) as (addon' & Hget' & Hs).
    exists addon'. split; [assumption|]. now rewrite (stable_class _ _ Hs).
Qed.

Lemma soundListing_ages c c' l :
  ages c c' -> soundListing c l -> soundListing c' l.
Proof.
  intros Hages [Hty Hflag Hent].
  pose proof (ages_lengths _ _ Hages) as [Hlp Hll]. split; [assumption|assumption|].
  intros name e He. destruct (Hent name e He) as (Hdot & Hus & Hkind).
  split; [assumption|split; [assumption|]].
  destruct e as [r|nested].
  - destruct Hkind as [Hat Hr]. split; [assumption|lia].
  - destruct Hkind as (Hat & n & -> & Hn). split; [assumption|].
    exists n. split; [reflexivity|lia].
Qed.

(** A later state in which the table is the same and every object is one
    of before, or is sound, is well formed. *)
Lemma wellFormed_later c c' :
  wellFormed c -> ages c c' ->
  PackageInfoCache.entries c' = PackageInfoCache.entries c ->
  (forall r p, PackageInfoCache.packageInfos c' !! r = Some p ->
     PackageInfoCache.packageInfos c !! r = Some p \/ soundPackage c p) ->
  (forall n l, PackageInfoCache.nodeModulesLists c' !! n = Some l ->
     PackageInfoCache.nodeModulesLists c !! n = Some l \/ soundListing c l) ->
  wellFormed c'.
Proof.
  intros [Wk Wp Wl Wsp Wsl] Hages Hent Hpk Hls. split.
  - now rewrite Hent.
  - intros k r Hk. unfold PackageInfoCache.getEntry in *. rewrite Hent in Hk.
    destruct (Wp k r Hk) as (p & Hr & Hreal).
    destruct (ages_packages _ _ Hages _ _ Hr) as (p' & Hr' & Hs).
    exists p'. split; [assumption|]. now rewrite (stable_realPath _ _ Hs).
  - intros k l Hk. unfold PackageInfoCache.getEntry in *. rewrite Hent in Hk.
    destruct (Wl k l Hk) as (n & nl & -> & Hn & Hreal).
    destruct (ages_listings _ _ Hages _ _ Hn) as (nl' & Hn' & Hs).
    exists n, nl'. split; [reflexivity|]. split; [assumption|].
    now rewrite (stable_listing_realPath _ _ Hs).
  - intros r p Hr. eapply soundPackage_ages; [exact Hages|].
    destruct (Hpk r p Hr) as [Hold|Hnew]; eauto.
  - intros n l Hn. eapply soundListing_ages; [exact Hages|].
    destruct (Hls n l Hn) as [Hold|Hnew]; eauto.
Qed.

Lemma kept_refl c : wellFormed c -> kept c c.
Proof. intros Hwf. split; [assumption|apply ages_refl]. Qed.

Lemma kept_trans c1 c2 c3 : kept c1 c2 -> kept c2 c3 -> kept c1 c3.
Proof.
  intros [_ Ha] [Hwf Ha']. split; [assumption|eapply ages_trans; eassumption].
Qed.

Lemma kept_insert_package c r p q :
  wellFormed c -> PackageInfoCache.packageInfos c !! r = Some p ->
  stablePackage p q -> soundPackage c q ->
  kept c (PackageInfoCache.set_packageInfos
            (<[r := q]> (PackageInfoCache.packageInfos c)) c).
Proof.
  intros Hwf Hr Hstable Hsound.
  assert (Hages : ages c (PackageInfoCache.set_packageInfos
                            (<[r := q]> (PackageInfoCache.packageInfos c)) c)).
  { split; cbn.
    - intros r0 p0 Hr0. destruct (decide (r = r0)) as [<-|Hne].
      + exists q. rewrite list_lookup_insert_eq by (eapply lookup_lt_Some; eassumption).
        split; [reflexivity|]. congruence.
      + exists p0. rewrite list_lookup_insert_ne by assumption.
        split; [assumption|apply stablePackage_refl].
    - intros n l Hn. exists l. split; [assumption|apply stableListing_refl]. }
  split; [|exact Hages].
  apply (wellFormed_later c); [assumption|assumption|reflexivity| |]; cbn.
  - intros r0 p0 Hr0. destruct (decide (r = r0)) as [<-|Hne].
    + rewrite list_lookup_insert_eq in Hr0 by (eapply lookup_lt_Some; eassumption).
      injection Hr0 as <-. now right.
    + rewrite list_lookup_insert_ne in Hr0 by assumption. now left.
  - intros n l Hn. now left.
Qed.

Lemma kept_push_package c p :
  wellFormed c -> soundPackage c p ->
  kept c (PackageInfoCache.set_packageInfos (PackageInfoCache.packageInfos c ++ [p]) c).
Proof.
  intros Hwf Hsound.
  assert (Hages : ages c (PackageInfoCache.set_packageInfos
                            (PackageInfoCache.packageInfos c ++ [p]) c)).
  { split; cbn.
    - intros r0 p0 Hr0. exists p0. split; [|apply stablePackage_refl].
      now apply lookup_app_l_Some.
    - intros n l Hn. exists l. split; [assumption|apply stableListing_refl]. }
  split; [|exact Hages].
  apply (wellFormed_later c); [assumption|assumption|reflexivity| |]; cbn.
  - intros r0 p0 Hr0. apply lookup_app_Some in Hr0 as [Hold|[_ Hnew]]; [now left|].
    right. destruct (r0 - length (PackageInfoCache.packageInfos c)) as [|i];
      cbn in Hnew; [now injection Hnew as <-|discriminate].
  - intros n l Hn. now left.
Qed.

Lemma kept_insert_listing c n l l' :
  wellFormed c -> PackageInfoCache.nodeModulesLists c !! n = Some l ->
  stableListing l l' -> soundListing c l' ->
  kept c (PackageInfoCache.set_nodeModulesLists
            (<[n := l']> (PackageInfoCache.nodeModulesLists c)) c).
Proof.
  intros Hwf Hn Hstable Hsound.
  assert (Hages : ages c (PackageInfoCache.set_nodeModulesLists
                            (<[n := l']> (PackageInfoCache.nodeModulesLists c)) c)).
  { split; cbn.
    - intros r p Hr. exists p. split; [assumption|apply stablePackage_refl].
    - intros n0 l0 Hn0. destruct (decide (n = n0)) as [<-|Hne].
      + exists l'. rewrite list_lookup_insert_eq by (eapply lookup_lt_Some; eassumption).
        split; [reflexivity|]. congruence.
      + exists l0. rewrite list_lookup_insert_ne by assumption.
        split; [assumption|apply stableListing_refl]. }
  split; [|exact Hages].
  apply (wellFormed_later c); [assumption|assumption|reflexivity| |]; cbn.
  - intros r p Hr. now left.
  - intros n0 l0 Hn0. destruct (decide (n = n0)) as [<-|Hne].
    + rewrite list_lookup_insert_eq in Hn0 by (eapply lookup_lt_Some; eassumption).
      injection Hn0 as <-. now right.
    + rewrite list_lookup_insert_ne in Hn0 by assumption. now left.
Qed.

Lemma kept_push_listing c l :
  wellFormed c -> soundListing c l ->
  kept c (PackageInfoCache.set_nodeModulesLists
            (PackageInfoCache.nodeModulesLists c ++ [l]) c).
Proof.
  intros Hwf Hsound.
  assert (Hages : ages c (PackageInfoCache.set_nodeModulesLists
                            (PackageInfoCache.nodeModulesLists c ++ [l]) c)).
  { split; cbn.
    - intros r p Hr. exists p. split; [assumption|apply stablePackage_refl].
    - intros n0 l0 Hn0. exists l0. split; [|apply stableListing_refl].
      now apply lookup_app_l_Some. }
  split; [|exact Hages].
  apply (wellFormed_later c); [assumption|assumption|reflexivity| |]; cbn.
  - intros r p Hr. now left.
  - intros n0 l0 Hn0. apply lookup_app_Some in Hn0 as [Hold|[_ Hnew]]; [now left|].
    right. destruct (n0 - length (PackageInfoCache.nodeModulesLists c)) as [|i];
      cbn in Hnew; [now injection Hnew as <-|discriminate].
Qed.

Lemma kept_addEntry c k e :
  wellFormed c ->
  match e with
  | EPackage r =>
      exists p, PackageInfoCache.packageInfos c !! r = Some p
                /\ PackageInfo.realPath p = k
  | EList l =>
      exists n nl, l = ListAt n
                   /\ PackageInfoCache.nodeModulesLists c !! n = Some nl
                   /\ NodeModulesList.realPath nl = k
  end ->
  kept c (PackageInfoCache.addEntry k e c).
Proof.
  intros [Wk Wp Wl Wsp Wsl] He. split; [|split; cbn; eauto using stablePackage_refl, stableListing_refl].
  split; cbn.
  - now apply JsMapFacts.keys_set_NoDup.
  - intros k' r Hk'. unfold PackageInfoCache.getEntry, PackageInfoCache.addEntry in Hk'.
    cbn in Hk'. destruct (String.eqb_spec k k') as [<-|Hne].
    + rewrite JsMapFacts.get_set_eq in Hk'. injection Hk' as ->. exact He.
    + rewrite JsMapFacts.get_set_ne in Hk' by assumption. now apply Wp.
  - intros k' l Hk'. unfold PackageInfoCache.getEntry, PackageInfoCache.addEntry in Hk'.
    cbn in Hk'. destruct (String.eqb_spec k k') as [<-|Hne].
    + rewrite JsMapFacts.get_set_eq in Hk'. injection Hk' as ->. exact He.
    + rewrite JsMapFacts.get_set_ne in Hk' by assumption. now apply Wl.
  - intros r p Hr. destruct (Wsp r p Hr). split; auto.
  - intros n l Hn. destruct (Wsl n l Hn). split; auto.
Qed.

Lemma kept_set_rootPackage c v :
  wellFormed c -> kept c (PackageInfoCache.set_rootPackage v c).
Proof.
  intros [Wk Wp Wl Wsp Wsl]. split; [|split; cbn; eauto using stablePackage_refl, stableListing_refl].
  split; cbn; auto.
  - intros r p Hr. destruct (Wsp r p Hr). split; auto.
  - intros n l Hn. destruct (Wsl n l Hn). split; auto.
Qed.

Lemma kept_set_projectRootDir c v :
  wellFormed c -> kept c (set_projectRootDir v c).
Proof.
  intros [Wk Wp Wl Wsp Wsl]. split; [|split; cbn; eauto using stablePackage_refl, stableListing_refl].
  split; cbn; auto.
  - intros r p Hr. destruct (Wsp r p Hr). split; auto.
  - intros n l Hn. destruct (Wsl n l Hn). split; auto.
Qed.

(** ** Rules for [guarantees] *)

Lemma guarantees_ret {A} (a : A) c (Q : A -> PackageInfoCache.t -> Prop) :
  wellFormed c -> Q a c -> guarantees (ret a) c Q.
Proof. intros Hwf HQ. split; [now apply kept_refl|assumption]. Qed.

Lemma guarantees_throw {A} error c (Q : A -> PackageInfoCache.t -> Prop) :
  wellFormed c -> ownError error -> guarantees (throw error) c Q.
Proof. intros Hwf Hown. split; [now apply kept_refl|assumption]. Qed.

Lemma guarantees_bind {A B} (m : M A) (k : A -> M B) c
    (Q : A -> PackageInfoCache.t -> Prop) (R : B -> PackageInfoCache.t -> Prop) :
  guarantees m c Q ->
  (forall a c1, kept c c1 -> Q a c1 -> guarantees (k a) c1 R) ->
  guarantees (bind m k) c R.
Proof.
  unfold guarantees, bind. destruct (m c) as [a c1|e c1|]; [|auto|auto].
  intros [Hk HQ] Hcont. specialize (Hcont a c1 Hk HQ).
  destruct (k a c1) as [b c2|e c2|]; [| |auto].
  - destruct Hcont as [Hk' HR]. eauto using kept_trans.
  - destruct Hcont as [Hk' Hown]. eauto using kept_trans.
Qed.

Lemma guarantees_weaken {A} (m : M A) c
    (Q Q' : A -> PackageInfoCache.t -> Prop) :
  guarantees m c Q ->
  (forall a c', kept c c' -> Q a c' -> Q' a c') ->
  guarantees m c Q'.
Proof.
  unfold guarantees. destruct (m c) as [a c1|e c1|]; [|auto|auto].
  intros [Hk HQ] Himp. auto.
Qed.

Lemma guarantees_forEach {A} (J : PackageInfoCache.t -> Prop)
    (array : list A) (callback : A -> M unit) c :
  wellFormed c -> J c ->
  (forall x c1, In x array -> kept c c1 -> J c1 ->
     guarantees (callback x) c1 (fun _ c2 => J c2)) ->
  guarantees (forEach array callback) c (fun _ c' => J c').
Proof.
  revert c. induction array as [|x rest IH]; intros c Hwf HJ Hstep.
  - now apply guarantees_ret.
  - cbn [forEach]. eapply guarantees_bind.
    + apply Hstep; [now left|now apply kept_refl|assumption].
    + intros u c1 Hk HJ1. apply IH; [apply Hk|assumption|].
      intros y c2 Hy Hk2 HJ2. apply Hstep; [now right| |assumption].
      eapply kept_trans; eassumption.
Qed.

Lemma guarantees_leaves {A} (m : M A) c (Q : A -> PackageInfoCache.t -> Prop) c' :
  guarantees m c Q -> leaves (m c) c' -> kept c c'.
Proof.
  unfold guarantees, leaves. destruct (m c) as [a c1|e c1|]; [| |easy].
  - now intros [H _] <-.
  - now intros [H _] <-.
Qed.

Lemma guarantees_readPackageInfo r c (Q : PackageInfo.t -> PackageInfoCache.t -> Prop) :
  wellFormed c -> r < length (PackageInfoCache.packageInfos c) ->
  (forall p, PackageInfoCache.packageInfos c !! r = Some p -> Q p c) ->
  guarantees (readPackageInfo r) c Q.
Proof.
  intros Hwf Hr HQ. unfold guarantees, readPackageInfo.
  destruct (lookup_lt_is_Some_2 _ _ Hr) as [p Hp]. rewrite Hp.
  split; [now apply kept_refl|auto].
Qed.

Lemma guarantees_allocatePackageInfo p c :
  wellFormed c -> soundPackage c p ->
  guarantees (allocatePackageInfo p) c
    (fun r c' => r = length (PackageInfoCache.packageInfos c)
                 /\ PackageInfoCache.packageInfos c' !! r = Some p).
Proof.
  intros Hwf Hsound. unfold guarantees, allocatePackageInfo.
  split; [now apply kept_push_package|]. split; [reflexivity|]. cbn.
  apply lookup_snoc.
Qed.

Lemma guarantees_updatePackageInfo r f c :
  wellFormed c -> r < length (PackageInfoCache.packageInfos c) ->
  (forall p, PackageInfoCache.packageInfos c !! r = Some p ->
     stablePackage p (f p) /\ soundPackage c (f p)) ->
  guarantees (updatePackageInfo r f) c
    (fun _ c' => exists p, PackageInfoCache.packageInfos c !! r = Some p
                           /\ PackageInfoCache.packageInfos c' !! r = Some (f p)).
Proof.
  intros Hwf Hlt Hf. unfold guarantees, updatePackageInfo.
  destruct (lookup_lt_is_Some_2 _ _ Hlt) as [p Hr]. rewrite Hr.
  destruct (Hf p Hr) as [Hstable Hsound].
  split; [now apply (kept_insert_package c r p)|].
  exists p. split; [reflexivity|]. cbn.
  apply list_lookup_insert_eq. eapply lookup_lt_Some; eassumption.
Qed.

Lemma guarantees_allocateNodeModulesList l c :
  wellFormed c -> soundListing c l ->
  guarantees (allocateNodeModulesList l) c
    (fun r c' => r = ListAt (length (PackageInfoCache.nodeModulesLists c))
                 /\ PackageInfoCache.nodeModulesLists c'
                    !! length (PackageInfoCache.nodeModulesLists c) = Some l).
Proof.
  intros Hwf Hsound. unfold guarantees, allocateNodeModulesList.
  split; [now apply kept_push_listing|]. split; [reflexivity|]. cbn.
  apply lookup_snoc.
Qed.

Lemma guarantees_updateNodeModulesList n f c :
  wellFormed c -> n < length (PackageInfoCache.nodeModulesLists c) ->
  (forall l, PackageInfoCache.nodeModulesLists c !! n = Some l ->
     stableListing l (f l) /\ soundListing c (f l)) ->
  guarantees (updateNodeModulesList (ListAt n) f) c (fun _ _ => True).
Proof.
  intros Hwf Hlt Hf. unfold guarantees, updateNodeModulesList.
  destruct (lookup_lt_is_Some_2 _ _ Hlt) as [l Hn]. rewrite Hn.
  destruct (Hf l Hn) as [Hstable Hsound].
  split; [now apply (kept_insert_listing c n l)|exact I].
Qed.

Lemma guarantees_addEntry k e c (Q : unit -> PackageInfoCache.t -> Prop) :
  wellFormed c ->
  match e with
  | EPackage r =>
      exists p, PackageInfoCache.packageInfos c !! r = Some p
                /\ PackageInfo.realPath p = k
  | EList l =>
      exists n nl, l = ListAt n
                   /\ PackageInfoCache.nodeModulesLists c !! n = Some nl
                   /\ NodeModulesList.realPath nl = k
  end ->
  Q tt (PackageInfoCache.addEntry k e c) ->
  guarantees (fun c => Ok tt (PackageInfoCache.addEntry k e c)) c Q.
Proof. intros Hwf He HQ. split; [now apply kept_addEntry|assumption]. Qed.

Ltac lengths :=
  repeat match goal with
         | H : kept _ _ |- _ =>
             pose proof (ages_lengths _ _ (proj2 H)); clear H
         end;
  lia.

Lemma hasErrors_addError errors errorType errorData :
  ErrorList.hasErrors (ErrorList.addError errors errorType errorData) = true.
Proof.
  unfold ErrorList.hasErrors, ErrorList.addError.
  cbn [ErrorList.errors]. rewrite length_app. apply Nat.ltb_lt. cbn. lia.
Qed.

Ltac own :=
  unfold ownError, thrownErrors; cbn [In];
  repeat first [left; reflexivity | right].

Ltac typed :=
  split; intros Hin; cbv in Hin;
  repeat (destruct Hin as [Hin|Hin]; try discriminate Hin); eauto; try contradiction.

Lemma typedLedger_addError errors errorType errorData :
  typedLedger errors -> typedEntry (ErrorEntry.mk errorType errorData) ->
  typedLedger (ErrorList.addError errors errorType errorData).
Proof.
  unfold typedLedger, ErrorList.addError. cbn [ErrorList.errors].
  intros Hty He. apply List.Forall_app. split; [assumption|].
  constructor; [assumption|constructor].
Qed.

Lemma soundPackage_addError c p errorType errorData :
  soundPackage c p -> typedEntry (ErrorEntry.mk errorType errorData) ->
  soundPackage c (PackageInfo.addError p errorType errorData)
  /\ soundPackage c
       (PackageInfo.set_valid false (PackageInfo.addError p errorType errorData)).
Proof.
  intros [Hv Hty Hmain Hn Hd Hdev Ha] He.
  assert (Hmain' :
    instanceofEmberAddonPackageInfo (PackageInfo.class p) = true ->
    forall valid, (PackageInfo.valid p = false -> valid = false) ->
    truthyPath (PackageInfo.addonMainPath p) = true
    \/ (valid = false
        /\ exists mainPath,
             In (ErrorEntry.mk ERRORS.ERROR_EMBER_ADDON_MAIN_MISSING
                   (DataString mainPath))
                (ErrorList.errors (PackageInfo.errors p)
                 ++ [ErrorEntry.mk errorType errorData]))).
  { intros Hcls valid Hvalid.
    destruct (Hmain Hcls) as [Hpath|(Hinvalid & mainPath & Hin)]; [now left|].
    right. split; [auto|]. exists mainPath. apply List.in_app_iff. now left. }
  split; split; try (intros _; apply hasErrors_addError);
    cbn; auto using typedLedger_addError.
Qed.

(** ** The objects the factory creates *)

Section FactoryFacts.
Variable fs : FileSystem.
Variable path : PathModule.

Lemma newEmberAddonPackageInfo_sound c class packageJson realPath isRoot :
  soundPackage c (newEmberAddonPackageInfo fs path class packageJson realPath isRoot)
  /\ PackageInfo.realPath
       (newEmberAddonPackageInfo fs path class packageJson realPath isRoot) = realPath.
Proof.
  unfold newEmberAddonPackageInfo. cbn zeta.
  destruct (truthyPath _) eqn:Hmain; (split; [|reflexivity]).
  - split; cbn; try discriminate; auto. constructor.
  - split; cbn; try discriminate; auto.
    + constructor; [typed|constructor].
    + intros _. right. split; [reflexivity|]. eexists. now left.
Qed.

Lemma PackageInfo_new_sound c class pkgObj realPath isRoot :
  instanceofEmberAddonPackageInfo class = false ->
  soundPackage c (PackageInfo.new class pkgObj realPath isRoot).
Proof.
  intros Hcls. split; cbn; try discriminate; [constructor|].
  rewrite Hcls. discriminate.
Qed.

Lemma PackageInfoFactory_create_sound c pkgJson realPath isRoot :
  soundPackage c (PackageInfoFactory_create fs path pkgJson realPath isRoot)
  /\ PackageInfo.realPath (PackageInfoFactory_create fs path pkgJson realPath isRoot)
     = realPath.
Proof.
  unfold PackageInfoFactory_create. cbn zeta.
  destruct (isEmberEnginePackageJson _); [apply newEmberAddonPackageInfo_sound|].
  destruct (isEmberAddonPackageJson _); [apply newEmberAddonPackageInfo_sound|].
  destruct (isEmberAppPackageJson _);
    [split; [now apply PackageInfo_new_sound|reflexivity]|].
  destruct (isEmberPackageJson _);
    (split; [now apply PackageInfo_new_sound|reflexivity]).
Qed.

(** The placeholder descriptor makes a plain package. *)
Lemma PackageInfoFactory_create_placeholder realPath isRoot :
  PackageInfoFactory_create fs path
    (JsMap.set [("name", JStr "invalid package.json")] "root" (JStr realPath))
    realPath isRoot
  = PackageInfo.new ClassPackageInfo
      [("name", JStr "invalid package.json"); ("root", JStr realPath)] realPath isRoot.
Proof. reflexivity. Qed.

(** No descriptor is read when an error was recorded. *)
Lemma readPackageJson_errors realPath pathFailed setupErrors packageJson errors :
  (ErrorList.hasErrors setupErrors = true -> pathFailed = true) ->
  readPackageJson fs path realPath pathFailed setupErrors = (packageJson, errors) ->
  ErrorList.hasErrors errors = true -> packageJson = None.
Proof.
  intros Hsetup. unfold readPackageJson.
  destruct pathFailed; cbn [negb]; [now intros [= <- <-]|].
  destruct (truthyPath _); [|now intros [= <- <-]].
  destruct (readJsonSync fs _); [|now intros [= <- <-]].
  intros [= <- <-] He. now specialize (Hsetup He).
Qed.

Lemma readPackageJson_typed realPath pathFailed setupErrors packageJson errors :
  typedLedger setupErrors ->
  readPackageJson fs path realPath pathFailed setupErrors = (packageJson, errors) ->
  typedLedger errors.
Proof.
  intros Hty. unfold readPackageJson.
  destruct pathFailed; cbn [negb]; [now intros [= <- <-]|].
  destruct (truthyPath _).
  - destruct (readJsonSync fs _); intros [= <- <-]; [assumption|].
    apply typedLedger_addError; [assumption|typed].
  - intros [= <- <-]. apply typedLedger_addError; [assumption|typed].
Qed.
End FactoryFacts.

(** ** The readers keep the cache *)

Section ReadersKeep.
Variable fs : FileSystem.
Variable path : PathModule.

Section Bodies.
Variable readPackage' : string -> bool -> M PkgRef.
Variable readNodeModulesList' : string -> M (option ListRef).
Hypothesis readPackage_guarantees' :
  forall dir isRoot c, wellFormed c ->
    guarantees (readPackage' dir isRoot) c
      (fun r c' => r < length (PackageInfoCache.packageInfos c')).
Hypothesis readNodeModulesList_guarantees' :
  forall dir c, wellFormed c ->
    guarantees (readNodeModulesList' dir) c (fun l c' => listingOf c' l).

Lemma addInRepoAddonPath_guarantees newPackageInfo realPath p c :
  wellFormed c -> newPackageInfo < length (PackageInfoCache.packageInfos c) ->
  guarantees (addInRepoAddonPath path readPackage' newPackageInfo realPath p) c
    (fun _ _ => True).
Proof.
  intros Hwf Hnew. unfold addInRepoAddonPath.
  destruct p as [| | |p| |]; try (apply guarantees_throw; [assumption|own]).
  eapply guarantees_bind; [now apply readPackage_guarantees'|].
  intros addonPkgInfo c1 Hk1 Hr1. cbv beta in Hr1.
  eapply guarantees_bind.
  { apply (guarantees_readPackageInfo _ _
             (fun addon c2 => PackageInfoCache.packageInfos c2 !! addonPkgInfo
                              = Some addon)); [apply Hk1|exact Hr1|auto]. }
  intros addon c2 Hk2 Haddon.
  assert (Hnew2 : newPackageInfo < length (PackageInfoCache.packageInfos c2))
    by lengths.
  destruct (instanceofEmberAddonPackageInfo (PackageInfo.class addon)) eqn:Hclass.
  - eapply guarantees_bind.
    { apply (guarantees_readPackageInfo _ _
               (fun _ c3 => PackageInfoCache.packageInfos c3 !! addonPkgInfo
                            = Some addon)); [apply Hk2|exact Hnew2|auto]. }
    intros self c3 Hk3 Haddon3. cbv beta in Haddon3.
    assert (Hnew3 : newPackageInfo < length (PackageInfoCache.packageInfos c3))
      by lengths.
    destruct (_ || _); [|apply guarantees_throw; [apply Hk3|own]].
    eapply guarantees_weaken; [|auto].
    apply guarantees_updatePackageInfo; [apply Hk3|exact Hnew3|].
    intros q Hq. split; [split; cbn; auto|].
    destruct (wf_packages _ (proj1 Hk3) _ _ Hq) as [Hv Hty Hmain Hn Hd Hdev Ha].
    split; cbn; auto.
    intros addons a [= <-] Hin.
    destruct (PackageInfo.inRepoAddons q) as [l|] eqn:Hl.
    + apply List.in_app_iff in Hin as [Hin|[<-|[]]]; eauto.
    + destruct Hin as [<-|[]]. eauto.
  - eapply guarantees_weaken; [|auto].
    apply guarantees_updatePackageInfo; [apply Hk2|exact Hnew2|].
    intros q Hq. split.
    + split; cbn; auto. now apply prefix_app_r.
    + apply soundPackage_addError;
        [apply (wf_packages _ (proj1 Hk2) _ _ Hq)|typed].
Qed.

Lemma createPackage_guarantees realPath pathFailed setupErrors isRoot c :
  wellFormed c -> typedLedger setupErrors ->
  (ErrorList.hasErrors setupErrors = true -> pathFailed = true) ->
  guarantees (createPackage fs path readPackage' readNodeModulesList'
                realPath pathFailed setupErrors isRoot) c
    (fun r c' => r < length (PackageInfoCache.packageInfos c')).
Proof.
  intros Hwf Htyped Hsetup. unfold createPackage.
  destruct (readPackageJson fs path realPath pathFailed setupErrors)
    as [packageJson errors] eqn:Hjson.
  pose proof (readPackageJson_errors _ _ _ _ _ _ _ Hsetup Hjson) as Hnone.
  pose proof (readPackageJson_typed _ _ _ _ _ _ _ Htyped Hjson) as Herrors.
  eapply guarantees_bind.
  { apply guarantees_allocatePackageInfo; [assumption|].
    apply PackageInfoFactory_create_sound. }
  intros new c1 Hk1 [_ Hnew].
  assert (Hlt1 : new < length (PackageInfoCache.packageInfos c1))
    by (eapply lookup_lt_Some; eassumption).
  eapply (guarantees_bind _ _ _
            (fun _ c2 => exists q, PackageInfoCache.packageInfos c2 !! new = Some q
                                   /\ PackageInfo.realPath q = realPath)).
  { destruct (ErrorList.hasErrors errors) eqn:He.
    - eapply guarantees_weaken.
      + apply guarantees_updatePackageInfo; [apply Hk1|exact Hlt1|].
        intros q Hq. rewrite Hnew in Hq. injection Hq as <-.
        rewrite (Hnone eq_refl), PackageInfoFactory_create_placeholder.
        split; split; cbn; try discriminate; auto.
        apply prefix_nil.
      + intros _ c2 _ (q & Hq & Hq'). rewrite Hnew in Hq. injection Hq as <-.
        eexists. split; [exact Hq'|]. cbn. apply PackageInfoFactory_create_sound.
        exact c.
    - apply guarantees_ret; [apply Hk1|].
      eexists. split; [exact Hnew|]. apply PackageInfoFactory_create_sound. exact c. }
  intros u2 c2 Hk2 (q2 & Hq2 & Hreal2).
  eapply (guarantees_bind _ _ _
            (fun _ c3 => new < length (PackageInfoCache.packageInfos c3))).
  { apply guarantees_addEntry; [apply Hk2|eauto|].
    cbn. eapply lookup_lt_Some; eassumption. }
  intros u3 c3 Hk3 Hlt3.
  eapply guarantees_bind.
  { apply (guarantees_readPackageInfo _ _
             (fun _ c4 => new < length (PackageInfoCache.packageInfos c4)));
      [apply Hk3|exact Hlt3|auto]. }
  intros self c4 Hk4 Hlt4. cbv beta in Hlt4.
  eapply (guarantees_bind _ _ _ (fun _ _ => True)).
  { destruct (isStringArray _) as [paths|].
    - apply (guarantees_forEach (fun _ => True)); [apply Hk4|exact I|].
      intros p d _ Hd _. apply addInRepoAddonPath_guarantees; [apply Hd|].
      pose proof (ages_lengths _ _ (proj2 Hd)). lia.
    - apply guarantees_ret; [apply Hk4|exact I]. }
  intros u5 c5 Hk5 _.
  assert (Hlt5 : new < length (PackageInfoCache.packageInfos c5))
    by (pose proof (ages_lengths _ _ (proj2 Hk5)); lia).
  eapply guarantees_bind.
  { apply (guarantees_readPackageInfo _ _ (fun _ _ => True));
      [apply Hk5|exact Hlt5|auto]. }
  intros self' c6 Hk6 _.
  assert (Hlt6 : new < length (PackageInfoCache.packageInfos c6))
    by (pose proof (ages_lengths _ _ (proj2 Hk6)); lia).
  eapply (guarantees_bind _ _ _ (fun _ _ => True)).
  { destruct (_ || _).
    - eapply guarantees_bind; [apply readNodeModulesList_guarantees'; apply Hk6|].
      intros nodeModules c7 Hk7 Hl7.
      assert (Hlt7 : new < length (PackageInfoCache.packageInfos c7))
        by (pose proof (ages_lengths _ _ (proj2 Hk7)); lia).
      destruct nodeModules as [l|].
      + eapply guarantees_weaken; [|auto].
        apply guarantees_updatePackageInfo; [apply Hk7|exact Hlt7|].
        intros q Hq. split; [split; cbn; auto|].
        destruct (wf_packages _ (proj1 Hk7) _ _ Hq) as [Hv Hty Hmain Hn Hd Hdev Ha].
        split; cbn; auto.
        intros n [= ->]. destruct Hl7 as (n' & [= <-] & Hn'). exact Hn'.
      + apply guarantees_ret; [apply Hk7|exact I].
    - eapply guarantees_weaken; [|auto].
      apply guarantees_updatePackageInfo; [apply Hk6|exact Hlt6|].
      intros q Hq. split; [split; cbn; auto|].
      destruct (wf_packages _ (proj1 Hk6) _ _ Hq) as [Hv Hty Hmain Hn Hd Hdev Ha].
      split; cbn; auto. discriminate. }
  intros u8 c8 Hk8 _. apply guarantees_ret; [apply Hk8|]. lengths.
Qed.

Lemma readPackage_body_guarantees packageDir isRoot c :
  wellFormed c ->
  guarantees (readPackage_body fs path readPackage' readNodeModulesList'
                packageDir isRoot) c
    (fun r c' => r < length (PackageInfoCache.packageInfos c')).
Proof.
  intros Hwf.
  assert (Hfound : forall k r, PackageInfoCache.getEntry c k = Some (EPackage r) ->
                     r < length (PackageInfoCache.packageInfos c)).
  { intros k r Hk. destruct (wf_table_packages _ Hwf _ _ Hk) as (p & Hp & _).
    eapply lookup_lt_Some; eassumption. }
  unfold guarantees at 1. unfold readPackage_body. cbn zeta.
  destruct (PackageInfoCache.getEntry c (normalize path packageDir))
    as [[r0|l0]|] eqn:Hentry.
  { split; [now apply kept_refl|eauto]. }
  { split; [now apply kept_refl|own]. }
  destruct (getRealDirectoryPath fs (normalize path packageDir)) as [realPath|].
  - destruct (negb (String.eqb realPath (normalize path packageDir))).
    + destruct (PackageInfoCache.getEntry c realPath) as [[r0|l0]|] eqn:Hentry'.
      * split; [now apply kept_refl|eauto].
      * split; [now apply kept_refl|own].
      * apply createPackage_guarantees; [assumption|constructor|discriminate].
    + apply createPackage_guarantees; [assumption|constructor|discriminate].
  - apply createPackage_guarantees; [assumption| |reflexivity].
    apply typedLedger_addError; [constructor|typed].
Qed.

Lemma isNodeModulesEntry_name realPath fileName :
  isNodeModulesEntry fs realPath fileName = true ->
  startsWith fileName "." = false /\ startsWith fileName "_" = false.
Proof.
  unfold isNodeModulesEntry.
  destruct (startsWith fileName "."), (startsWith fileName "_");
    cbn [orb]; try discriminate. auto.
Qed.

Lemma soundListing_addEntry c l entryName entryVal :
  soundListing c l ->
  startsWith entryName "." = false -> startsWith entryName "_" = false ->
  match entryVal with
  | EPackage r =>
      startsWith entryName "@" = false
      /\ r < length (PackageInfoCache.packageInfos c)
  | EList nested =>
      startsWith entryName "@" = true
      /\ exists n, nested = ListAt n
                   /\ n < length (PackageInfoCache.nodeModulesLists c)
  end ->
  stableListing l (NodeModulesList.addEntry l entryName entryVal)
  /\ soundListing c (NodeModulesList.addEntry l entryName entryVal).
Proof.
  intros [Hty Hflag Hent] Hdot Hus Hkind. split.
  - split; cbn; auto. intros name Hname.
    destruct (String.eqb_spec entryName name) as [<-|Hne].
    + now rewrite JsMapFacts.get_set_eq.
    + now rewrite JsMapFacts.get_set_ne.
  - split; cbn.
    + assumption.
    + destruct (NodeModulesList.entries l) as [|[k v] rest]; cbn; [reflexivity|].
      now destruct (String.eqb k entryName).
    + intros name e. destruct (String.eqb_spec entryName name) as [<-|Hne].
      * rewrite JsMapFacts.get_set_eq. intros [= <-]. auto.
      * rewrite JsMapFacts.get_set_ne by assumption. apply Hent.
Qed.

Lemma readNodeModulesEntry_guarantees n realPath entryName c :
  wellFormed c -> n < length (PackageInfoCache.nodeModulesLists c) ->
  isNodeModulesEntry fs realPath entryName = true ->
  guarantees (readNodeModulesEntry fs path readPackage' readNodeModulesList'
                (ListAt n) realPath entryName) c
    (fun _ _ => True).
Proof.
  intros Hwf Hn Hname. apply isNodeModulesEntry_name in Hname as [Hdot Hus].
  unfold readNodeModulesEntry. cbn zeta.
  destruct (truthyPath _); [now apply guarantees_ret|].
  destruct (startsWith entryName "@") eqn:Hat.
  - eapply guarantees_bind; [now apply readNodeModulesList_guarantees'|].
    intros entryVal c1 Hk1 Hl.
    assert (Hn1 : n < length (PackageInfoCache.nodeModulesLists c1))
      by (pose proof (ages_lengths _ _ (proj2 Hk1)); lia).
    destruct entryVal as [l|].
    + apply guarantees_updateNodeModulesList; [apply Hk1|exact Hn1|].
      intros self Hself. apply soundListing_addEntry; auto.
      apply (wf_listings _ (proj1 Hk1) _ _ Hself).
    + apply guarantees_updateNodeModulesList; [apply Hk1|exact Hn1|].
      intros self Hself.
      destruct (wf_listings _ (proj1 Hk1) _ _ Hself) as [Hty Hflag Hent].
      split; split; cbn; auto; [now apply prefix_app_r|].
      apply typedLedger_addError; [assumption|typed].
  - eapply guarantees_bind; [now apply readPackage_guarantees'|].
    intros entryVal c1 Hk1 Hr.
    assert (Hn1 : n < length (PackageInfoCache.nodeModulesLists c1))
      by (pose proof (ages_lengths _ _ (proj2 Hk1)); lia).
    apply guarantees_updateNodeModulesList; [apply Hk1|exact Hn1|].
    intros self Hself. apply soundListing_addEntry; auto.
    apply (wf_listings _ (proj1 Hk1) _ _ Hself).
Qed.

Lemma createNodeModulesList_guarantees realPath c :
  wellFormed c ->
  guarantees (createNodeModulesList fs path readPackage' readNodeModulesList'
                realPath) c
    (fun l c' => listingOf c' l).
Proof.
  intros Hwf. unfold createNodeModulesList.
  eapply guarantees_bind.
  { apply guarantees_allocateNodeModulesList; [assumption|].
    split; cbn; [constructor|reflexivity|discriminate]. }
  intros new c1 Hk1 [-> Hnew].
  set (n := length (PackageInfoCache.nodeModulesLists c)) in *.
  assert (Hn1 : n < length (PackageInfoCache.nodeModulesLists c1))
    by (eapply lookup_lt_Some; eassumption).
  eapply (guarantees_bind _ _ _
            (fun _ c2 => exists nl, PackageInfoCache.nodeModulesLists c2 !! n = Some nl
                                    /\ NodeModulesList.realPath nl = realPath)).
  { eapply guarantees_weaken.
    - apply (guarantees_forEach (fun _ => True)); [apply Hk1|exact I|].
      intros entryName d Hin Hd _.
      apply List.filter_In in Hin as [_ Hin].
      apply readNodeModulesEntry_guarantees; [apply Hd| |assumption].
      pose proof (ages_lengths _ _ (proj2 Hd)). lia.
    - intros _ c2 Hk2 _.
      destruct (ages_listings _ _ (proj2 Hk2) _ _ Hnew) as (nl & Hnl & Hs).
      exists nl. split; [assumption|]. now rewrite (stable_listing_realPath _ _ Hs). }
  intros u2 c2 Hk2 (nl & Hnl & Hreal).
  eapply (guarantees_bind _ _ _
            (fun _ c3 => n < length (PackageInfoCache.nodeModulesLists c3))).
  { apply guarantees_addEntry; [apply Hk2|eauto|].
    cbn. eapply lookup_lt_Some; eassumption. }
  intros u3 c3 Hk3 Hlt. apply guarantees_ret; [apply Hk3|].
  exists n. auto.
Qed.

Lemma readNodeModulesList_body_guarantees nodeModulesDir c :
  wellFormed c ->
  guarantees (readNodeModulesList_body fs path readPackage' readNodeModulesList'
                nodeModulesDir) c
    (fun l c' => listingOf c' l).
Proof.
  intros Hwf.
  assert (Hfound : forall k l, PackageInfoCache.getEntry c k = Some (EList l) ->
                     listingOf c (Some l)).
  { intros k l Hk. destruct (wf_table_listings _ Hwf _ _ Hk) as (n & nl & -> & Hn & _).
    exists n. split; [reflexivity|]. eapply lookup_lt_Some; eassumption. }
  unfold guarantees at 1. unfold readNodeModulesList_body. cbn zeta.
  destruct (PackageInfoCache.getEntry c (normalize path nodeModulesDir))
    as [[r0|l0]|] eqn:Hentry.
  { split; [now apply kept_refl|own]. }
  { split; [now apply kept_refl|eauto]. }
  destruct (getRealDirectoryPath fs (normalize path nodeModulesDir)) as [realPath|].
  - destruct (negb (String.eqb realPath (normalize path nodeModulesDir))).
    + destruct (PackageInfoCache.getEntry c realPath) as [[r0|l0]|] eqn:Hentry'.
      * split; [now apply kept_refl|own].
      * split; [now apply kept_refl|eauto].
      * now apply createNodeModulesList_guarantees.
    + now apply createNodeModulesList_guarantees.
  - split; [now apply kept_refl|exact I].
Qed.
End Bodies.

(** Reading a package or a listing, at any depth, keeps the cache, and
    returns an object of the store. *)
Lemma readers_guarantee (fuel : nat) :
  (forall dir isRoot c, wellFormed c ->
     guarantees (readPackage fs path fuel dir isRoot) c
       (fun r c' => r < length (PackageInfoCache.packageInfos c')))
  /\ (forall dir c, wellFormed c ->
        guarantees (readNodeModulesList fs path fuel dir) c
          (fun l c' => listingOf c' l)).
Proof.
  induction fuel as [|fuel [IHp IHl]]; [split; intros; exact I|].
  split.
  - intros dir isRoot c Hwf. cbn [readPackage].
    now apply readPackage_body_guarantees.
  - intros dir c Hwf. cbn [readNodeModulesList].
    now apply readNodeModulesList_body_guarantees.
Qed.
End ReadersKeep.

(** ** The lookups return package objects *)

Lemma soundListing_unscoped c self packageName :
  soundListing c self -> startsWith packageName "@" = false ->
  packageOf c (JsMap.get (NodeModulesList.entries self) packageName).
Proof.
  intros [_ _ Hent] Hat.
  destruct (JsMap.get (NodeModulesList.entries self) packageName) as [e|] eqn:He;
    [|exact I].
  destruct (Hent _ _ He) as (_ & _ & Hkind). destruct e as [r|nested].
  - exists r. split; [reflexivity|apply Hkind].
  - destruct Hkind as [Hat' _]. congruence.
Qed.

Lemma deref_sound c this self :
  wellFormed c ->
  NodeModulesList.deref (PackageInfoCache.nodeModulesLists c) this = Some self ->
  soundListing c self.
Proof.
  intros Hwf. destruct this as [|n]; cbn [NodeModulesList.deref].
  - intros [= <-]. split; cbn; [constructor|reflexivity|discriminate].
  - apply (wf_listings _ Hwf).
Qed.

(** In a well-formed cache the lookup in a listing that can be read fails
    only the way the program does: on the name [undefined]. *)
Lemma listing_findPackage_own c fuel this packageName error :
  wellFormed c -> readableListing c this ->
  NodeModulesList.findPackage fuel (PackageInfoCache.nodeModulesLists c) this
    packageName = Throws error ->
  ownError error.
Proof.
  intros Hwf. revert this packageName.
  induction fuel as [|fuel IH]; intros this packageName Hread; [discriminate|].
  cbn [NodeModulesList.findPackage].
  destruct (NodeModulesList.deref _ this) as [self|] eqn:Hself.
  2:{ exfalso. destruct this as [|n]; [discriminate|].
      cbn in Hself, Hread. apply lookup_ge_None in Hself. lia. }
  pose proof (deref_sound _ _ _ Hwf Hself) as Hs.
  destruct (negb (NodeModulesList.hasEntries self)); [discriminate|].
  destruct packageName as [packageName|]; [|intros [= <-]; own].
  destruct (startsWith packageName "@"); [|discriminate].
  destruct (split "/" packageName !! 0%nat) as [scope|]; [|discriminate].
  destruct (JsMap.get (NodeModulesList.entries self) scope) as [[r|nested]|] eqn:He;
    try discriminate.
  apply IH. destruct (sound_entries _ _ Hs _ _ He) as (_ & _ & _ & n & -> & Hn).
  exact Hn.
Qed.

(** In a well-formed cache the lookup in a listing returns a package
    object or nothing: never a listing. *)
Lemma listing_findPackage_package c this packageName found :
  wellFormed c ->
  NodeModulesList.findPackage NodeModulesList.FIND_DEPTH
    (PackageInfoCache.nodeModulesLists c) this (Some packageName) = Return found ->
  packageOf c found.
Proof.
  intros Hwf. unfold NodeModulesList.FIND_DEPTH.
  cbn [NodeModulesList.findPackage].
  destruct (NodeModulesList.deref _ this) as [self|] eqn:Hself; [|discriminate].
  pose proof (deref_sound _ _ _ Hwf Hself) as Hs.
  destruct (NodeModulesList.hasEntries self); cbn [negb]; [|now intros [= <-]].
  destruct (startsWith packageName "@") eqn:Hat.
  2:{ intros [= <-]. now apply soundListing_unscoped. }
  destruct (split "/" packageName !! 0%nat) as [scope|]; [|now intros [= <-]].
  destruct (JsMap.get (NodeModulesList.entries self) scope) as [[r|nested]|];
    try now intros [= <-].
  destruct (split "/" packageName !! 1%nat) as [part|] eqn:Hpart.
  - assert (Hno : containsChar "/" part = false).
    { apply (split_parts_no_sep "/" packageName).
      apply list_elem_of_In. eapply list_elem_of_lookup_2. exact Hpart. }
    destruct (NodeModulesList.deref _ nested) as [inner|] eqn:Hinner; [|discriminate].
    pose proof (deref_sound _ _ _ Hwf Hinner) as Hs'.
    destruct (NodeModulesList.hasEntries inner); cbn [negb]; [|now intros [= <-]].
    destruct (startsWith part "@") eqn:Hat'.
    2:{ intros [= <-]. now apply soundListing_unscoped. }
    rewrite (split_without_sep _ _ Hno). cbn [lookup list_lookup].
    destruct (JsMap.get (NodeModulesList.entries inner) part) as [[r|nested']|];
      try now intros [= <-].
    destruct (NodeModulesList.deref _ nested') as [inner'|]; [|discriminate].
    destruct (NodeModulesList.hasEntries inner'); cbn [negb];
      [discriminate|now intros [= <-]].
  - destruct (NodeModulesList.deref _ nested) as [inner|]; [|discriminate].
    destruct (NodeModulesList.hasEntries inner); cbn [negb];
      [discriminate|now intros [= <-]].
Qed.

Lemma guarantees_NodeModulesList_findPackage this packageName c :
  wellFormed c -> readableListing c this ->
  guarantees (NodeModulesList_findPackage this packageName) c
    (fun found c' => packageOf c' found).
Proof.
  intros Hwf Hread. unfold guarantees, NodeModulesList_findPackage, liftCompletion.
  destruct (NodeModulesList.findPackage _ _ _ _) as [found|e|] eqn:Hfind;
    [| |exact I].
  - split; [now apply kept_refl|].
    eapply listing_findPackage_package; eassumption.
  - split; [now apply kept_refl|].
    eapply listing_findPackage_own; eassumption.
Qed.

Section SearchKeeps.
Variable fs : FileSystem.
Variable path : PathModule.

Lemma findPackage_loop_guarantees steps fuel packageName root currPath c :
  wellFormed c ->
  guarantees (findPackage_loop fs path steps fuel packageName root currPath) c
    (fun found c' => packageOf c' found).
Proof.
  revert currPath c. induction steps as [|steps IH]; intros currPath c Hwf;
    [exact I|].
  cbn [findPackage_loop].
  destruct (String.eqb currPath root); [now apply guarantees_ret|].
  eapply guarantees_bind; [now apply (readers_guarantee fs path fuel)|].
  intros nodeModulesList c1 Hk1 Hl. destruct nodeModulesList as [l|].
  - eapply guarantees_bind.
    { apply guarantees_NodeModulesList_findPackage; [apply Hk1|].
      destruct Hl as (n & -> & Hn). exact Hn. }
    intros pkg c2 Hk2 Hpkg. destruct pkg as [found|].
    + apply guarantees_ret; [apply Hk2|assumption].
    + apply IH. apply Hk2.
  - apply IH. apply Hk1.
Qed.

Lemma findPackage_guarantees steps fuel packageName startPath c :
  wellFormed c ->
  guarantees (findPackage fs path steps fuel packageName startPath) c
    (fun found c' => packageOf c' found).
Proof. apply findPackage_loop_guarantees. Qed.

Section Helpers.
Variable cache_findPackage : string -> string -> M (option Entry).
Hypothesis cache_findPackage_guarantees :
  forall name dir c, wellFormed c ->
    guarantees (cache_findPackage name dir) c (fun found c' => packageOf c' found).

Lemma lookupDependency_guarantees this dependencyName c :
  wellFormed c -> this < length (PackageInfoCache.packageInfos c) ->
  guarantees (lookupDependency path cache_findPackage this dependencyName) c
    (fun found c' => packageOf c' found).
Proof.
  intros Hwf Hthis. unfold lookupDependency.
  eapply guarantees_bind.
  { apply (guarantees_readPackageInfo _ _
             (fun self c1 => PackageInfoCache.packageInfos c1 !! this = Some self));
      auto. }
  intros self c1 Hk1 Hself. cbv beta in Hself.
  eapply guarantees_bind.
  { destruct (PackageInfo.nodeModules self) as [nodeModules|] eqn:Hnm.
    - apply guarantees_NodeModulesList_findPackage; [apply Hk1|].
      destruct nodeModules as [|n]; [exact I|].
      apply (sound_nodeModules _ _ (wf_packages _ (proj1 Hk1) _ _ Hself) _ Hnm).
    - apply (guarantees_ret _ _ (fun found c' => packageOf c' found));
        [apply Hk1|exact I]. }
  intros dependencyPackage c2 Hk2 Hfound.
  destruct dependencyPackage as [found|].
  - apply guarantees_ret; [apply Hk2|assumption].
  - apply cache_findPackage_guarantees. apply Hk2.
Qed.

Lemma soundPackages_set c packages name r :
  soundPackages c packages -> r < length (PackageInfoCache.packageInfos c) ->
  soundPackages c (JsMap.set packages name (EPackage r)).
Proof.
  intros Hs Hr name' e. destruct (String.eqb_spec name name') as [<-|Hne].
  - rewrite JsMapFacts.get_set_eq. intros [= <-]. eauto.
  - rewrite JsMapFacts.get_set_ne by assumption. apply Hs.
Qed.

Lemma addEachDependency_guarantees this dependencyNames acc c :
  wellFormed c -> this < length (PackageInfoCache.packageInfos c) ->
  soundPackages c (fst acc) ->
  guarantees (addEachDependency path cache_findPackage this dependencyNames acc) c
    (fun acc' c' => soundPackages c' (fst acc')).
Proof.
  revert acc c.
  induction dependencyNames as [|n rest IH]; intros acc c Hwf Hthis Hacc.
  - now apply guarantees_ret.
  - cbn [addEachDependency]. eapply guarantees_bind; [|intros acc1 c1 Hk1 Hacc1;
      apply IH; [apply Hk1| |exact Hacc1];
      pose proof (ages_lengths _ _ (proj2 Hk1)); lia].
    unfold addDependency. eapply guarantees_bind;
      [now apply lookupDependency_guarantees|].
    intros dependencyPackage c1 Hk1 Hfound.
    pose proof (soundPackages_ages _ _ _ (proj2 Hk1) Hacc) as Hacc1.
    destruct dependencyPackage as [found|].
    + apply guarantees_ret; [apply Hk1|]. cbn [fst].
      destruct Hfound as (r & -> & Hr). now apply soundPackages_set.
    + apply guarantees_ret; [apply Hk1|assumption].
Qed.

Lemma doAddDependencies_guarantees this dependenciesObj errorType listName c :
  wellFormed c -> this < length (PackageInfoCache.packageInfos c) ->
  In errorType dependencyErrors ->
  guarantees (doAddDependencies path cache_findPackage this dependenciesObj
                errorType listName) c
    (fun result c' => forall packages, result = Some packages ->
                                       soundPackages c' packages).
Proof.
  intros Hwf Hthis Htype. unfold doAddDependencies.
  destruct dependenciesObj as [obj|]; [|apply guarantees_ret; [assumption|discriminate]].
  destruct (negb (truthy obj)); [apply guarantees_ret; [assumption|discriminate]|].
  destruct (length (Object_keys obj) =? 0)%nat;
    [apply guarantees_ret; [assumption|discriminate]|].
  eapply guarantees_bind.
  { apply addEachDependency_guarantees; [assumption|assumption|].
    intros name e. discriminate. }
  intros [packages missingDependencies] c1 Hk1 Hacc. cbn [fst] in Hacc.
  assert (Hthis1 : this < length (PackageInfoCache.packageInfos c1))
    by (pose proof (ages_lengths _ _ (proj2 Hk1)); lia).
  eapply (guarantees_bind _ _ _ (fun _ c2 => soundPackages c2 packages)).
  { destruct missingDependencies as [|name names]; cbn [length Nat.ltb Nat.leb].
    - apply guarantees_ret; [apply Hk1|assumption].
    - eapply guarantees_weaken.
      + apply guarantees_updatePackageInfo; [apply Hk1|exact Hthis1|].
        intros q Hq. split.
        * split; cbn; auto. now apply prefix_app_r.
        * apply soundPackage_addError;
            [apply (wf_packages _ (proj1 Hk1) _ _ Hq)|].
          split; cbn [ErrorEntry.type ErrorEntry.data]; [|eauto].
          intros Hpath. exfalso. clear - Htype Hpath.
          cbv in Htype, Hpath.
          repeat (destruct Htype as [Htype|Htype]; try contradiction);
            subst errorType;
            repeat (destruct Hpath as [Hpath|Hpath]; try discriminate Hpath);
            contradiction.
      + intros _ c2 Hk2 _. eapply soundPackages_ages; [apply Hk2|assumption]. }
  intros u c2 Hk2 Hpackages. apply guarantees_ret; [apply Hk2|].
  now intros packages' [= <-].
Qed.

Lemma resolvePackageDependencies_guarantees packageInfo c :
  wellFormed c -> packageInfo < length (PackageInfoCache.packageInfos c) ->
  guarantees (resolvePackageDependencies path cache_findPackage packageInfo) c
    (fun _ _ => True).
Proof.
  intros Hwf Hlt. unfold resolvePackageDependencies.
  eapply guarantees_bind.
  { apply (guarantees_readPackageInfo _ _ (fun _ _ => True)); auto. }
  intros p c1 Hk1 _.
  assert (Hlt1 : packageInfo < length (PackageInfoCache.packageInfos c1))
    by (pose proof (ages_lengths _ _ (proj2 Hk1)); lia).
  destruct (negb (PackageInfo.processed p)); [|apply guarantees_ret; [apply Hk1|exact I]].
  eapply guarantees_bind.
  { apply doAddDependencies_guarantees; [apply Hk1|exact Hlt1|now left]. }
  intros pkgs c2 Hk2 Hpkgs.
  assert (Hlt2 : packageInfo < length (PackageInfoCache.packageInfos c2))
    by (pose proof (ages_lengths _ _ (proj2 Hk2)); lia).
  eapply guarantees_bind.
  { apply guarantees_updatePackageInfo; [apply Hk2|exact Hlt2|].
    intros q Hq. split; [split; cbn; auto|].
    destruct (wf_packages _ (proj1 Hk2) _ _ Hq) as [Hv Hty Hmain Hn Hd Hdev Ha].
    split; cbn; auto. }
  intros u3 c3 Hk3 _.
  assert (Hlt3 : packageInfo < length (PackageInfoCache.packageInfos c3))
    by (pose proof (ages_lengths _ _ (proj2 Hk3)); lia).
  eapply guarantees_bind.
  { apply (guarantees_readPackageInfo _ _ (fun _ _ => True));
      [apply Hk3|exact Hlt3|auto]. }
  intros p' c4 Hk4 _.
  assert (Hlt4 : packageInfo < length (PackageInfoCache.packageInfos c4))
    by (pose proof (ages_lengths _ _ (proj2 Hk4)); lia).
  eapply (guarantees_bind _ _ _ (fun _ _ => True)).
  { destruct (PackageInfo.isRoot p'); [|apply guarantees_ret; [apply Hk4|exact I]].
    eapply guarantees_bind.
    { apply doAddDependencies_guarantees; [apply Hk4|exact Hlt4|now right; left]. }
    intros pkgs' c5 Hk5 Hpkgs'.
    eapply guarantees_weaken; [|auto].
    apply guarantees_updatePackageInfo; [apply Hk5| |].
    { pose proof (ages_lengths _ _ (proj2 Hk5)). lia. }
    intros q Hq. split; [split; cbn; auto|].
    destruct (wf_packages _ (proj1 Hk5) _ _ Hq) as [Hv Hty Hmain Hn Hd Hdev Ha].
    split; cbn; auto. }
  intros u6 c6 Hk6 _.
  eapply guarantees_weaken; [|auto].
  apply guarantees_updatePackageInfo; [apply Hk6| |].
  { pose proof (ages_lengths _ _ (proj2 Hk6)). lia. }
  intros q Hq. split; [split; cbn; auto|].
  destruct (wf_packages _ (proj1 Hk6) _ _ Hq) as [Hv Hty Hmain Hn Hd Hdev Ha].
  split; cbn; auto.
Qed.
End Helpers.

(** Every value of the table is the entry of a key. *)
Lemma table_values_get c e :
  wellFormed c -> In e (JsMap.values (PackageInfoCache.entries c)) ->
  exists k, PackageInfoCache.getEntry c k = Some e.
Proof.
  intros Hwf He. unfold JsMap.values in He.
  apply List.in_map_iff in He as ([k e'] & He & Hin). cbn in He. subst e'.
  exists k. unfold PackageInfoCache.getEntry.
  pose proof (wf_table_keys _ Hwf) as Hnd.
  revert Hin Hnd. generalize (PackageInfoCache.entries c) as m.
  induction m as [|[k' v'] m IH]; [intros []|].
  cbn [JsMap.get JsMap.keys map fst]. intros [Hhere|Hthere] Hnd.
  - injection Hhere as -> ->. now rewrite String.eqb_refl.
  - apply List.NoDup_cons_iff in Hnd as [Hnotin Hnd].
    destruct (String.eqb_spec k' k) as [->|Hne]; [|now apply IH].
    exfalso. apply Hnotin. apply (List.in_map fst) in Hthere. exact Hthere.
Qed.

(** The objects [#getPackageInfos] returns are objects of the store. *)
Lemma getPackageInfos_objects c r :
  wellFormed c -> In r (PackageInfoCache.getPackageInfos c) ->
  r < length (PackageInfoCache.packageInfos c).
Proof.
  intros Hwf Hin. unfold PackageInfoCache.getPackageInfos in Hin.
  apply list_elem_of_In, list_elem_of_omap in Hin as (e & He & Hr).
  destruct e as [r'|l]; [|discriminate]. injection Hr as ->.
  apply list_elem_of_In, (table_values_get _ _ Hwf) in He as [k Hget].
  destruct (wf_table_packages _ Hwf _ _ Hget) as (p & Hp & _).
  eapply lookup_lt_Some; eassumption.
Qed.

Lemma resolveDependencies_guarantees steps fuel c :
  wellFormed c ->
  guarantees (resolveDependencies fs path steps fuel) c (fun _ _ => True).
Proof.
  intros Hwf. unfold resolveDependencies.
  apply (guarantees_forEach (fun _ => True)); [assumption|exact I|].
  intros packageInfo c1 Hin Hk1 _.
  apply resolvePackageDependencies_guarantees; [|apply Hk1|].
  - intros name dir d Hd. now apply findPackage_guarantees.
  - pose proof (getPackageInfos_objects _ _ Hwf Hin).
    pose proof (ages_lengths _ _ (proj2 Hk1)). lia.
Qed.

Lemma guarantees_set_rootPackage v c (Q : unit -> PackageInfoCache.t -> Prop) :
  wellFormed c -> Q tt (PackageInfoCache.set_rootPackage v c) ->
  guarantees (fun c => Ok tt (PackageInfoCache.set_rootPackage v c)) c Q.
Proof. intros Hwf HQ. split; [now apply kept_set_rootPackage|assumption]. Qed.

Lemma loadApp_guarantees steps fuel appRootDir isRoot c :
  wellFormed c ->
  guarantees (loadApp fs path steps fuel appRootDir isRoot) c
    (fun r c' => r < length (PackageInfoCache.packageInfos c')).
Proof.
  intros Hwf. unfold loadApp.
  eapply guarantees_bind; [now apply (readers_guarantee fs path fuel)|].
  intros pkgInfo c1 Hk1 Hlt1.
  eapply guarantees_bind.
  { apply (guarantees_readPackageInfo _ _
             (fun _ c2 => pkgInfo < length (PackageInfoCache.packageInfos c2)));
      [apply Hk1|exact Hlt1|auto]. }
  intros p c2 Hk2 Hlt2. cbv beta in Hlt2.
  destruct (PackageInfo.processed p); [apply guarantees_ret; [apply Hk2|assumption]|].
  destruct isRoot; [|apply guarantees_ret; [apply Hk2|assumption]].
  eapply guarantees_bind.
  { apply (guarantees_set_rootPackage _ _
             (fun _ c3 => pkgInfo < length (PackageInfoCache.packageInfos c3)));
      [apply Hk2|assumption]. }
  intros u3 c3 Hk3 Hlt3. cbv beta in Hlt3.
  eapply guarantees_bind; [apply resolveDependencies_guarantees; apply Hk3|].
  intros u4 c4 Hk4 _. apply guarantees_ret; [apply Hk4|]. lengths.
Qed.

Variable resolve : string -> string -> string.

Lemma loadProject_guarantees steps fuel projectRootDir isRoot c :
  wellFormed c ->
  guarantees (loadProject fs path resolve steps fuel projectRootDir isRoot) c
    (fun r c' => r < length (PackageInfoCache.packageInfos c')).
Proof.
  intros Hwf. unfold loadProject.
  eapply (guarantees_bind _ _ _ (fun _ _ => True)).
  { split; [now apply kept_set_projectRootDir|exact I]. }
  intros u1 c1 Hk1 _.
  destruct (readJsonSync fs _) as [projectPkgJson|];
    [|apply loadApp_guarantees; apply Hk1].
  cbn zeta. destruct (truthyPath _); [|apply loadApp_guarantees; apply Hk1].
  destruct (existsSync fs _); [apply guarantees_throw; [apply Hk1|own]|].
  apply loadApp_guarantees; apply Hk1.
Qed.

Lemma loadAddon_guarantees steps fuel addonRootDir projectRelativePath c :
  wellFormed c ->
  guarantees (loadAddon fs path resolve steps fuel addonRootDir projectRelativePath) c
    (fun r c' => r < length (PackageInfoCache.packageInfos c')).
Proof.
  intros Hwf. unfold loadAddon.
  eapply guarantees_bind; [now apply (readers_guarantee fs path fuel)|].
  intros pkgInfo c1 Hk1 Hlt1.
  eapply guarantees_bind.
  { apply (guarantees_readPackageInfo _ _
             (fun _ c2 => pkgInfo < length (PackageInfoCache.packageInfos c2)));
      [apply Hk1|exact Hlt1|auto]. }
  intros p c2 Hk2 Hlt2. cbv beta in Hlt2.
  destruct (PackageInfo.processed p); [apply guarantees_ret; [apply Hk2|assumption]|].
  eapply guarantees_bind.
  { apply (guarantees_set_rootPackage _ _
             (fun _ c3 => pkgInfo < length (PackageInfoCache.packageInfos c3)));
      [apply Hk2|assumption]. }
  intros u3 c3 Hk3 Hlt3. cbv beta in Hlt3.
  eapply guarantees_bind; [apply loadProject_guarantees; apply Hk3|].
  intros app c4 Hk4 _.
  eapply guarantees_bind; [apply resolveDependencies_guarantees; apply Hk4|].
  intros u5 c5 Hk5 _. apply guarantees_ret; [apply Hk5|]. lengths.
Qed.
End SearchKeeps.

Lemma wellFormed_new : wellFormed PackageInfoCache.new.
Proof. split; cbn; try (intros; discriminate). constructor. Qed.

(** A public call keeps the cache, whether it returns or throws. *)
Lemma publicCall_kept c c' : wellFormed c -> publicCall c c' -> kept c c'.
Proof.
  intros Hwf [fs path resolve steps fuel dir isRoot d Hcall
             |fs path steps fuel dir isRoot d Hcall
             |fs path resolve steps fuel dir rel d Hcall
             |fs path steps fuel name start d Hcall].
  - eapply guarantees_leaves; [|exact Hcall]. now apply loadProject_guarantees.
  - eapply guarantees_leaves; [|exact Hcall]. now apply loadApp_guarantees.
  - eapply guarantees_leaves; [|exact Hcall]. now apply loadAddon_guarantees.
  - eapply guarantees_leaves; [|exact Hcall]. now apply findPackage_guarantees.
Qed.

(** Every cache that can be reached is well formed. *)
Lemma reachable_wellFormed c : reachable c -> wellFormed c.
Proof.
  induction 1 as [|c c' _ IH Hcall]; [apply wellFormed_new|].
  apply (publicCall_kept c c' IH Hcall).
Qed.

(* ===================================================================== *)
(** * Invariants of the cache *)
(* ===================================================================== *)

(** The project cache and the cache of the missing directory are reached
    by one call of [loadApp] on a new cache. *)
Lemma reachable_projectLoaded : reachable projectLoaded.
Proof.
  apply (reachable_call PackageInfoCache.new); [apply reachable_new|].
  apply (call_loadApp _ projectFileSystem posix 10 4 "/proj" true).
  vm_compute. reflexivity.
Qed.

Lemma reachable_missingNodeModulesLoaded : reachable missingNodeModulesLoaded.
Proof.
  apply (reachable_call PackageInfoCache.new); [apply reachable_new|].
  apply (call_loadApp _ emptyFileSystem posix 10 4 "/p/node_modules" false).
  vm_compute. reflexivity.
Qed.

(** X8. The table is keyed by the path of the object.  In every cache
    that the public methods can produce, by calls that return or throw,
    an entry of the table under a path is an object of the store, a
    package object or a listing (never the shared null listing), whose
    [realPath] is that path. *)
Theorem table_keyed_by_realPath (c : PackageInfoCache.t) (k : string) (e : Entry) :
  reachable c ->
  PackageInfoCache.getEntry c k = Some e ->
  match e with
  | EPackage r =>
      exists p, PackageInfoCache.packageInfos c !! r = Some p
                /\ PackageInfo.realPath p = k
  | EList l =>
      exists n nl, l = ListAt n
                   /\ PackageInfoCache.nodeModulesLists c !! n = Some nl
                   /\ NodeModulesList.realPath nl = k
  end.
Proof.
  intros Hreach Hk. apply reachable_wellFormed in Hreach.
  destruct e as [r|l].
  - now apply (wf_table_packages _ Hreach).
  - now apply (wf_table_listings _ Hreach).
Qed.

Lemma table_keyed_by_realPath_witness :
  exists p nl,
    PackageInfoCache.packageInfos projectLoaded !! 0%nat = Some p
    /\ PackageInfo.realPath p = "/proj"
    /\ PackageInfoCache.nodeModulesLists projectLoaded !! 0%nat = Some nl
    /\ NodeModulesList.realPath nl = "/proj/node_modules".
Proof.
  destruct (table_keyed_by_realPath projectLoaded "/proj" (EPackage 0%nat)
              reachable_projectLoaded eq_refl) as (p & Hp & Hreal).
  destruct (table_keyed_by_realPath projectLoaded "/proj/node_modules"
              (EList (ListAt 0%nat)) reachable_projectLoaded eq_refl)
    as (n & nl & Hn & Hnl & Hreal').
  injection Hn as <-. exists p, nl. auto.
Defined.

(** X9. A package that is not valid says why.  In every cache that can
    be reached, a package object whose [valid] flag is down has an entry
    in its error ledger; so when the table holds it, [findErrors] returns
    it. *)
Theorem invalid_package_has_errors
    (c : PackageInfoCache.t) (r : PkgRef) (p : PackageInfo.t) :
  reachable c ->
  PackageInfoCache.packageInfos c !! r = Some p ->
  PackageInfo.valid p = false ->
  PackageInfo.hasErrors p = true
  /\ (forall k, PackageInfoCache.getEntry c k = Some (EPackage r) ->
                In (EPackage r) (PackageInfoCache.findErrors c)).
Proof.
  intros Hreach Hp Hvalid. apply reachable_wellFormed in Hreach.
  pose proof (sound_valid _ _ (wf_packages _ Hreach _ _ Hp) Hvalid) as Herr.
  split; [exact Herr|].
  intros k Hk. unfold PackageInfoCache.findErrors. apply List.filter_In. split.
  - apply JsMapFacts.get_Some_In in Hk. apply (in_map snd) in Hk. exact Hk.
  - cbn. now rewrite Hp.
Qed.

Lemma invalid_package_has_errors_witness :
  exists p,
    PackageInfoCache.packageInfos missingNodeModulesLoaded !! 0%nat = Some p
    /\ PackageInfo.valid p = false
    /\ PackageInfo.hasErrors p = true
    /\ In (EPackage 0%nat) (PackageInfoCache.findErrors missingNodeModulesLoaded).
Proof.
  eassert (Hp : PackageInfoCache.packageInfos missingNodeModulesLoaded !! 0%nat
                = Some _) by (vm_compute; reflexivity).
  destruct (invalid_package_has_errors missingNodeModulesLoaded 0%nat _
              reachable_missingNodeModulesLoaded Hp eq_refl) as [Herr Hfind].
  eexists. split; [exact Hp|]. split; [reflexivity|]. split; [exact Herr|].
  apply (Hfind "/p/node_modules"). reflexivity.
Defined.

(** X10. The listings are built as the lookup expects.  In every cache
    that can be reached, for every listing of the store: [hasEntries] is
    down only when the listing is empty; no entry name starts with ['.']
    or ['_']; a name that starts with ['@'] maps to a listing of the store
    and every other name to a package object of the store. *)
Theorem listing_entries_by_name
    (c : PackageInfoCache.t) (n : nat) (l : NodeModulesList.t) :
  reachable c ->
  PackageInfoCache.nodeModulesLists c !! n = Some l ->
  (NodeModulesList.hasEntries l = false -> NodeModulesList.entries l = [])
  /\ forall name e,
       JsMap.get (NodeModulesList.entries l) name = Some e ->
       startsWith name "." = false /\ startsWith name "_" = false
       /\ match e with
          | EPackage r =>
              startsWith name "@" = false
              /\ exists p, PackageInfoCache.packageInfos c !! r = Some p
          | EList nested =>
              startsWith name "@" = true
              /\ exists m nl, nested = ListAt m
                              /\ PackageInfoCache.nodeModulesLists c !! m = Some nl
          end.
Proof.
  intros Hreach Hl. apply reachable_wellFormed in Hreach.
  destruct (wf_listings _ Hreach _ _ Hl) as [Hty Hflag Hent]. split.
  - intros Hdown. rewrite Hflag in Hdown.
    now destruct (NodeModulesList.entries l).
  - intros name e He. destruct (Hent name e He) as (Hdot & Hus & Hkind).
    split; [assumption|split; [assumption|]]. destruct e as [r|nested].
    + destruct Hkind as [Hat Hr]. split; [assumption|].
      now apply lookup_lt_is_Some_2.
    + destruct Hkind as (Hat & m & -> & Hm). split; [assumption|].
      destruct (lookup_lt_is_Some_2 _ _ Hm) as [nl Hnl]. eauto.
Qed.

Lemma listing_entries_by_name_witness :
  exists l p,
    PackageInfoCache.nodeModulesLists projectLoaded !! 0%nat = Some l
    /\ JsMap.get (NodeModulesList.entries l) "a" = Some (EPackage 1%nat)
    /\ PackageInfoCache.packageInfos projectLoaded !! 1%nat = Some p.
Proof.
  eassert (Hl : PackageInfoCache.nodeModulesLists projectLoaded !! 0%nat = Some _)
    by (vm_compute; reflexivity).
  destruct (proj2 (listing_entries_by_name projectLoaded 0%nat _
                     reachable_projectLoaded Hl) "a" (EPackage 1%nat) eq_refl)
    as (_ & _ & _ & p & Hp).
  eexists _, p. split; [exact Hl|]. split; [reflexivity|exact Hp].
Defined.

(** X11. The lookups return packages.  In every cache that can be
    reached, what [findPackage] of a listing returns for a name, and what
    [findPackage] of the cache returns when it returns, is a package
    object of the store or nothing: never a listing, as the type of the
    methods says. *)
Theorem findPackage_returns_a_package (c : PackageInfoCache.t) :
  reachable c ->
  (forall this packageName found,
      NodeModulesList.findPackage NodeModulesList.FIND_DEPTH
        (PackageInfoCache.nodeModulesLists c) this (Some packageName)
      = Return (Some found) ->
      exists r p, found = EPackage r
                  /\ PackageInfoCache.packageInfos c !! r = Some p)
  /\ (forall fs path steps fuel packageName startPath found c',
      findPackage fs path steps fuel packageName startPath c = Ok (Some found) c' ->
      exists r p, found = EPackage r
                  /\ PackageInfoCache.packageInfos c' !! r = Some p).
Proof.
  intros Hreach. apply reachable_wellFormed in Hreach. split.
  - intros this packageName found Hfind.
    destruct (listing_findPackage_package _ _ _ _ Hreach Hfind) as (r & -> & Hr).
    destruct (lookup_lt_is_Some_2 _ _ Hr) as [p Hp]. eauto.
  - intros fs path steps fuel packageName startPath found c' Hfind.
    pose proof (findPackage_guarantees fs path steps fuel packageName startPath
                  c Hreach) as Hg.
    unfold guarantees in Hg. rewrite Hfind in Hg.
    destruct Hg as [_ (r & -> & Hr)].
    destruct (lookup_lt_is_Some_2 _ _ Hr) as [p Hp]. eauto.
Qed.

Lemma findPackage_returns_a_package_witness :
  exists p,
    findPackage projectFileSystem posix 10 4 "a" "/proj" projectLoaded
    = Ok (Some (EPackage 1%nat)) projectLoaded
    /\ PackageInfoCache.packageInfos projectLoaded !! 1%nat = Some p.
Proof.
  assert (Hfind : findPackage projectFileSystem posix 10 4 "a" "/proj" projectLoaded
                  = Ok (Some (EPackage 1%nat)) projectLoaded)
    by (vm_compute; reflexivity).
  destruct (proj2 (findPackage_returns_a_package projectLoaded
                     reachable_projectLoaded) _ _ _ _ _ _ _ _ Hfind)
    as (r & p & Hr & Hp).
  injection Hr as <-. exists p. auto.
Defined.

(** X12. The references an object holds are objects of the store.  In
    every cache that can be reached, for every package object: each value
    of its dependency mappings is a package object of the store; each of
    its in-repo addons is an object of the store and an instance of the
    addon class; and its listing, when set, is the null listing or a
    listing of the store. *)
Theorem package_references_are_objects
    (c : PackageInfoCache.t) (r : PkgRef) (p : PackageInfo.t) :
  reachable c ->
  PackageInfoCache.packageInfos c !! r = Some p ->
  (forall packages name e,
      PackageInfo.dependenciesPackages p = Some packages
      \/ PackageInfo.devDependenciesPackages p = Some packages ->
      JsMap.get packages name = Some e ->
      exists r' p', e = EPackage r'
                    /\ PackageInfoCache.packageInfos c !! r' = Some p')
  /\ (forall addons a,
      PackageInfo.inRepoAddons p = Some addons -> In a addons ->
      exists addon,
        PackageInfoCache.packageInfos c !! a = Some addon
        /\ instanceofEmberAddonPackageInfo (PackageInfo.class addon) = true)
  /\ (forall l,
      PackageInfo.nodeModules p = Some l ->
      exists nl,
        NodeModulesList.deref (PackageInfoCache.nodeModulesLists c) l = Some nl).
Proof.
  intros Hreach Hp. apply reachable_wellFormed in Hreach.
  destruct (wf_packages _ Hreach _ _ Hp) as [Hv Hty Hmain Hn Hd Hdev Ha].
  split; [|split].
  - intros packages name e Hpackages He.
    assert (Hs : soundPackages c packages) by (destruct Hpackages; auto).
    destruct (Hs name e He) as (r' & -> & Hr').
    destruct (lookup_lt_is_Some_2 _ _ Hr') as [p' Hp']. eauto.
  - exact Ha.
  - intros [|n] Hl; cbn [NodeModulesList.deref]; [eauto|].
    apply lookup_lt_is_Some_2. auto.
Qed.

Lemma package_references_are_objects_witness :
  exists p packages p',
    PackageInfoCache.packageInfos projectLoaded !! 0%nat = Some p
    /\ PackageInfo.dependenciesPackages p = Some packages
    /\ JsMap.get packages "a" = Some (EPackage 1%nat)
    /\ PackageInfoCache.packageInfos projectLoaded !! 1%nat = Some p'.
Proof.
  eassert (Hp : PackageInfoCache.packageInfos projectLoaded !! 0%nat = Some _)
    by (vm_compute; reflexivity).
  destruct (proj1 (package_references_are_objects projectLoaded 0%nat _
                     reachable_projectLoaded Hp)
              [("a", EPackage 1%nat)] "a" (EPackage 1%nat)
              (or_introl eq_refl) eq_refl) as (r' & p' & Hr' & Hp').
  injection Hr' as <-.
  eexists _, _, p'. split; [exact Hp|]. split; [reflexivity|].
  split; [reflexivity|exact Hp'].
Defined.

(** X13. A call never takes back what it said.  From a cache that can be
    reached, a public call (one that returns as one that throws) leaves
    every object of the store in the store, under its reference: a package
    object with its class, descriptor, path and root flag, with a ledger
    that has only grown at the end, still not valid if it was not, still
    processed if it was; a listing with its path, with a ledger that has
    only grown at the end and with an entry for every name that had
    one. *)
Theorem public_call_keeps_objects (c c' : PackageInfoCache.t) :
  reachable c -> publicCall c c' -> ages c c'.
Proof.
  intros Hreach Hcall. apply reachable_wellFormed in Hreach.
  apply (publicCall_kept c c' Hreach Hcall).
Qed.

Lemma reachable_projectAsApp : reachable projectAsApp.
Proof.
  apply (reachable_call PackageInfoCache.new); [apply reachable_new|].
  apply (call_loadApp _ projectFileSystem posix 10 4 "/proj" false).
  vm_compute. reflexivity.
Qed.

Lemma public_call_keeps_objects_witness :
  exists p p',
    PackageInfoCache.packageInfos projectAsApp !! 0%nat = Some p
    /\ PackageInfoCache.packageInfos projectAsAppResolved !! 0%nat = Some p'
    /\ PackageInfo.processed p = false
    /\ PackageInfo.processed p' = true
    /\ PackageInfo.packageJson p' = PackageInfo.packageJson p
    /\ ErrorList.errors (PackageInfo.errors p)
       `prefix_of` ErrorList.errors (PackageInfo.errors p').
Proof.
  eassert (Hp : PackageInfoCache.packageInfos projectAsApp !! 0%nat = Some _)
    by (vm_compute; reflexivity).
  assert (Hcall : publicCall projectAsApp projectAsAppResolved).
  { apply (call_loadApp _ projectFileSystem posix 10 4 "/proj" true).
    vm_compute. reflexivity. }
  destruct (ages_packages _ _
              (public_call_keeps_objects projectAsApp projectAsAppResolved
                 reachable_projectAsApp Hcall) _ _ Hp) as (p' & Hp' & Hs).
  eexists _, p'. split; [exact Hp|]. split; [exact Hp'|].
  split; [reflexivity|]. split.
  - vm_compute in Hp'. injection Hp' as <-. reflexivity.
  - split; [apply (stable_packageJson _ _ Hs)|apply (stable_errors _ _ Hs)].
Defined.

(* ===================================================================== *)
(** * Further properties of the readers and the search *)
(* ===================================================================== *)

Lemma createPackage_placeholder
    (fs : FileSystem) (path : PathModule)
    (readPackage' : string -> bool -> M PkgRef)
    (readNodeModulesList' : string -> M (option ListRef))
    (realPath : string) (pathFailed : bool) (setupErrors : ErrorList.t)
    (isRoot : bool) (error : ErrorEntry.t) (c : PackageInfoCache.t) :
  readPackageJson fs path realPath pathFailed setupErrors
  = (None, ErrorList.mk [error]) ->
  createPackage fs path readPackage' readNodeModulesList'
    realPath pathFailed setupErrors isRoot c
  = Ok (length (PackageInfoCache.packageInfos c))
       (withNewPackage realPath (placeholderPackage realPath isRoot error) c).
Proof.
  intros Hjson. unfold createPackage, withNewPackage. rewrite Hjson.
  unfold bind, allocatePackageInfo, updatePackageInfo, readPackageInfo, ret.
  repeat (progress (cbn -[lookup insert]; rewrite ?lookup_snoc, ?insert_snoc)).
  reflexivity.
Qed.

(** X14. A package is created for every path, also when there is nothing
    to read.  In a cache with no entry for the path: when no directory is
    there, [#readPackage] registers under the normalized path a placeholder
    package, not valid, whose only error is [packageDirectoryMissing], and
    reads no file; when the directory is there and its descriptor file
    does not parse, it registers the placeholder under the canonical path
    with the single error [packageJsonParse], holding the path of the
    file. *)
Theorem readPackage_creates_placeholder
    (fs : FileSystem) (path : PathModule) (fuel : nat) (dir : string)
    (isRoot : bool) (c : PackageInfoCache.t) :
  PackageInfoCache.getEntry c (normalize path dir) = None ->
  (getRealDirectoryPath fs (normalize path dir) = None ->
   readPackage fs path (S fuel) dir isRoot c
   = Ok (length (PackageInfoCache.packageInfos c))
        (withNewPackage (normalize path dir)
           (placeholderPackage (normalize path dir) isRoot
              (ErrorEntry.mk ERRORS.ERROR_PACKAGE_DIR_MISSING
                 (DataString (normalize path dir)))) c))
  /\ (forall realPath packageDataPath,
      getRealDirectoryPath fs (normalize path dir) = Some realPath ->
      PackageInfoCache.getEntry c realPath = None ->
      getRealFilePath fs (join path realPath PACKAGE_JSON) = Some packageDataPath ->
      packageDataPath <> EmptyString ->
      readJsonSync fs packageDataPath = None ->
      readPackage fs path (S fuel) dir isRoot c
      = Ok (length (PackageInfoCache.packageInfos c))
           (withNewPackage realPath
              (placeholderPackage realPath isRoot
                 (ErrorEntry.mk ERRORS.ERROR_PACKAGE_JSON_PARSE
                    (DataString packageDataPath))) c)).
Proof.
  intros Hnone. split.
  - intros Hreal. cbn [readPackage]. unfold readPackage_body. cbn zeta.
    rewrite Hnone, Hreal. now apply createPackage_placeholder.
  - intros realPath packageDataPath Hreal Hnone' Hfile Hname Hparse.
    cbn [readPackage]. unfold readPackage_body. cbn zeta.
    rewrite Hnone, Hreal.
    assert (Hcreate :
      createPackage fs path (readPackage fs path fuel) (readNodeModulesList fs path fuel)
        realPath false ErrorList.new isRoot c
      = Ok (length (PackageInfoCache.packageInfos c))
           (withNewPackage realPath
              (placeholderPackage realPath isRoot
                 (ErrorEntry.mk ERRORS.ERROR_PACKAGE_JSON_PARSE
                    (DataString packageDataPath))) c)).
    { apply createPackage_placeholder. unfold readPackageJson. cbn [negb].
      rewrite Hfile. cbn [truthyPath].
      destruct (String.eqb_spec packageDataPath EmptyString); [contradiction|].
      cbn [negb from_option id]. now rewrite Hparse. }
    destruct (String.eqb realPath (normalize path dir)); cbn [negb];
      [exact Hcreate|]. now rewrite Hnone'.
Qed.

Lemma readPackage_creates_placeholder_witness :
  readPackage emptyFileSystem posix 1 "/gone/" true PackageInfoCache.new
  = Ok 0%nat
       (withNewPackage "/gone/"
          (placeholderPackage "/gone/" true
             (ErrorEntry.mk ERRORS.ERROR_PACKAGE_DIR_MISSING (DataString "/gone/")))
          PackageInfoCache.new)
  /\ readPackage brokenFileSystem posix 1 "/broken" false PackageInfoCache.new
     = Ok 0%nat
          (withNewPackage "/broken"
             (placeholderPackage "/broken" false
                (ErrorEntry.mk ERRORS.ERROR_PACKAGE_JSON_PARSE
                   (DataString "/broken/package.json")))
             PackageInfoCache.new).
Proof.
  split.
  - exact (proj1 (readPackage_creates_placeholder emptyFileSystem posix 0 "/gone/"
                    true PackageInfoCache.new eq_refl) eq_refl).
  - refine (proj2 (readPackage_creates_placeholder brokenFileSystem posix 0 "/broken"
                     false PackageInfoCache.new eq_refl)
              "/broken" "/broken/package.json" eq_refl eq_refl eq_refl _ eq_refl).
    discriminate.
Defined.

Section SearchWithoutDirectories.
Variable fs : FileSystem.
Variable path : PathModule.

Lemma searchListings_without_directories fuel packageName directories c :
  (forall dir, In dir directories ->
     PackageInfoCache.getEntry c (normalize path (nodeModulesPathOf path dir)) = None
     /\ getRealDirectoryPath fs (normalize path (nodeModulesPathOf path dir)) = None) ->
  searchListings fs path (S fuel) packageName directories c = Ok None c.
Proof.
  induction directories as [|dir above IH]; intros Hnone; [reflexivity|].
  cbn [searchListings]. unfold bind.
  destruct (Hnone dir (or_introl eq_refl)) as [Hentry Hreal].
  cbn [readNodeModulesList]. unfold readNodeModulesList_body. cbn zeta.
  rewrite Hentry, Hreal. apply IH. intros d Hd. apply Hnone. now right.
Qed.
End SearchWithoutDirectories.

(** X15. The upward search records nothing for a directory that does not
    exist.  With a path module whose [dirname] ascends and an absolute
    start directory: when, for every directory of the chain up to the
    root, its [node_modules] path has no entry in the table and no
    directory on the file system, [findPackage] returns nothing and
    leaves the cache exactly as it was. *)
Theorem findPackage_without_node_modules
    (fs : FileSystem) (path : PathModule) (steps fuel : nat)
    (packageName startPath : string) (c : PackageInfoCache.t) :
  ascends path ->
  parse_root path startPath <> EmptyString ->
  String.length startPath < steps ->
  (forall dir, In dir (directoryChain path startPath) ->
     PackageInfoCache.getEntry c (normalize path (nodeModulesPathOf path dir)) = None
     /\ getRealDirectoryPath fs (normalize path (nodeModulesPathOf path dir)) = None) ->
  findPackage fs path steps (S fuel) packageName startPath c = Ok None c.
Proof.
  intros Hasc Habs Hsteps Hnone.
  destruct (findPackage_loop_search fs path Hasc (S fuel) packageName
              (parse_root path startPath) Habs steps startPath eq_refl Hsteps)
    as (Hloop & Hsame & _).
  unfold findPackage. cbn zeta. rewrite Hloop, Hsame.
  now apply searchListings_without_directories.
Qed.

Lemma findPackage_without_node_modules_witness :
  findPackage emptyFileSystem posix 10 1 "x" "/a/b" PackageInfoCache.new
  = Ok None PackageInfoCache.new.
Proof.
  apply (findPackage_without_node_modules emptyFileSystem posix 10 0 "x" "/a/b"
           PackageInfoCache.new posix_ascends).
  - discriminate.
  - cbn. lia.
  - intros dir _. split; reflexivity.
Defined.

(** X16. The resolution pass processes the table.  When
    [#resolveDependencies] returns, every package object that the table
    held when the pass began is processed, and no entry of the table was
    replaced.  (A package that the pass itself adds to the table is not in
    the array the pass runs over.) *)
Theorem resolution_pass_processes_table
    (fs : FileSystem) (path : PathModule) (steps fuel : nat)
    (c c' : PackageInfoCache.t) (u : unit) :
  resolveDependencies fs path steps fuel c = Ok u c' ->
  (forall k r, PackageInfoCache.getEntry c k = Some (EPackage r) ->
     exists p', PackageInfoCache.packageInfos c' !! r = Some p'
                /\ PackageInfo.processed p' = true)
  /\ (forall k e, PackageInfoCache.getEntry c k = Some e ->
                  PackageInfoCache.getEntry c' k = Some e).
Proof.
  intros Hrun. apply resolveDependencies_processed in Hrun as [Hev Hall].
  split; [|apply (evolves_entries _ _ _ Hev)].
  intros k r Hk. apply Hall.
  apply JsMapFacts.get_Some_In in Hk.
  unfold PackageInfoCache.getPackageInfos, JsMap.values.
  apply list_elem_of_In, list_elem_of_omap. exists (EPackage r).
  split; [|reflexivity].
  apply list_elem_of_In. apply (in_map snd) in Hk. exact Hk.
Qed.

Lemma resolution_pass_processes_table_witness :
  exists c' p0 p1,
    resolveDependencies projectFileSystem posix 10 4 projectRead = Ok tt c'
    /\ PackageInfoCache.packageInfos c' !! 0%nat = Some p0
    /\ PackageInfo.processed p0 = true
    /\ PackageInfoCache.packageInfos c' !! 1%nat = Some p1
    /\ PackageInfo.processed p1 = true.
Proof.
  eassert (Hrun : resolveDependencies projectFileSystem posix 10 4 projectRead
                  = Ok tt _) by (vm_compute; reflexivity).
  destruct (proj1 (resolution_pass_processes_table _ _ _ _ _ _ _ Hrun)
              "/proj" 0%nat eq_refl) as (p0 & Hp0 & Hproc0).
  destruct (proj1 (resolution_pass_processes_table _ _ _ _ _ _ _ Hrun)
              "/proj/node_modules/a" 1%nat eq_refl) as (p1 & Hp1 & Hproc1).
  eexists _, p0, p1. split; [exact Hrun|]. auto.
Defined.

(* ===================================================================== *)
(** * loadProject and loadAddon *)
(* ===================================================================== *)

Section LoadProjectFacts.
Variable fs : FileSystem.
Variable path : PathModule.
Variable resolve : string -> string -> string.

Lemma evolves_set_projectRootDir v c : evolves fs c (set_projectRootDir v c).
Proof.
  split; cbn; [auto| |auto|eauto]. intros _ k Hn Hs. contradiction.
Qed.

(** [loadProject] records the directory and then is [loadApp] on the
    directory of the application, which depends on the file system and on
    the project directory only. *)
Lemma loadProject_selects steps fuel projectRootDir isRoot c r c1 :
  loadProject fs path resolve steps fuel projectRootDir isRoot c = Ok r c1 ->
  exists appRootDir,
    loadApp fs path steps fuel appRootDir isRoot
      (set_projectRootDir (Some projectRootDir) c) = Ok r c1
    /\ forall steps' fuel' c',
         loadProject fs path resolve steps' fuel' projectRootDir isRoot c'
         = loadApp fs path steps' fuel' appRootDir isRoot
             (set_projectRootDir (Some projectRootDir) c').
Proof.
  unfold loadProject. unfold bind at 1. cbn zeta.
  destruct (readJsonSync fs _) as [projectPkgJson|]; [|eauto].
  destruct (truthyPath _); [|eauto].
  destruct (existsSync fs _); [discriminate|eauto].
Qed.

Lemma loadProject_returns steps fuel projectRootDir isRoot c r c1 :
  realPathsAreCanonical fs ->
  loadProject fs path resolve steps fuel projectRootDir isRoot c = Ok r c1 ->
  evolves fs c c1
  /\ exists p, PackageInfoCache.packageInfos c1 !! r = Some p
               /\ (isRoot = true -> PackageInfo.processed p = true).
Proof.
  intros Hcanon Hrun.
  destruct (loadProject_selects _ _ _ _ _ _ _ Hrun) as (appRootDir & Hload & _).
  destruct (loadApp_returns _ _ _ _ _ _ _ _ _ Hcanon Hload) as (Hev & _ & Hp).
  split; [|exact Hp].
  eapply evolves_trans; [apply evolves_set_projectRootDir|exact Hev].
Qed.
End LoadProjectFacts.

(** X17. [loadProject] is idempotent, and refuses a project with two
    roots.  On a file system whose canonical paths resolve to themselves,
    when a call returns a package object, the object is processed if it
    was loaded as the root, and a second call with the same arguments
    returns the same object and changes nothing but recording the project
    directory again.  When the descriptor of the project is an Ember
    descriptor with a non-empty [ember-addon.projectRoot] and the project
    directory has an [ember-cli-build.js], the call throws, having
    recorded the project directory and nothing else. *)
Theorem loadProject_idempotent
    (fs : FileSystem) (path : PathModule) (resolve : string -> string -> string)
    (steps fuel : nat) (projectRootDir : string) (isRoot : bool) :
  (realPathsAreCanonical fs ->
   forall c r c1,
     loadProject fs path resolve steps fuel projectRootDir isRoot c = Ok r c1 ->
     (exists p, PackageInfoCache.packageInfos c1 !! r = Some p
                /\ (isRoot = true -> PackageInfo.processed p = true))
     /\ forall steps' fuel',
          loadProject fs path resolve steps' (S fuel') projectRootDir isRoot c1
          = Ok r (set_projectRootDir (Some projectRootDir) c1))
  /\ (forall c projectPkgJson projectRoot,
        readJsonSync fs (join path projectRootDir "package.json")
        = Some projectPkgJson ->
        findEmberProjectRoot (Some (JObj projectPkgJson)) = Some projectRoot ->
        projectRoot <> EmptyString ->
        existsSync fs (join path projectRootDir "ember-cli-build.js") = true ->
        loadProject fs path resolve steps fuel projectRootDir isRoot c
        = Throw ERROR_PROJECT_ROOT_AND_BUILD_FILE
            (set_projectRootDir (Some projectRootDir) c)).
Proof.
  split.
  - intros Hcanon c r c1 Hrun.
    destruct (loadProject_selects _ _ _ _ _ _ _ _ _ _ Hrun)
      as (appRootDir & Hload & Hsame).
    destruct (loadApp_returns _ _ _ _ _ _ _ _ _ Hcanon Hload)
      as (_ & Hreg & p & Hp & Hproc).
    split; [eauto|].
    intros steps' fuel'. rewrite Hsame. unfold loadApp, bind.
    rewrite (readPackage_registered_returns fs path fuel' appRootDir isRoot r
               (set_projectRootDir (Some projectRootDir) c1) Hreg).
    unfold readPackageInfo. cbn [set_projectRootDir PackageInfoCache.packageInfos].
    rewrite Hp.
    destruct (PackageInfo.processed p) eqn:Hp'; [reflexivity|].
    destruct isRoot; [|reflexivity].
    specialize (Hproc eq_refl). congruence.
  - intros c projectPkgJson projectRoot Hjson Hroot Hne Hbuild.
    unfold loadProject. unfold bind at 1. cbn zeta. rewrite Hjson, Hroot.
    cbn [truthyPath]. destruct (String.eqb_spec projectRoot EmptyString);
      [contradiction|].
    cbn [negb]. now rewrite Hbuild.
Qed.

Lemma loadProject_idempotent_witness :
  loadProject monorepoFileSystem posix (posixResolve "/") 10 4 "/mono" true
    PackageInfoCache.new = Ok 0%nat monorepoLoaded
  /\ loadProject monorepoFileSystem posix (posixResolve "/") 10 4 "/mono" true
       monorepoLoaded = Ok 0%nat monorepoLoaded.
Proof.
  assert (Hfirst : loadProject monorepoFileSystem posix (posixResolve "/") 10 4
                     "/mono" true PackageInfoCache.new = Ok 0%nat monorepoLoaded)
    by (vm_compute; reflexivity).
  assert (Hcanon : realPathsAreCanonical monorepoFileSystem).
  { unfold monorepoFileSystem. apply tableFileSystem_canonical. reflexivity. }
  split; [exact Hfirst|].
  exact (proj2 (proj1 (loadProject_idempotent monorepoFileSystem posix
                         (posixResolve "/") 10 4 "/mono" true)
                  Hcanon _ _ _ Hfirst) 10 3).
Defined.

(** X18. [loadAddon] returns the addon processed, and is idempotent.  On
    a file system whose canonical paths resolve to themselves, when a call
    returns a package object, that object is processed, the cache has
    only evolved (every entry of the table is kept), and a later call for
    the same addon directory returns the same object and leaves the cache
    exactly as it is, whatever the path of the project it is given. *)
Theorem loadAddon_idempotent
    (fs : FileSystem) (path : PathModule) (resolve : string -> string -> string)
    (steps fuel : nat) (addonRootDir projectRelativePath : string)
    (c c1 : PackageInfoCache.t) (r : PkgRef) :
  realPathsAreCanonical fs ->
  loadAddon fs path resolve steps fuel addonRootDir projectRelativePath c = Ok r c1 ->
  (exists p, PackageInfoCache.packageInfos c1 !! r = Some p
             /\ PackageInfo.processed p = true)
  /\ (forall k e, PackageInfoCache.getEntry c k = Some e ->
                  PackageInfoCache.getEntry c1 k = Some e)
  /\ (forall steps' fuel' projectRelativePath',
        loadAddon fs path resolve steps' (S fuel') addonRootDir projectRelativePath' c1
        = Ok r c1).
Proof.
  intros Hcanon Hrun.
  assert (Hret : evolves fs c c1
                 /\ registered fs path addonRootDir r c1
                 /\ exists p, PackageInfoCache.packageInfos c1 !! r = Some p
                              /\ PackageInfo.processed p = true).
  { unfold loadAddon in Hrun. bind_inv Hrun as r0 c0 Hread.
    pose proof (readPackage_registered _ _ _ _ _ _ _ _ Hcanon Hread) as Hreg.
    apply readPackage_extends, extends_evolves in Hread.
    bind_inv Hrun as p d Hp. apply readPackageInfo_Ok in Hp as [-> Hp].
    destruct (PackageInfo.processed p) eqn:Hproc.
    { apply ret_Ok in Hrun as [<- <-]. eauto. }
    bind_inv Hrun as u1 d1 Hroot. injection Hroot as _ <-.
    bind_inv Hrun as app d2 Hproject.
    apply (loadProject_returns fs path resolve) in Hproject as [Hev2 _];
      [|assumption].
    bind_inv Hrun as u3 d3 Hresolve. apply ret_Ok in Hrun as [<- <-].
    apply resolveDependencies_processed in Hresolve as [Hev3 Hall].
    assert (Hev' : evolves fs c0 d2).
    { eapply evolves_trans; [apply evolves_set_rootPackage|exact Hev2]. }
    assert (Hreg2 : registered fs path addonRootDir r d2)
      by (eapply registered_evolves; eassumption).
    split; [|split].
    - eapply evolves_trans; [exact Hread|].
      eapply evolves_trans; eassumption.
    - eapply registered_evolves; eassumption.
    - apply Hall. eapply registered_getPackageInfos. exact Hreg2. }
  destruct Hret as (Hev & Hreg & p & Hp & Hproc).
  split; [eauto|]. split; [apply (evolves_entries _ _ _ Hev)|].
  intros steps' fuel' projectRelativePath'. unfold loadAddon, bind.
  rewrite (readPackage_registered_returns fs path fuel' addonRootDir true r c1 Hreg).
  unfold readPackageInfo. now rewrite Hp, Hproc.
Qed.

Lemma loadAddon_idempotent_witness :
  loadAddon monorepoFileSystem posix (posixResolve "/") 10 4
    "/mono/packages/app/lib/extra" "../../../.." PackageInfoCache.new
  = Ok 0%nat addonLoaded
  /\ loadAddon monorepoFileSystem posix (posixResolve "/") 10 4
       "/mono/packages/app/lib/extra" "../../../.." addonLoaded
     = Ok 0%nat addonLoaded
  /\ PackageInfoCache.rootPackage addonLoaded = Some 0%nat
  /\ PackageInfoCache.getEntry addonLoaded "/mono/packages/app" = Some (EPackage 1%nat).
Proof.
  assert (Hfirst : loadAddon monorepoFileSystem posix (posixResolve "/") 10 4
                     "/mono/packages/app/lib/extra" "../../../.." PackageInfoCache.new
                   = Ok 0%nat addonLoaded) by (vm_compute; reflexivity).
  assert (Hcanon : realPathsAreCanonical monorepoFileSystem).
  { unfold monorepoFileSystem. apply tableFileSystem_canonical. reflexivity. }
  split; [exact Hfirst|]. split; [|split; reflexivity].
  exact (proj2 (proj2 (loadAddon_idempotent monorepoFileSystem posix
                         (posixResolve "/") 10 4 "/mono/packages/app/lib/extra"
                         "../../../.." PackageInfoCache.new addonLoaded 0%nat
                         Hcanon Hfirst)) 10 3 "../../../..").
Defined.

(* ===================================================================== *)
(** * What a call that returns has left alone *)
(* ===================================================================== *)

(** X19. The upward search only adds to the cache.  When
    [findPackage] returns, every package object and every listing that
    was in the store is there unchanged, under its reference, followed by
    the new ones; every entry of the table is kept; and the table has one
    entry per key if it had before. *)
Theorem findPackage_only_adds
    (fs : FileSystem) (path : PathModule) (steps fuel : nat)
    (packageName startPath : string) (c c' : PackageInfoCache.t)
    (found : option Entry) :
  findPackage fs path steps fuel packageName startPath c = Ok found c' ->
  PackageInfoCache.packageInfos c `prefix_of` PackageInfoCache.packageInfos c'
  /\ PackageInfoCache.nodeModulesLists c
     `prefix_of` PackageInfoCache.nodeModulesLists c'
  /\ (forall k e, PackageInfoCache.getEntry c k = Some e ->
                  PackageInfoCache.getEntry c' k = Some e)
  /\ (List.NoDup (JsMap.keys (PackageInfoCache.entries c)) ->
      List.NoDup (JsMap.keys (PackageInfoCache.entries c'))).
Proof.
  intros Hrun. apply findPackage_extends in Hrun as [Hp Hl He _ Hu]. auto.
Qed.

Lemma findPackage_only_adds_witness :
  exists c',
    findPackage projectFileSystem posix 10 4 "a" "/proj" PackageInfoCache.new
    = Ok (Some (EPackage 0%nat)) c'
    /\ PackageInfoCache.getEntry c' "/proj/node_modules" = Some (EList (ListAt 0%nat))
    /\ PackageInfoCache.packageInfos PackageInfoCache.new
       `prefix_of` PackageInfoCache.packageInfos c'.
Proof.
  eassert (Hrun : findPackage projectFileSystem posix 10 4 "a" "/proj"
                    PackageInfoCache.new = Ok (Some (EPackage 0%nat)) _)
    by (vm_compute; reflexivity).
  eexists. split; [exact Hrun|]. split; [reflexivity|].
  exact (proj1 (findPackage_only_adds _ _ _ _ _ _ _ _ _ Hrun)).
Defined.

Section Settled.
Variable fs : FileSystem.
Variable path : PathModule.

Lemma settled_refl c : settled c c.
Proof. split; [reflexivity|eauto]. Qed.

Lemma settled_trans c1 c2 c3 : settled c1 c2 -> settled c2 c3 -> settled c1 c3.
Proof.
  intros [Hl Hp] [Hl' Hp']. split; [etransitivity; eassumption|].
  intros r p Hr. destruct (Hp r p Hr) as (p2 & Hr2 & Hsame).
  destruct (Hp' r p2 Hr2) as (p3 & Hr3 & Hsame').
  exists p3. split; [assumption|]. intros Hproc.
  specialize (Hsame Hproc). subst p2. auto.
Qed.

Lemma extends_settled c c' : extends fs c c' -> settled c c'.
Proof.
  intros [Hp Hl _ _ _]. split; [assumption|].
  intros r p Hr. exists p. split; [|auto].
  eapply prefix_lookup_Some; eassumption.
Qed.

(** Assigning to an object that is not processed leaves alone what was
    settled. *)
Lemma settled_insert r p q c :
  PackageInfoCache.packageInfos c !! r = Some p ->
  PackageInfo.processed p = false ->
  settled c (PackageInfoCache.set_packageInfos
               (<[r := q]> (PackageInfoCache.packageInfos c)) c).
Proof.
  intros Hr Hproc. split; [reflexivity|]. cbn.
  intros r' p' Hr'. destruct (decide (r = r')) as [<-|Hne].
  - exists q. rewrite list_lookup_insert_eq by (eapply lookup_lt_Some; eassumption).
    split; [reflexivity|]. congruence.
  - exists p'. rewrite list_lookup_insert_ne by assumption. auto.
Qed.

Lemma settled_set_rootPackage v c : settled c (PackageInfoCache.set_rootPackage v c).
Proof. split; [reflexivity|eauto]. Qed.

Lemma settled_set_projectRootDir v c : settled c (set_projectRootDir v c).
Proof. split; [reflexivity|eauto]. Qed.

Section Pass.
Variable cache_findPackage : string -> string -> M (option Entry).
Hypothesis cache_findPackage_extends :
  forall name dir c found c',
    cache_findPackage name dir c = Ok found c' -> extends fs c c'.

Lemma doAddDependencies_settled this dependenciesObj errorType listName c result c' p :
  PackageInfoCache.packageInfos c !! this = Some p ->
  PackageInfo.processed p = false ->
  doAddDependencies path cache_findPackage this dependenciesObj errorType listName c
  = Ok result c' ->
  settled c c'
  /\ exists p', PackageInfoCache.packageInfos c' !! this = Some p'
                /\ PackageInfo.processed p' = false.
Proof.
  intros Hthis Hproc Hrun.
  pose proof (doAddDependencies_result fs path _ cache_findPackage_extends
                _ _ _ _ _ _ _ _ Hthis Hrun) as Hres.
  destruct result as [packages|].
  - destruct Hres as (obj & missing & c1 & _ & _ & Hext & _ & Hc').
    pose proof (extends_lookup fs _ _ _ _ Hext Hthis) as Hthis1.
    destruct missing as [|m missing]; subst c'.
    + split; [now apply extends_settled|eauto].
    + split.
      * eapply settled_trans; [apply extends_settled; exact Hext|].
        eapply settled_insert; eassumption.
      * exists (PackageInfo.addError p errorType (DataNames (m :: missing))).
        split; [|exact Hproc].
        cbn [PackageInfoCache.packageInfos PackageInfoCache.set_packageInfos].
        apply list_lookup_insert_eq. eapply lookup_lt_Some; eassumption.
  - destruct Hres as [-> _]. split; [apply settled_refl|eauto].
Qed.

Lemma updatePackageInfo_settled r f c u c' p :
  PackageInfoCache.packageInfos c !! r = Some p ->
  PackageInfo.processed p = false ->
  updatePackageInfo r f c = Ok u c' ->
  settled c c' /\ PackageInfoCache.packageInfos c' !! r = Some (f p).
Proof.
  intros Hr Hproc Hu. apply updatePackageInfo_Ok in Hu as (p0 & Hr0 & ->).
  rewrite Hr in Hr0. injection Hr0 as <-.
  split; [eapply settled_insert; eassumption|]. cbn.
  apply list_lookup_insert_eq. eapply lookup_lt_Some; eassumption.
Qed.

Lemma resolvePackageDependencies_settled r c u c' :
  resolvePackageDependencies path cache_findPackage r c = Ok u c' -> settled c c'.
Proof.
  unfold resolvePackageDependencies. intros Hrun.
  bind_inv Hrun as p d0 Hread. apply readPackageInfo_Ok in Hread as [-> Hp].
  destruct (PackageInfo.processed p) eqn:Hproc; cbn [negb] in Hrun.
  { apply ret_Ok in Hrun as [_ ->]. apply settled_refl. }
  bind_inv Hrun as pkgs d1 Hdeps. unfold addDependencies in Hdeps.
  destruct (doAddDependencies_settled _ _ _ _ _ _ _ _ Hp Hproc Hdeps)
    as (Hs1 & p1 & Hp1 & Hproc1).
  bind_inv Hrun as u2 d2 Hset.
  destruct (updatePackageInfo_settled _ _ _ _ _ _ Hp1 Hproc1 Hset) as [Hs2 Hp2].
  bind_inv Hrun as p2 d3 Hread. apply readPackageInfo_Ok in Hread as [-> Hp2'].
  rewrite Hp2 in Hp2'. injection Hp2' as <-.
  bind_inv Hrun as u3 d3 Hdev.
  assert (Hs3 : settled d2 d3
                /\ exists p3, PackageInfoCache.packageInfos d3 !! r = Some p3
                              /\ PackageInfo.processed p3 = false).
  { destruct (PackageInfo.isRoot _).
    - bind_inv Hdev as pkgs' d4 Hdevs. unfold addDevDependencies in Hdevs.
      destruct (doAddDependencies_settled _ _ _ _ _ _ _ _ Hp2 Hproc1 Hdevs)
        as (Hs & p3 & Hp3 & Hproc3).
      destruct (updatePackageInfo_settled _ _ _ _ _ _ Hp3 Hproc3 Hdev) as [Hs' Hp4].
      split; [eapply settled_trans; eassumption|]. eauto.
    - apply ret_Ok in Hdev as [_ ->]. split; [apply settled_refl|eauto]. }
  destruct Hs3 as (Hs3 & p3 & Hp3 & Hproc3).
  destruct (updatePackageInfo_settled _ _ _ _ _ _ Hp3 Hproc3 Hrun) as [Hs4 _].
  eapply settled_trans; [exact Hs1|].
  eapply settled_trans; [exact Hs2|].
  eapply settled_trans; eassumption.
Qed.
End Pass.

Lemma resolveDependencies_settled steps fuel c u c' :
  resolveDependencies fs path steps fuel c = Ok u c' -> settled c c'.
Proof.
  unfold resolveDependencies.
  generalize (PackageInfoCache.getPackageInfos c). intros packageInfos.
  revert c. induction packageInfos as [|x rest IH]; intros c Hrun.
  - apply ret_Ok in Hrun as [_ ->]. apply settled_refl.
  - cbn [forEach] in Hrun. bind_inv Hrun as u1 c1 Hx.
    eapply settled_trans; [|eauto].
    eapply resolvePackageDependencies_settled; [|exact Hx].
    intros name dir d found d'. apply findPackage_extends.
Qed.

Lemma loadApp_settled steps fuel dir isRoot c r c' :
  loadApp fs path steps fuel dir isRoot c = Ok r c' -> settled c c'.
Proof.
  intros Hrun. unfold loadApp in Hrun.
  bind_inv Hrun as r0 c0 Hread. apply readPackage_extends, extends_settled in Hread.
  bind_inv Hrun as p d Hp. apply readPackageInfo_Ok in Hp as [-> Hp].
  destruct (PackageInfo.processed p).
  { now apply ret_Ok in Hrun as [_ ->]. }
  destruct isRoot.
  - bind_inv Hrun as u1 d1 Hroot. injection Hroot as _ <-.
    bind_inv Hrun as u2 d2 Hresolve. apply ret_Ok in Hrun as [_ ->].
    apply resolveDependencies_settled in Hresolve.
    eapply settled_trans; [exact Hread|].
    eapply settled_trans; [apply settled_set_rootPackage|exact Hresolve].
  - now apply ret_Ok in Hrun as [_ ->].
Qed.

Variable resolve : string -> string -> string.

Lemma loadProject_settled steps fuel dir isRoot c r c' :
  loadProject fs path resolve steps fuel dir isRoot c = Ok r c' -> settled c c'.
Proof.
  intros Hrun.
  destruct (loadProject_selects _ _ _ _ _ _ _ _ _ _ Hrun) as (appRootDir & Hload & _).
  eapply settled_trans; [apply settled_set_projectRootDir|].
  eapply loadApp_settled. exact Hload.
Qed.

Lemma loadAddon_settled steps fuel dir projectRelativePath c r c' :
  loadAddon fs path resolve steps fuel dir projectRelativePath c = Ok r c' ->
  settled c c'.
Proof.
  intros Hrun. unfold loadAddon in Hrun.
  bind_inv Hrun as r0 c0 Hread. apply readPackage_extends, extends_settled in Hread.
  bind_inv Hrun as p d Hp. apply readPackageInfo_Ok in Hp as [-> Hp].
  destruct (PackageInfo.processed p).
  { now apply ret_Ok in Hrun as [_ ->]. }
  bind_inv Hrun as u1 d1 Hroot. injection Hroot as _ <-.
  bind_inv Hrun as app d2 Hproject. apply loadProject_settled in Hproject.
  bind_inv Hrun as u3 d3 Hresolve. apply ret_Ok in Hrun as [_ ->].
  apply resolveDependencies_settled in Hresolve.
  eapply settled_trans; [exact Hread|].
  eapply settled_trans; [apply settled_set_rootPackage|].
  eapply settled_trans; eassumption.
Qed.
End Settled.

(** X20. A load never touches what is settled.  When [loadApp],
    [loadProject] or [loadAddon] returns, every listing that was in the
    store is there exactly as it was, and so is every package object that
    was processed: its edges, its ledger and its flags are final.  Only
    package objects that were not yet processed may have changed. *)
Theorem load_leaves_processed_alone
    (fs : FileSystem) (path : PathModule) (resolve : string -> string -> string)
    (steps fuel : nat) (dir other : string) (isRoot : bool)
    (c c' : PackageInfoCache.t) (r : PkgRef) :
  loadApp fs path steps fuel dir isRoot c = Ok r c'
  \/ loadProject fs path resolve steps fuel dir isRoot c = Ok r c'
  \/ loadAddon fs path resolve steps fuel dir other c = Ok r c' ->
  (forall n l, PackageInfoCache.nodeModulesLists c !! n = Some l ->
               PackageInfoCache.nodeModulesLists c' !! n = Some l)
  /\ (forall r0 p, PackageInfoCache.packageInfos c !! r0 = Some p ->
                   PackageInfo.processed p = true ->
                   PackageInfoCache.packageInfos c' !! r0 = Some p).
Proof.
  intros Hrun.
  assert (Hs : settled c c').
  { destruct Hrun as [Hrun|[Hrun|Hrun]].
    - eapply loadApp_settled; exact Hrun.
    - eapply loadProject_settled; exact Hrun.
    - eapply loadAddon_settled; exact Hrun. }
  destruct Hs as [Hl Hp]. split.
  - intros n l Hn. eapply prefix_lookup_Some; eassumption.
  - intros r0 p Hr0 Hproc. destruct (Hp r0 p Hr0) as (p' & Hr' & Hsame).
    now rewrite (Hsame Hproc) in Hr'.
Qed.

Lemma load_leaves_processed_alone_witness :
  exists c' p,
    loadApp projectFileSystem posix 10 4 "/other" true projectLoaded = Ok 2%nat c'
    /\ PackageInfoCache.contains projectLoaded "/other" = false
    /\ PackageInfoCache.contains c' "/other" = true
    /\ PackageInfoCache.packageInfos projectLoaded !! 0%nat = Some p
    /\ PackageInfo.processed p = true
    /\ PackageInfoCache.packageInfos c' !! 0%nat = Some p.
Proof.
  eassert (Hrun : loadApp projectFileSystem posix 10 4 "/other" true
                    projectLoaded = Ok 2%nat _) by (vm_compute; reflexivity).
  eassert (Hp : PackageInfoCache.packageInfos projectLoaded !! 0%nat = Some _)
    by (vm_compute; reflexivity).
  eexists _, _. split; [exact Hrun|]. split; [reflexivity|].
  split; [reflexivity|]. split; [exact Hp|]. split; [reflexivity|].
  exact (proj2 (load_leaves_processed_alone projectFileSystem posix
                  (posixResolve "/") 10 4 "/other" EmptyString true
                  _ _ 2%nat (or_introl Hrun)) 0%nat _ Hp eq_refl).
Defined.

(* ===================================================================== *)
(** * The error ledgers, the main file of an addon, the errors thrown *)
(* ===================================================================== *)

Lemma reachable_mainlessLoaded : reachable mainlessLoaded.
Proof.
  apply (reachable_call PackageInfoCache.new); [apply reachable_new|].
  apply (call_loadApp _ mainlessFileSystem posix 10 4 "/addon" true).
  vm_compute. reflexivity.
Qed.

(** X21. The payload of a ledger entry has the type of its kind.  In
    every cache that can be reached, in the ledger of every package object
    and of every listing: an entry of a kind about a directory, a
    descriptor file, a main file or an entry of a listing holds a string;
    an entry of a kind about missing dependencies holds an array of names
    that is not empty.  These are the types [#showObjErrors] casts the
    payloads to. *)
Theorem ledger_payloads_by_kind (c : PackageInfoCache.t) :
  reachable c ->
  (forall r p entry,
     PackageInfoCache.packageInfos c !! r = Some p ->
     In entry (ErrorList.getErrors (PackageInfo.errors p)) ->
     (In (ErrorEntry.type entry) pathErrors ->
      exists s, ErrorEntry.data entry = DataString s)
     /\ (In (ErrorEntry.type entry) dependencyErrors ->
         exists name names, ErrorEntry.data entry = DataNames (name :: names)))
  /\ (forall n l entry,
        PackageInfoCache.nodeModulesLists c !! n = Some l ->
        In entry (ErrorList.getErrors (NodeModulesList.errors l)) ->
        (In (ErrorEntry.type entry) pathErrors ->
         exists s, ErrorEntry.data entry = DataString s)
        /\ (In (ErrorEntry.type entry) dependencyErrors ->
            exists name names, ErrorEntry.data entry = DataNames (name :: names))).
Proof.
  intros Hreach. apply reachable_wellFormed in Hreach. split.
  - intros r p entry Hp Hin.
    pose proof (sound_ledger _ _ (wf_packages _ Hreach _ _ Hp)) as Hty.
    unfold typedLedger in Hty. rewrite List.Forall_forall in Hty.
    apply (Hty entry Hin).
  - intros n l entry Hl Hin.
    pose proof (sound_listing_ledger _ _ (wf_listings _ Hreach _ _ Hl)) as Hty.
    unfold typedLedger in Hty. rewrite List.Forall_forall in Hty.
    apply (Hty entry Hin).
Qed.

Lemma ledger_payloads_by_kind_witness :
  (exists s,
     DataString "/addon/index.js" = DataString s)
  /\ (exists name names, DataNames ["gone"] = DataNames (name :: names)).
Proof.
  eassert (Hp : PackageInfoCache.packageInfos mainlessLoaded !! 0%nat = Some _)
    by (vm_compute; reflexivity).
  pose proof (fun entry =>
                proj1 (ledger_payloads_by_kind mainlessLoaded reachable_mainlessLoaded)
                  0%nat _ entry Hp) as Hledger.
  split.
  - apply (Hledger (ErrorEntry.mk ERRORS.ERROR_EMBER_ADDON_MAIN_MISSING
                      (DataString "/addon/index.js"))).
    + vm_compute. auto.
    + vm_compute. auto.
  - apply (Hledger (ErrorEntry.mk ERRORS.ERROR_DEPENDENCIES_MISSING
                      (DataNames ["gone"]))).
    + vm_compute. auto.
    + vm_compute. auto.
Defined.

(** X22. An addon without its main file is not valid and says so.  In
    every cache that can be reached, a package object of the addon class
    or of the engine class has the canonical path of its main file in
    [addonMainPath], or else it is not valid and its ledger has an entry
    [emberAddonMainMissing] that holds a path. *)
Theorem addon_has_main_or_error
    (c : PackageInfoCache.t) (r : PkgRef) (p : PackageInfo.t) :
  reachable c ->
  PackageInfoCache.packageInfos c !! r = Some p ->
  instanceofEmberAddonPackageInfo (PackageInfo.class p) = true ->
  (exists mainRealPath,
     PackageInfo.addonMainPath p = Some mainRealPath
     /\ mainRealPath <> EmptyString)
  \/ (PackageInfo.valid p = false
      /\ PackageInfo.hasErrors p = true
      /\ exists mainPath,
           In (ErrorEntry.mk ERRORS.ERROR_EMBER_ADDON_MAIN_MISSING
                 (DataString mainPath))
              (ErrorList.getErrors (PackageInfo.errors p))).
Proof.
  intros Hreach Hp Hclass. apply reachable_wellFormed in Hreach.
  pose proof (wf_packages _ Hreach _ _ Hp) as Hsound.
  destruct (sound_main _ _ Hsound Hclass) as [Hmain|(Hvalid & mainPath & Hin)].
  - left. unfold truthyPath in Hmain.
    destruct (PackageInfo.addonMainPath p) as [mainRealPath|]; [|discriminate].
    exists mainRealPath. split; [reflexivity|].
    intros ->. discriminate.
  - right. split; [assumption|]. split; [now apply (sound_valid _ _ Hsound)|].
    eauto.
Qed.

Lemma addon_has_main_or_error_witness :
  exists p,
    PackageInfoCache.packageInfos mainlessLoaded !! 0%nat = Some p
    /\ PackageInfo.addonMainPath p = None
    /\ PackageInfo.valid p = false
    /\ PackageInfo.hasErrors p = true.
Proof.
  eassert (Hp : PackageInfoCache.packageInfos mainlessLoaded !! 0%nat = Some _)
    by (vm_compute; reflexivity).
  destruct (addon_has_main_or_error mainlessLoaded 0%nat _
              reachable_mainlessLoaded Hp eq_refl)
    as [(mainRealPath & Hmain & _)|(Hvalid & Herrors & _)].
  - discriminate Hmain.
  - eexists. split; [exact Hp|]. split; [reflexivity|]. split; assumption.
Defined.

(** X23. The errors a public call throws.  From a cache that can be
    reached, an error that [loadProject], [loadApp], [loadAddon] or
    [findPackage] throws is one of eight: the four aborts of the readers on
    an entry of the other kind, the abort of [loadProject] on a project
    with two roots, and the type errors of calling [addInRepoAddon] on a
    package that has none, of joining a path with an in-repo path that is
    no string, and of reading [startsWith] of an [undefined] part of a
    name.  So it is never the failure of a write to the frozen, shared null
    listing, which is never written to, nor the failure to find the object
    of a reference. *)
Theorem public_calls_throw_own_errors (c : PackageInfoCache.t) (error : string) :
  reachable c ->
  publicThrow c error ->
  In error
     [ ERROR_PACKAGE_AT_LIST_PATH; ERROR_PACKAGE_AT_LIST_REAL_PATH;
       ERROR_LIST_AT_OTHER_PATH; ERROR_LIST_AT_PACKAGE_PATH;
       ERROR_PROJECT_ROOT_AND_BUILD_FILE;
       TYPE_ERROR_NOT_A_FUNCTION; TYPE_ERROR_PATH_ARGUMENT;
       NodeModulesList.TYPE_ERROR_STARTSWITH ]
  /\ error <> TYPE_ERROR_FROZEN /\ error <> INVALID_REFERENCE.
Proof.
  intros Hreach Hthrow. apply reachable_wellFormed in Hreach.
  assert (Hown : ownError error).
  { destruct Hthrow as [fs path resolve steps fuel dir isRoot c' Hcall
                       |fs path steps fuel dir isRoot c' Hcall
                       |fs path resolve steps fuel dir rel c' Hcall
                       |fs path steps fuel name start c' Hcall].
    - pose proof (loadProject_guarantees fs path resolve steps fuel dir isRoot c
                    Hreach) as Hg.
      unfold guarantees in Hg. rewrite Hcall in Hg. apply Hg.
    - pose proof (loadApp_guarantees fs path steps fuel dir isRoot c Hreach) as Hg.
      unfold guarantees in Hg. rewrite Hcall in Hg. apply Hg.
    - pose proof (loadAddon_guarantees fs path resolve steps fuel dir rel c Hreach)
        as Hg.
      unfold guarantees in Hg. rewrite Hcall in Hg. apply Hg.
    - pose proof (findPackage_guarantees fs path steps fuel name start c Hreach)
        as Hg.
      unfold guarantees in Hg. rewrite Hcall in Hg. apply Hg. }
  split; [exact Hown|].
  unfold ownError, thrownErrors in Hown. cbn [In] in Hown.
  split; intros ->;
    repeat (destruct Hown as [Hown|Hown]; [discriminate Hown|]);
    contradiction.
Qed.

Lemma public_calls_throw_own_errors_witness :
  loadApp projectFileSystem posix 10 4 "/proj/node_modules" true projectLoaded
  = Throw ERROR_PACKAGE_AT_LIST_PATH projectLoaded
  /\ ERROR_PACKAGE_AT_LIST_PATH <> TYPE_ERROR_FROZEN.
Proof.
  assert (Hthrow :
    loadApp projectFileSystem posix 10 4 "/proj/node_modules" true projectLoaded
    = Throw ERROR_PACKAGE_AT_LIST_PATH projectLoaded) by (vm_compute; reflexivity).
  split; [exact Hthrow|].
  apply (public_calls_throw_own_errors projectLoaded ERROR_PACKAGE_AT_LIST_PATH
           reachable_projectLoaded).
  exact (throw_loadApp _ _ projectFileSystem posix 10 4 "/proj/node_modules" true
           projectLoaded Hthrow).
Defined.

(* ===================================================================== *)
(** * In-repo addons of a package that cannot hold them; empty listings *)
(* ===================================================================== *)

Lemma bind_run {A B} (m : M A) (k : A -> M B) c a c1 :
  m c = Ok a c1 -> bind m k c = k a c1.
Proof. unfold bind. now intros ->. Qed.

Lemma bind_throws {A B} (m : M A) (k : A -> M B) c error c1 :
  m c = Throw error c1 -> bind m k c = Throw error c1.
Proof. unfold bind. now intros ->. Qed.

Lemma wrapped_paths (packageJson : JsMap.t Json) :
  getObjectProperty (Some (JObj [("packageJson", JObj packageJson)]))
    "packageJson.ember-addon.paths"
  = getObjectProperty (Some (JObj packageJson)) "ember-addon.paths".
Proof. reflexivity. Qed.

Lemma PackageInfoFactory_create_plain fs path packageJson realPath isRoot :
  isEmberAddonPackageJson (Some (JObj packageJson)) = false ->
  isEmberAppPackageJson (Some (JObj packageJson)) = false ->
  PackageInfoFactory_create fs path packageJson realPath isRoot
  = PackageInfo.new
      (if isEmberPackageJson (Some (JObj packageJson))
       then ClassEmberPackageInfo else ClassPackageInfo)
      packageJson realPath isRoot.
Proof.
  intros Haddon Happ. unfold PackageInfoFactory_create, isEmberEnginePackageJson.
  cbn zeta. rewrite Haddon, Happ. cbn [negb].
  now destruct (isEmberPackageJson _).
Qed.

(** X24. In-repo addons need a package that can hold them.  When
    [#readPackage] creates the object of a package that is neither an
    addon nor an application (a plain package, or an Ember package that is
    neither), whose descriptor lists in-repo addon paths, and the first
    path is read as an addon, the call throws the [TypeError] of calling
    [addInRepoAddon], which those classes do not have.  The package and
    the addon stay registered in the cache. *)
Theorem in_repo_addon_of_plain_package_throws
    (fs : FileSystem) (path : PathModule) (fuel : nat) (dir : string)
    (isRoot : bool) (c c2 : PackageInfoCache.t)
    (realPath packageDataPath p : string) (pkgObj : JsMap.t Json)
    (rest : list Json) (addonPkgInfo : PkgRef) (addon : PackageInfo.t) :
  let packageJson := JsMap.set pkgObj "root" (JStr realPath) in
  PackageInfoCache.getEntry c (normalize path dir) = None ->
  getRealDirectoryPath fs (normalize path dir) = Some realPath ->
  PackageInfoCache.getEntry c realPath = None ->
  getRealFilePath fs (join path realPath PACKAGE_JSON) = Some packageDataPath ->
  packageDataPath <> EmptyString ->
  readJsonSync fs packageDataPath = Some pkgObj ->
  isEmberAddonPackageJson (Some (JObj packageJson)) = false ->
  isEmberAppPackageJson (Some (JObj packageJson)) = false ->
  isStringArray (getObjectProperty (Some (JObj packageJson)) "ember-addon.paths")
  = Some (JStr p :: rest) ->
  readPackage fs path fuel (join path realPath p) false
    (withNewPackage realPath
       (PackageInfoFactory_create fs path packageJson realPath isRoot) c)
  = Ok addonPkgInfo c2 ->
  PackageInfoCache.packageInfos c2 !! addonPkgInfo = Some addon ->
  instanceofEmberAddonPackageInfo (PackageInfo.class addon) = true ->
  readPackage fs path (S fuel) dir isRoot c = Throw TYPE_ERROR_NOT_A_FUNCTION c2
  /\ PackageInfoCache.getEntry c2 realPath
     = Some (EPackage (length (PackageInfoCache.packageInfos c))).
Proof.
  intros packageJson Hnone Hreal Hnone' Hfile Hname Hjson Haddon Happ Hpaths
    Hread Hlookup Hclass.
  rewrite (PackageInfoFactory_create_plain _ _ _ _ _ Haddon Happ) in Hread.
  set (class := if isEmberPackageJson (Some (JObj packageJson))
                then ClassEmberPackageInfo else ClassPackageInfo) in *.
  set (self := PackageInfo.new class packageJson realPath isRoot) in *.
  set (new := length (PackageInfoCache.packageInfos c)).
  assert (Hself1 : PackageInfoCache.packageInfos (withNewPackage realPath self c)
                   !! new = Some self) by apply lookup_snoc.
  pose proof (readPackage_extends _ _ _ _ _ _ _ _ Hread) as Hext.
  assert (Hself2 : PackageInfoCache.packageInfos c2 !! new = Some self).
  { eapply prefix_lookup_Some; [exact Hself1|apply Hext]. }
  split.
  2:{ apply (extends_entries _ _ _ Hext). unfold withNewPackage.
      unfold PackageInfoCache.getEntry, PackageInfoCache.addEntry. cbn.
      apply JsMapFacts.get_set_eq. }
  assert (Hcallback :
    addInRepoAddonPath path (readPackage fs path fuel) new realPath (JStr p)
      (withNewPackage realPath self c)
    = Throw TYPE_ERROR_NOT_A_FUNCTION c2).
  { unfold addInRepoAddonPath.
    rewrite (bind_run _ _ _ _ _ Hread).
    assert (Haddon2 : readPackageInfo addonPkgInfo c2 = Ok addon c2)
      by (unfold readPackageInfo; now rewrite Hlookup).
    rewrite (bind_run _ _ _ _ _ Haddon2), Hclass.
    assert (Hself3 : readPackageInfo new c2 = Ok self c2)
      by (unfold readPackageInfo; now rewrite Hself2).
    rewrite (bind_run _ _ _ _ _ Hself3).
    subst self class. cbn [PackageInfo.class PackageInfo.new].
    now destruct (isEmberPackageJson _). }
  assert (Hcreate :
    createPackage fs path (readPackage fs path fuel) (readNodeModulesList fs path fuel)
      realPath false ErrorList.new isRoot c
    = Throw TYPE_ERROR_NOT_A_FUNCTION c2).
  { unfold createPackage, readPackageJson. cbn [negb]. rewrite Hfile.
    cbn [truthyPath].
    destruct (String.eqb_spec packageDataPath EmptyString); [contradiction|].
    cbn [negb from_option id]. rewrite Hjson. cbn zeta. fold packageJson.
    rewrite (PackageInfoFactory_create_plain _ _ _ _ _ Haddon Happ).
    fold class. fold self.
    rewrite (bind_run _ _ c new
               (PackageInfoCache.set_packageInfos
                  (PackageInfoCache.packageInfos c ++ [self]) c)) by reflexivity.
    change (ErrorList.hasErrors ErrorList.new) with false. cbv iota.
    rewrite (bind_run (ret tt) _ _ tt _ eq_refl).
    rewrite (bind_run _ _ _ tt (withNewPackage realPath self c)) by reflexivity.
    assert (Hself0 : readPackageInfo new (withNewPackage realPath self c)
                     = Ok self (withNewPackage realPath self c))
      by (unfold readPackageInfo; now rewrite Hself1).
    rewrite (bind_run _ _ _ _ _ Hself0).
    change (PackageInfo.packageJson self) with packageJson.
    rewrite wrapped_paths, Hpaths. cbn [forEach].
    apply bind_throws. apply bind_throws. exact Hcallback. }
  cbn [readPackage]. unfold readPackage_body. cbn zeta. rewrite Hnone, Hreal.
  destruct (String.eqb realPath (normalize path dir)); cbn [negb];
    [exact Hcreate|]. now rewrite Hnone'.
Qed.

Lemma in_repo_addon_of_plain_package_throws_witness :
  exists c2,
    readPackage plainWithAddonFileSystem posix 3 "/plain" true PackageInfoCache.new
    = Throw TYPE_ERROR_NOT_A_FUNCTION c2
    /\ PackageInfoCache.getEntry c2 "/plain" = Some (EPackage 0%nat)
    /\ PackageInfoCache.getEntry c2 "/plain/lib/x" = Some (EPackage 1%nat).
Proof.
  eassert (Hread :
    readPackage plainWithAddonFileSystem posix 2 (join posix "/plain" "lib/x") false
      (withNewPackage "/plain"
         (PackageInfoFactory_create plainWithAddonFileSystem posix
            (JsMap.set [ ("name", JStr "plain");
                         ("ember-addon", JObj [("paths", JArr [JStr "lib/x"])]) ]
               "root" (JStr "/plain")) "/plain" true)
         PackageInfoCache.new)
    = Ok 1%nat _) by (vm_compute; reflexivity).
  match type of Hread with
  | _ = Ok _ ?c2 =>
      eassert (Haddon : PackageInfoCache.packageInfos c2 !! 1%nat = Some _)
        by (vm_compute; reflexivity)
  end.
  destruct (in_repo_addon_of_plain_package_throws plainWithAddonFileSystem posix
              2 "/plain" true PackageInfoCache.new _ "/plain" "/plain/package.json"
              "lib/x" _ [] 1%nat _
              eq_refl eq_refl eq_refl eq_refl ltac:(discriminate) eq_refl
              eq_refl eq_refl eq_refl Hread Haddon eq_refl) as [Hthrow Hentry].
  eexists. split; [exact Hthrow|]. split; [exact Hentry|]. reflexivity.
Defined.

Lemma forEach_skips {A} (array : list A) (callback : A -> M unit) c :
  (forall x, In x array -> callback x c = Ok tt c) ->
  forEach array callback c = Ok tt c.
Proof.
  induction array as [|x rest IH]; intros Hskip; [reflexivity|].
  cbn [forEach]. rewrite (bind_run _ _ _ _ _ (Hskip x (or_introl eq_refl))).
  apply IH. intros y Hy. apply Hskip. now right.
Qed.

(** X25. A [node_modules] directory without packages is cached as an
    empty listing.  When the directory exists and has no entry in the
    table, and every name in it is filtered out (it starts with ['.'] or
    ['_'], or has no descriptor) or is a regular file,
    [#readNodeModulesList] reads no package: it adds one empty listing to
    the store, registers it under the canonical path and returns it; and
    the lookup in that listing returns [undefined] for every name, also
    for the name [undefined]. *)
Theorem listing_without_packages
    (fs : FileSystem) (path : PathModule) (fuel : nat) (dir realPath : string)
    (c : PackageInfoCache.t) :
  PackageInfoCache.getEntry c (normalize path dir) = None ->
  getRealDirectoryPath fs (normalize path dir) = Some realPath ->
  PackageInfoCache.getEntry c realPath = None ->
  (forall fileName,
     In fileName (readdirSync fs realPath) ->
     isNodeModulesEntry fs realPath fileName = true ->
     truthyPath (getRealFilePath fs (join path realPath fileName)) = true) ->
  let new := ListAt (length (PackageInfoCache.nodeModulesLists c)) in
  let c' :=
    PackageInfoCache.addEntry realPath (EList new)
      (PackageInfoCache.set_nodeModulesLists
         (PackageInfoCache.nodeModulesLists c ++ [NodeModulesList.new realPath]) c) in
  readNodeModulesList fs path (S fuel) dir c = Ok (Some new) c'
  /\ forall depth packageName,
       NodeModulesList.findPackage (S depth) (PackageInfoCache.nodeModulesLists c')
         new packageName = Return None.
Proof.
  intros Hnone Hreal Hnone' Hskip new c'. split.
  - assert (Hcreate :
      createNodeModulesList fs path (readPackage fs path fuel)
        (readNodeModulesList fs path fuel) realPath c = Ok (Some new) c').
    { unfold createNodeModulesList.
      rewrite (bind_run _ _ c new
                 (PackageInfoCache.set_nodeModulesLists
                    (PackageInfoCache.nodeModulesLists c
                     ++ [NodeModulesList.new realPath]) c)) by reflexivity.
      rewrite (bind_run _ _ _ tt
                 (PackageInfoCache.set_nodeModulesLists
                    (PackageInfoCache.nodeModulesLists c
                     ++ [NodeModulesList.new realPath]) c)).
      - reflexivity.
      - apply forEach_skips. intros entryName Hin.
        apply List.filter_In in Hin as [Hin Hentry].
        unfold readNodeModulesEntry. cbn zeta.
        now rewrite (Hskip entryName Hin Hentry). }
    cbn [readNodeModulesList]. unfold readNodeModulesList_body. cbn zeta.
    rewrite Hnone, Hreal.
    destruct (String.eqb realPath (normalize path dir)); cbn [negb];
      [exact Hcreate|]. now rewrite Hnone'.
  - intros depth packageName. cbn [NodeModulesList.findPackage].
    subst new c'. cbn [NodeModulesList.deref].
    change (PackageInfoCache.nodeModulesLists (PackageInfoCache.addEntry _ _ _))
      with (PackageInfoCache.nodeModulesLists c ++ [NodeModulesList.new realPath]).
    now rewrite lookup_snoc.
Qed.

Lemma listing_without_packages_witness :
  exists c',
    readNodeModulesList noPackagesFileSystem posix 1 "/p/node_modules"
      PackageInfoCache.new = Ok (Some (ListAt 0%nat)) c'
    /\ PackageInfoCache.getEntry c' "/p/node_modules" = Some (EList (ListAt 0%nat))
    /\ NodeModulesList.findPackage 1 (PackageInfoCache.nodeModulesLists c')
         (ListAt 0%nat) None = Return None.
Proof.
  destruct (listing_without_packages noPackagesFileSystem posix 0 "/p/node_modules"
              "/p/node_modules" PackageInfoCache.new eq_refl eq_refl eq_refl)
    as [Hread Hfind].
  - intros fileName Hin Hentry. vm_compute in Hin.
    destruct Hin as [<-|[<-|[<-|[<-|[]]]]]; try discriminate Hentry.
    reflexivity.
  - eexists. split; [exact Hread|]. split; [reflexivity|].
    apply (Hfind 0%nat None).
Defined.

(* ===================================================================== *)
(** * Showing the errors *)
(* ===================================================================== *)

Lemma printEach_returns {A} (callback : A -> Printed) (array : list A) :
  (forall x, In x array -> snd (callback x) = None) ->
  snd (printEach callback array) = None.
Proof.
  induction array as [|x rest IH]; intros Hall; [reflexivity|].
  cbn [printEach]. pose proof (Hall x (or_introl eq_refl)) as Hx.
  destruct (callback x) as [lines [error|]]; [discriminate|].
  specialize (IH (fun y Hy => Hall y (or_intror Hy))).
  now destruct (printEach callback rest) as [lines' thrown].
Qed.

Section ShowErrorsFacts.
Variable relative : string -> string -> string.

Lemma showErrorEntry_typed rootPath errorEntry :
  typedEntry errorEntry ->
  snd (showErrorEntry relative rootPath errorEntry) = None.
Proof.
  intros [Hpath Hdependency]. unfold showErrorEntry. cbn zeta.
  destruct (String.eqb_spec (ErrorEntry.type errorEntry)
              ERRORS.ERROR_PACKAGE_JSON_MISSING); [reflexivity|].
  destruct (String.eqb_spec (ErrorEntry.type errorEntry)
              ERRORS.ERROR_PACKAGE_JSON_PARSE); [reflexivity|].
  destruct (String.eqb_spec (ErrorEntry.type errorEntry)
              ERRORS.ERROR_EMBER_ADDON_MAIN_MISSING) as [Hmain|_].
  { destruct Hpath as [s ->]; [|reflexivity].
    rewrite Hmain. cbn. auto. }
  assert (Hmissing : forall one some,
            In (ErrorEntry.type errorEntry) dependencyErrors ->
            snd (showMissing one some (ErrorEntry.data errorEntry)) = None).
  { intros one some Hin. destruct (Hdependency Hin) as (name & names & ->).
    cbn. now destruct names. }
  destruct (String.eqb_spec (ErrorEntry.type errorEntry)
              ERRORS.ERROR_DEPENDENCIES_MISSING) as [Hdeps|_].
  { apply Hmissing. rewrite Hdeps. now left. }
  destruct (String.eqb_spec (ErrorEntry.type errorEntry)
              ERRORS.ERROR_DEVDEPENDENCIES_MISSING) as [Hdev|_].
  { apply Hmissing. rewrite Hdev. now right; left. }
  now destruct (String.eqb _ ERRORS.ERROR_NODEMODULES_ENTRY_MISSING).
Qed.

Lemma showObjErrors_typed isApp realPath errors :
  typedLedger errors -> snd (showObjErrors relative isApp realPath errors) = None.
Proof.
  intros Hty. unfold showObjErrors.
  destruct (negb (ErrorList.hasErrors errors)); [reflexivity|]. cbn zeta.
  destruct (match ErrorList.getErrors errors with
            | [entry] => _ | _ => false end); [reflexivity|].
  pose proof (printEach_returns (showErrorEntry relative realPath)
                (ErrorList.getErrors errors)) as Hreturns.
  destruct (printEach _ _) as [lines thrown]. cbn [snd] in *.
  apply Hreturns. intros entry Hin. apply showErrorEntry_typed.
  unfold typedLedger in Hty. rewrite List.Forall_forall in Hty. now apply Hty.
Qed.

Lemma showErrors_returns c :
  wellFormed c -> snd (showErrors relative c) = None.
Proof.
  intros Hwf. unfold showErrors. apply printEach_returns.
  intros obj Hin. unfold PackageInfoCache.findErrors in Hin.
  apply List.filter_In in Hin as [Hin _].
  destruct (table_values_get _ _ Hwf Hin) as [k Hk].
  unfold showEntryErrors. destruct obj as [r|l].
  - destruct (wf_table_packages _ Hwf _ _ Hk) as (p & Hp & _). rewrite Hp.
    apply showObjErrors_typed.
    apply (sound_ledger _ _ (wf_packages _ Hwf _ _ Hp)).
  - destruct (wf_table_listings _ Hwf _ _ Hk) as (n & nl & -> & Hnl & _).
    cbn [NodeModulesList.deref]. rewrite Hnl.
    apply showObjErrors_typed.
    apply (sound_listing_ledger _ _ (wf_listings _ Hwf _ _ Hnl)).
Qed.
End ShowErrorsFacts.

(** X26. Showing the errors never fails.  On every cache that can be
    reached, [showErrors] returns: no payload of a ledger makes
    [#showObjErrors] throw, whatever [path.relative] computes.  It prints
    nothing when [hasErrors] is false; and an object whose only error is
    [packageDirectoryMissing] prints nothing, while any other ledger that
    is not empty prints a blank line and a heading first, which names the
    object an app only if it is an instance of the app class and an addon
    otherwise. *)
Theorem showErrors_never_throws
    (relative : string -> string -> string) (c : PackageInfoCache.t) :
  reachable c ->
  snd (showErrors relative c) = None
  /\ (PackageInfoCache.hasErrors c = false -> showErrors relative c = ([], None))
  /\ (forall isApp realPath data,
        showObjErrors relative isApp realPath
          (ErrorList.mk [ErrorEntry.mk ERRORS.ERROR_PACKAGE_DIR_MISSING data])
        = ([], None))
  /\ (forall isApp realPath errors,
        typedLedger errors ->
        ErrorList.hasErrors errors = true ->
        (forall data, ErrorList.getErrors errors
                      <> [ErrorEntry.mk ERRORS.ERROR_PACKAGE_DIR_MISSING data]) ->
        exists lines,
          showObjErrors relative isApp realPath errors
          = (EmptyString
             :: ("Errors for the 'package.json' file for the "
                 ++ (if isApp then "app" else "addon") ++ " at " ++ realPath)%string
             :: lines, None)).
Proof.
  intros Hreach. apply reachable_wellFormed in Hreach.
  split; [now apply showErrors_returns|]. split; [|split].
  - intros Hnone. unfold showErrors, PackageInfoCache.findErrors.
    unfold PackageInfoCache.hasErrors in Hnone.
    induction (JsMap.values (PackageInfoCache.entries c)) as [|e rest IH];
      [reflexivity|].
    cbn [existsb] in Hnone. apply orb_false_iff in Hnone as [He Hrest].
    cbn [List.filter]. rewrite He. now apply IH.
  - reflexivity.
  - intros isApp realPath errors Hty Herrors Hother.
    pose proof (showObjErrors_typed relative isApp realPath errors Hty) as Hreturns.
    unfold showObjErrors in *. rewrite Herrors in *. cbn [negb] in *. cbn zeta in *.
    destruct (match ErrorList.getErrors errors with
              | [entry] => _ | _ => false end) eqn:Honly.
    + exfalso. destruct (ErrorList.getErrors errors) as [|[type data] [|]] eqn:Hlist;
        try discriminate. apply String.eqb_eq in Honly. cbn in Honly. subst type.
      now apply (Hother data).
    + destruct (printEach _ _) as [lines thrown]. cbn [snd] in Hreturns. subst thrown.
      now exists lines.
Qed.

Lemma showErrors_never_throws_witness :
  showErrors (fun _ to => to) mainlessLoaded
  = ([ EmptyString;
       "Errors for the 'package.json' file for the addon at /addon";
       "  specifies a missing ember-addon 'main' file at relative path '/addon/index.js'";
       "  specifies a dependency that was not loaded 'gone'" ], None).
Proof.
  pose proof (proj1 (showErrors_never_throws (fun _ to => to) mainlessLoaded
                       reachable_mainlessLoaded)) as Hreturns.
  destruct (showErrors (fun _ to => to) mainlessLoaded) as [lines thrown] eqn:Hshow.
  cbn [snd] in Hreturns. subst thrown.
  vm_compute in Hshow. injection Hshow as <-. reflexivity.
Defined.

(* ===================================================================== *)
(** * A listing is registered after its entries are read *)
(* ===================================================================== *)

(** C1. One directory, two cache objects.  [#readNodeModulesList]
    registers the listing it builds only after it has read the entries of
    the directory, so a read of the same directory that is made on the way
    builds a listing of its own.  On a file system whose canonical paths
    resolve to themselves, where the [node_modules] of the addon [a] is a
    link to the [node_modules] it is installed in, one call of [loadApp]
    returns and leaves two listing objects for the canonical path
    [/p/node_modules]: during the call the table holds the second under
    that path, at the end it holds the first, and the addon keeps the
    second as its [nodeModules]. *)
Theorem loadApp_two_listings_for_one_directory :
  realPathsAreCanonical linkedFileSystem
  /\ loadApp linkedFileSystem posix 10 6 "/p" true PackageInfoCache.new
     = Ok 0%nat linkedLoaded
  /\ readNodeModulesEntry linkedFileSystem posix
       (readPackage linkedFileSystem posix 4)
       (readNodeModulesList linkedFileSystem posix 4)
       (ListAt 0) "/p/node_modules" "a" linkedListingCreated
     = Ok tt linkedEntryRead
  /\ PackageInfoCache.getEntry linkedListingCreated "/p/node_modules" = None
  /\ PackageInfoCache.getEntry linkedEntryRead "/p/node_modules"
     = Some (EList (ListAt 1))
  /\ PackageInfoCache.getEntry linkedLoaded "/p/node_modules"
     = Some (EList (ListAt 0))
  /\ (exists first second addon,
        PackageInfoCache.nodeModulesLists linkedLoaded !! 0%nat = Some first
        /\ PackageInfoCache.nodeModulesLists linkedLoaded !! 1%nat = Some second
        /\ NodeModulesList.realPath first = "/p/node_modules"
        /\ NodeModulesList.realPath second = "/p/node_modules"
        /\ PackageInfoCache.packageInfos linkedLoaded !! 1%nat = Some addon
        /\ PackageInfo.realPath addon = "/p/node_modules/a"
        /\ PackageInfo.nodeModules addon = Some (ListAt 1)).
Proof.
  split.
  { apply tableFileSystem_canonical. vm_compute. reflexivity. }
  split; [vm_compute; reflexivity|].
  split; [vm_compute; reflexivity|].
  split; [reflexivity|]. split; [reflexivity|]. split; [reflexivity|].
  eexists _, _, _. split; [reflexivity|]. split; [reflexivity|].
  split; [reflexivity|]. split; [reflexivity|]. split; [reflexivity|].
  split; reflexivity.
Qed.

(** For the same reason the readers do not return on a link that leads
    back to a listing that is being read: where the scope directory [@a]
    of [/p/node_modules] is a link to [/p/node_modules], reading the
    listing reads the scope, which reads the listing again, at every
    depth. *)
Lemma readNodeModulesList_link_cycle (fuel : nat) :
  forall dir c,
    dir = "/p/node_modules" \/ dir = "/p/node_modules/@a" ->
    PackageInfoCache.getEntry c "/p/node_modules" = None ->
    PackageInfoCache.getEntry c "/p/node_modules/@a" = None ->
    readNodeModulesList cycleFileSystem posix fuel dir c = OutOfFuel.
Proof.
  induction fuel as [|fuel IH]; intros dir c Hdir Hlist Hscope; [reflexivity|].
  assert (Hcreate :
    createNodeModulesList cycleFileSystem posix
      (readPackage cycleFileSystem posix fuel)
      (readNodeModulesList cycleFileSystem posix fuel) "/p/node_modules" c
    = OutOfFuel).
  { unfold createNodeModulesList, bind, allocateNodeModulesList.
    assert (Hentries :
      List.filter (isNodeModulesEntry cycleFileSystem "/p/node_modules")
        (readdirSync cycleFileSystem "/p/node_modules") = ["@a"])
      by (vm_compute; reflexivity).
    rewrite Hentries. cbn [forEach]. unfold bind.
    unfold readNodeModulesEntry. cbn zeta.
    assert (Hfile : getRealFilePath cycleFileSystem
                      (join posix "/p/node_modules" "@a") = None)
      by (vm_compute; reflexivity).
    rewrite Hfile. cbn [truthyPath].
    assert (Hat : startsWith "@a" "@" = true) by (vm_compute; reflexivity).
    rewrite Hat. unfold bind.
    assert (Hjoin : join posix "/p/node_modules" "@a" = "/p/node_modules/@a")
      by (vm_compute; reflexivity).
    rewrite Hjoin.
    rewrite IH; [reflexivity|now right|exact Hlist|exact Hscope]. }
  cbn [readNodeModulesList]. unfold readNodeModulesList_body. cbn zeta.
  destruct Hdir as [-> | ->].
  - assert (Hn : normalize posix "/p/node_modules" = "/p/node_modules")
      by (vm_compute; reflexivity).
    rewrite Hn, Hlist.
    assert (Hreal : getRealDirectoryPath cycleFileSystem "/p/node_modules"
                    = Some "/p/node_modules") by (vm_compute; reflexivity).
    rewrite Hreal, String.eqb_refl. cbn [negb]. exact Hcreate.
  - assert (Hn : normalize posix "/p/node_modules/@a" = "/p/node_modules/@a")
      by (vm_compute; reflexivity).
    rewrite Hn, Hscope.
    assert (Hreal : getRealDirectoryPath cycleFileSystem "/p/node_modules/@a"
                    = Some "/p/node_modules") by (vm_compute; reflexivity).
    rewrite Hreal.
    assert (Hne : String.eqb "/p/node_modules" "/p/node_modules/@a" = false)
      by (vm_compute; reflexivity).
    rewrite Hne. cbn [negb]. rewrite Hlist. exact Hcreate.
Qed.

(** So the upward search from [/p], which reads that listing first, does
    not return either, whatever the steps and the fuel. *)
Lemma findPackage_link_cycle (steps fuel : nat) (packageName : string) :
  findPackage cycleFileSystem posix (S steps) fuel packageName "/p"
    PackageInfoCache.new = OutOfFuel.
Proof.
  unfold findPackage. cbn zeta.
  assert (Hroot : parse_root posix "/p" = "/") by (vm_compute; reflexivity).
  rewrite Hroot. cbn [findPackage_loop].
  assert (Hne : String.eqb "/p" "/" = false) by (vm_compute; reflexivity).
  rewrite Hne.
  assert (Hbase : String.eqb (basename posix "/p") "node_modules" = false)
    by (vm_compute; reflexivity).
  rewrite Hbase. cbv zeta.
  assert (Hpath : ("/p" ++ sep posix ++ "node_modules")%string = "/p/node_modules")
    by (vm_compute; reflexivity).
  rewrite Hpath. unfold bind.
  now rewrite (readNodeModulesList_link_cycle fuel "/p/node_modules"
                 PackageInfoCache.new (or_introl eq_refl) eq_refl eq_refl).
Qed.

(* ===================================================================== *)
(** * The resolution pass partitions the declared names *)
(* ===================================================================== *)



Section Partition.
Variable fs : FileSystem.
Variable path : PathModule.
Variable cache_findPackage : string -> string -> M (option Entry).
Hypothesis cache_findPackage_extends :
  forall name dir c found c',
    cache_findPackage name dir c = Ok found c' -> extends fs c c'.




End Partition.


